(** * Cut finding in the circuit-knitting toolbox: a shallow embedding

    The development follows the Python sources module by module:

    - [Py]: the exceptions the modelled code can raise;
    - [Cost]: the cost tuples [(gamma, width)] and Python's tuple comparison;
    - [BFS]: [cut_finding/best_first_search.py], the priority queue and the
      best-first search engine;
    - [CutOpt]: [cut_finding/cut_optimization.py], the search-space functions
      and the driver [CutOptimization];
    - [LOCutOpt]: [cut_finding/LO_gate_cut_optimizer/cut_optimization.py];
    - [Float]: the rounding of Python's floats;
    - [Circ]: [cut_finding/LO_gate_cut_optimizer/circuit_interface.py], the
      class [NameToIDMap] and the wire ordering of [SimpleGateList].

    Definitions come first, the theorems after them. *)

From Stdlib Require Import List ZArith QArith Qround Qpower Lia Lqa Bool Arith.
From Stdlib Require Import String.
From Stdlib Require Import Sorting.Sorted Permutation.
Import ListNotations.

Set Implicit Arguments.

(* ================================================================== *)
(** * Definitions *)
(* ================================================================== *)

(** ** Python results *)

Module Py.

(** The exceptions raised by the modelled code. *)
Inductive exn : Type :=
| ValueError
| AttributeError
| AssertionError
| IndexError
| TypeError.

(** A call either returns a value or raises. *)
Inductive result (A : Type) : Type :=
| Ok (a : A)
| Raise (e : exn).

Arguments Ok {A} a.
Arguments Raise {A} e.

End Py.

(** ** Cost tuples *)

Module Cost.

(** Second component of a cost: an [int] width, or [np.inf]. *)
Inductive width : Type :=
| Fin (n : nat)
| Inf.

Definition width_eqb (a b : width) : bool :=
  match a, b with
  | Fin x, Fin y => Nat.eqb x y
  | Inf, Inf => true
  | _, _ => false
  end.

Definition width_ltb (a b : width) : bool :=
  match a, b with
  | Fin x, Fin y => Nat.ltb x y
  | Fin _, Inf => true
  | Inf, _ => false
  end.

Definition width_leb (a b : width) : bool :=
  match a, b with
  | Fin x, Fin y => Nat.leb x y
  | _, Inf => true
  | Inf, Fin _ => false
  end.

(** A cost is the tuple [(gamma, width)]; gamma is a Python number, here an
    exact rational (only comparisons are performed on it). *)
Definition t : Type := (Q * width)%type.

Definition Qlt_bool (a b : Q) : bool := negb (Qle_bool b a).

(** Python compares tuples at the first position where the items differ
    (by [==]); equal tuples are [<=] and not [<]. *)
Definition eqb (a b : t) : bool :=
  Qeq_bool (fst a) (fst b) && width_eqb (snd a) (snd b).

Definition leb (a b : t) : bool :=
  if negb (Qeq_bool (fst a) (fst b)) then Qle_bool (fst a) (fst b)
  else if negb (width_eqb (snd a) (snd b)) then width_leb (snd a) (snd b)
  else true.

Definition ltb (a b : t) : bool :=
  if negb (Qeq_bool (fst a) (fst b)) then Qlt_bool (fst a) (fst b)
  else if negb (width_eqb (snd a) (snd b)) then width_ltb (snd a) (snd b)
  else false.

(** [a > b] *)
Definition gtb (a b : t) : bool :=
  if negb (Qeq_bool (fst a) (fst b)) then Qlt_bool (fst b) (fst a)
  else if negb (width_eqb (snd a) (snd b)) then width_ltb (snd b) (snd a)
  else false.

End Cost.

(** ** best_first_search.py *)

Module BFS.

(** *** The random generator of the priority queue

    [np.random.default_rng(seed)] is a library object.  A generator is
    modelled by the stream of numbers its successive [random()] calls return
    and the position reached in it.  With an integer seed the stream is a
    function of the seed ([bit_generator], numpy's algorithm, a parameter);
    with [seed = None] numpy seeds the generator from fresh operating-system
    entropy, so the stream is an input of the run ([os_entropy]). *)
Record Generator : Type := {
  gen_stream : nat -> Q;
  gen_pos : nat
}.

Definition default_rng (bit_generator : Z -> nat -> Q) (os_entropy : nat -> Q)
  (seed : option Z) : Generator :=
  match seed with
  | Some s => {| gen_stream := bit_generator s; gen_pos := 0 |}
  | None => {| gen_stream := os_entropy; gen_pos := 0 |}
  end.

(** [random_gen.random()]: the next number, and the advanced generator. *)
Definition gen_random (g : Generator) : Q * Generator :=
  (gen_stream g (gen_pos g),
   {| gen_stream := gen_stream g; gen_pos := S (gen_pos g) |}).

(** *** BestFirstPriorityQueue *)

(** The tuples pushed on the heap:
    [(cost, -depth, random_num, seq_count, state)]. *)
Record entry (State : Type) : Type := {
  e_cost : Cost.t;
  e_neg_depth : Z;
  e_rand : Q;
  e_seq : nat;
  e_state : State
}.

(** Python's [<] on two heap tuples.  The last position, the state, is only
    reached by two tuples with the same sequence count. *)
Definition entry_ltb {State} (a b : entry State) : bool :=
  if negb (Cost.eqb (e_cost a) (e_cost b)) then Cost.ltb (e_cost a) (e_cost b)
  else if negb (Z.eqb (e_neg_depth a) (e_neg_depth b))
       then Z.ltb (e_neg_depth a) (e_neg_depth b)
  else if negb (Qeq_bool (e_rand a) (e_rand b))
       then Cost.Qlt_bool (e_rand a) (e_rand b)
  else if negb (Nat.eqb (e_seq a) (e_seq b)) then Nat.ltb (e_seq a) (e_seq b)
  else false.

(** [heapq] is a library: the heap is modelled by the list of its tuples,
    [heappush] adds a tuple, [heappop] removes the least one.  *)
Definition heappush {State} (h : list (entry State)) (x : entry State)
  : list (entry State) := h ++ [x].

Fixpoint heappop {State} (h : list (entry State))
  : option (entry State * list (entry State)) :=
  match h with
  | [] => None
  | x :: r =>
      match heappop r with
      | None => Some (x, [])
      | Some (m, r') => if entry_ltb m x then Some (m, x :: r') else Some (x, r)
      end
  end.

Record BestFirstPriorityQueue (State : Type) : Type := {
  random_gen : Generator;
  unique : nat;
  pqueue : list (entry State)
}.

(** [BestFirstPriorityQueue.__init__] *)
Definition pq_init (State : Type) (g : Generator) : BestFirstPriorityQueue State :=
  {| random_gen := g; unique := 0; pqueue := [] |}.

(** [BestFirstPriorityQueue.put] *)
Definition pq_put {State} (q : BestFirstPriorityQueue State)
  (state : State) (depth : nat) (cost : Cost.t) : BestFirstPriorityQueue State :=
  let (r, g') := gen_random (random_gen q) in
  {| random_gen := g';
     unique := S (unique q);
     pqueue := heappush (pqueue q)
                 {| e_cost := cost; e_neg_depth := - Z.of_nat depth;
                    e_rand := r; e_seq := unique q; e_state := state |} |}.

(** [BestFirstPriorityQueue.qsize] *)
Definition qsize {State} (q : BestFirstPriorityQueue State) : nat :=
  List.length (pqueue q).

(** [BestFirstPriorityQueue.get]: [None] stands for [(None, None, None)]. *)
Definition pq_get {State} (q : BestFirstPriorityQueue State)
  : option (State * nat * Cost.t) * BestFirstPriorityQueue State :=
  match heappop (pqueue q) with
  | None => (None, q)
  | Some (best, rest) =>
      (Some (e_state best, Z.to_nat (- e_neg_depth best), e_cost best),
       {| random_gen := random_gen q; unique := unique q; pqueue := rest |})
  end.

(** [BestFirstPriorityQueue.clear] *)
Definition pq_clear {State} (q : BestFirstPriorityQueue State)
  : BestFirstPriorityQueue State :=
  {| random_gen := random_gen q; unique := unique q; pqueue := [] |}.

(** *** SearchFunctions and BestFirstSearch *)

(** The five callbacks; each also receives the [*args] of the pass. *)
Record SearchFunctions (State Args : Type) : Type := {
  cost_func : State -> Args -> Cost.t;
  upperbound_cost_func : option (State -> Args -> Cost.t);
  next_state_func : State -> Args -> Py.result (list State);
  goal_state_func : State -> Args -> bool;
  mincost_bound_func : option (Args -> option Cost.t)
}.

Definition stats : Type := (nat * nat * nat * nat)%type.

Record BestFirstSearch (State Args : Type) : Type := {
  funcs : SearchFunctions State Args;
  stop_at_first_min : bool;
  max_backjumps : option nat;
  pq : BestFirstPriorityQueue State;
  upperbound_cost : option Cost.t;
  mincost_bound : option Cost.t;
  min_reached : bool;
  num_states_visited : nat;
  num_next_states : nat;
  num_enqueues : nat;
  num_backjumps : nat;
  penultimate_stats : option stats
}.

(** What a call of [optimization_pass] gives back: a pair [(state, cost)],
    with [Returned None] for [(None, None)], or an exception of a callback. *)
Inductive outcome (State : Type) : Type :=
| Returned (r : option (State * Cost.t))
| Raised (ex : Py.exn).

Arguments Returned {State} r.
Arguments Raised {State} ex.

(** A pop of the pass: the depth popped, and whether the pop went on to be
    counted as visited (it passed the cost-bound test). *)
Definition pop : Type := (nat * bool)%type.

(** How one iteration of the loop of [optimization_pass] ends. *)
Inductive iteration (State Args : Type) : Type :=
| Continue (depth : nat) (e : BestFirstSearch State Args)
| Exit (r : outcome State) (e : BestFirstSearch State Args).

Section Engine.

Variables State Args : Type.

Let engine : Type := BestFirstSearch State Args.

Definition set_pq (e : engine) (q : BestFirstPriorityQueue State) : engine :=
  {| funcs := funcs e; stop_at_first_min := stop_at_first_min e;
     max_backjumps := max_backjumps e; pq := q;
     upperbound_cost := upperbound_cost e; mincost_bound := mincost_bound e;
     min_reached := min_reached e; num_states_visited := num_states_visited e;
     num_next_states := num_next_states e; num_enqueues := num_enqueues e;
     num_backjumps := num_backjumps e; penultimate_stats := penultimate_stats e |}.

Definition set_upperbound_cost (e : engine) (c : option Cost.t) : engine :=
  {| funcs := funcs e; stop_at_first_min := stop_at_first_min e;
     max_backjumps := max_backjumps e; pq := pq e;
     upperbound_cost := c; mincost_bound := mincost_bound e;
     min_reached := min_reached e; num_states_visited := num_states_visited e;
     num_next_states := num_next_states e; num_enqueues := num_enqueues e;
     num_backjumps := num_backjumps e; penultimate_stats := penultimate_stats e |}.

Definition set_mincost_bound (e : engine) (c : option Cost.t) : engine :=
  {| funcs := funcs e; stop_at_first_min := stop_at_first_min e;
     max_backjumps := max_backjumps e; pq := pq e;
     upperbound_cost := upperbound_cost e; mincost_bound := c;
     min_reached := min_reached e; num_states_visited := num_states_visited e;
     num_next_states := num_next_states e; num_enqueues := num_enqueues e;
     num_backjumps := num_backjumps e; penultimate_stats := penultimate_stats e |}.

Definition set_min_reached (e : engine) (b : bool) : engine :=
  {| funcs := funcs e; stop_at_first_min := stop_at_first_min e;
     max_backjumps := max_backjumps e; pq := pq e;
     upperbound_cost := upperbound_cost e; mincost_bound := mincost_bound e;
     min_reached := b; num_states_visited := num_states_visited e;
     num_next_states := num_next_states e; num_enqueues := num_enqueues e;
     num_backjumps := num_backjumps e; penultimate_stats := penultimate_stats e |}.

Definition set_num_states_visited (e : engine) (n : nat) : engine :=
  {| funcs := funcs e; stop_at_first_min := stop_at_first_min e;
     max_backjumps := max_backjumps e; pq := pq e;
     upperbound_cost := upperbound_cost e; mincost_bound := mincost_bound e;
     min_reached := min_reached e; num_states_visited := n;
     num_next_states := num_next_states e; num_enqueues := num_enqueues e;
     num_backjumps := num_backjumps e; penultimate_stats := penultimate_stats e |}.

Definition set_num_next_states (e : engine) (n : nat) : engine :=
  {| funcs := funcs e; stop_at_first_min := stop_at_first_min e;
     max_backjumps := max_backjumps e; pq := pq e;
     upperbound_cost := upperbound_cost e; mincost_bound := mincost_bound e;
     min_reached := min_reached e; num_states_visited := num_states_visited e;
     num_next_states := n; num_enqueues := num_enqueues e;
     num_backjumps := num_backjumps e; penultimate_stats := penultimate_stats e |}.

Definition set_num_enqueues (e : engine) (n : nat) : engine :=
  {| funcs := funcs e; stop_at_first_min := stop_at_first_min e;
     max_backjumps := max_backjumps e; pq := pq e;
     upperbound_cost := upperbound_cost e; mincost_bound := mincost_bound e;
     min_reached := min_reached e; num_states_visited := num_states_visited e;
     num_next_states := num_next_states e; num_enqueues := n;
     num_backjumps := num_backjumps e; penultimate_stats := penultimate_stats e |}.

Definition set_num_backjumps (e : engine) (n : nat) : engine :=
  {| funcs := funcs e; stop_at_first_min := stop_at_first_min e;
     max_backjumps := max_backjumps e; pq := pq e;
     upperbound_cost := upperbound_cost e; mincost_bound := mincost_bound e;
     min_reached := min_reached e; num_states_visited := num_states_visited e;
     num_next_states := num_next_states e; num_enqueues := num_enqueues e;
     num_backjumps := n; penultimate_stats := penultimate_stats e |}.

Definition set_penultimate_stats (e : engine) (s : option stats) : engine :=
  {| funcs := funcs e; stop_at_first_min := stop_at_first_min e;
     max_backjumps := max_backjumps e; pq := pq e;
     upperbound_cost := upperbound_cost e; mincost_bound := mincost_bound e;
     min_reached := min_reached e; num_states_visited := num_states_visited e;
     num_next_states := num_next_states e; num_enqueues := num_enqueues e;
     num_backjumps := num_backjumps e; penultimate_stats := s |}.

(** [BestFirstSearch.__init__]; [g] is the generator
    [np.random.default_rng(seed)] built from the settings' seed. *)
Definition init (sf : SearchFunctions State Args) (g : Generator)
  (max_bj : option nat) (stop : bool) : engine :=
  {| funcs := sf; stop_at_first_min := stop; max_backjumps := max_bj;
     pq := pq_init State g;
     upperbound_cost := None; mincost_bound := None; min_reached := false;
     num_states_visited := 0; num_next_states := 0; num_enqueues := 0;
     num_backjumps := 0; penultimate_stats := None |}.

(** [get_stats(penultimate=False)] *)
Definition get_stats (e : engine) : stats :=
  (num_states_visited e, num_next_states e, num_enqueues e, num_backjumps e).

(** [minimum_reached] *)
Definition minimum_reached (e : engine) : bool := min_reached e.

(** [update_upperbound_cost]; the argument is a cost or [None]. *)
Definition update_upperbound_cost (e : engine) (cost_bound : option Cost.t) : engine :=
  match cost_bound with
  | Some b =>
      match upperbound_cost e with
      | None => set_upperbound_cost e (Some b)
      | Some u => if Cost.ltb b u then set_upperbound_cost e (Some b) else e
      end
  | None => e
  end.

(** [update_upperbound_goal_state] *)
Definition update_upperbound_goal_state (e : engine) (goal_state : State)
  (args : Args) : engine :=
  let bound :=
    match upperbound_cost_func (funcs e) with
    | Some f => f goal_state args
    | None => cost_func (funcs e) goal_state args
    end in
  match upperbound_cost e with
  | None => set_upperbound_cost e (Some bound)
  | Some u => if Cost.ltb bound u then set_upperbound_cost e (Some bound) else e
  end.

(** The body of the [for] loop of [put]. *)
Definition put_one (args : Args) (depth : nat) (e : engine) (state : State) : engine :=
  let cost := cost_func (funcs e) state args in
  if match upperbound_cost e with
     | None => true
     | Some u => Cost.leb cost u
     end
  then set_num_enqueues (set_pq e (pq_put (pq e) state depth cost))
         (S (num_enqueues e))
  else e.

(** [put] *)
Definition put (e : engine) (state_list : list State) (depth : nat)
  (args : Args) : engine :=
  let e1 := set_num_next_states e (num_next_states e + List.length state_list) in
  fold_left (put_one args depth) state_list e1.

(** [update_minimum_reached]; only the effect on the engine is used. *)
Definition update_minimum_reached (e : engine) (min_cost : option Cost.t) : engine :=
  match min_cost with
  | None => set_min_reached e true
  | Some c =>
      match upperbound_cost e with
      | Some u => if Cost.leb u c then set_min_reached e true else e
      | None => e
      end
  end.

(** [cost_bounds_exceeded] *)
Definition cost_bounds_exceeded (e : engine) (cost : option Cost.t) : bool :=
  match cost with
  | None => false
  | Some c =>
      match mincost_bound e with
      | Some m => Cost.gtb c m
      | None => false
      end
      || match upperbound_cost e with
         | Some u => Cost.gtb c u
         | None => false
         end
  end.

(** [initialize] *)
Definition initialize (e : engine) (initial_state_list : list State)
  (args : Args) : engine :=
  let e1 := set_pq e (pq_clear (pq e)) in
  let e2 := set_upperbound_cost e1 None in
  let e3 := set_mincost_bound e2 None in
  let e4 := set_min_reached e3 false in
  let e5 := set_num_states_visited e4 0 in
  let e6 := set_num_next_states e5 0 in
  let e7 := set_num_enqueues e6 0 in
  let e8 := set_num_backjumps e7 0 in
  let e9 := set_penultimate_stats e8 (Some (get_stats e8)) in
  put e9 initial_state_list 0 args.

(** The condition of the [while] loop of [optimization_pass]. *)
Definition loop_guard (e : engine) : bool :=
  (0 <? qsize (pq e))
  && (negb (stop_at_first_min e) || negb (min_reached e))
  && match max_backjumps e with
     | None => true
     | Some m => num_backjumps e <? m
     end.

(** One iteration of the [while] loop of [optimization_pass], entered with
    the loop variable [prev_depth].  The iteration either ends the call, by a
    [return] or an exception, or goes on to the next test of the loop
    condition with [prev_depth] set to the depth popped.  The second component
    is the pop of the iteration, if any; it is not part of the program's
    state. *)
Definition loop_body (args : Args) (prev_depth : option nat) (e : engine)
  : iteration State Args * list pop :=
  match pq_get (pq e) with
  | (None, q) =>
      (Exit (Returned None) (update_minimum_reached (set_pq e q) None), [])
  | (Some (state, depth, cost), q) =>
      let e1 := update_minimum_reached (set_pq e q) (Some cost) in
      if cost_bounds_exceeded e1 (Some cost)
      then (Exit (Returned None) e1, [(depth, false)])
      else
        let e2 := set_num_states_visited e1 (S (num_states_visited e1)) in
        let e3 :=
          match prev_depth with
          | Some p =>
              if depth <=? p
              then set_num_backjumps e2 (S (num_backjumps e2))
              else e2
          | None => e2
          end in
        if goal_state_func (funcs e3) state args then
          let e4 := set_penultimate_stats e3 (Some (get_stats e3)) in
          let e5 := update_upperbound_goal_state e4 state args in
          let e6 := update_minimum_reached e5 (Some cost) in
          (Exit (Returned (Some (state, cost))) e6, [(depth, true)])
        else
          match next_state_func (funcs e3) state args with
          | Py.Raise ex => (Exit (Raised ex) e3, [(depth, true)])
          | Py.Ok next_state_list =>
              (Continue depth (put e3 next_state_list (depth + 1) args),
               [(depth, true)])
          end
  end.

(** The statements after the loop. *)
Definition loop_exit (e : engine) : engine :=
  if qsize (pq e) =? 0 then set_min_reached e true else e.

(** The [while] loop of [optimization_pass] and the statements after it.
    One unit of [fuel] is spent per iteration; [None] is the model running
    out of fuel.  The third component lists the pops of the loop in order. *)
Fixpoint pass_loop (fuel : nat) (args : Args) (prev_depth : option nat)
  (e : engine) : option (outcome State * engine * list pop) :=
  if loop_guard e then
    match fuel with
    | O => None
    | S fuel' =>
        match loop_body args prev_depth e with
        | (Exit r e', p) => Some (r, e', p)
        | (Continue depth e', p) =>
            match pass_loop fuel' args (Some depth) e' with
            | None => None
            | Some (r, e'', tr) => Some (r, e'', p ++ tr)
            end
        end
    end
  else Some (Returned None, loop_exit e, []).

(** The first statement of [optimization_pass]: the min-cost bound is
    computed anew. *)
Definition refresh_mincost_bound (e : engine) (args : Args) : engine :=
  match mincost_bound_func (funcs e) with
  | Some f => set_mincost_bound e (f args)
  | None => e
  end.

(** [optimization_pass] *)
Definition optimization_pass (fuel : nat) (e : engine) (args : Args)
  : option (outcome State * engine * list pop) :=
  pass_loop fuel args None (refresh_mincost_bound e args).


(** Successive calls of [optimization_pass]: the outcomes of the first [n]
    calls, the engine after them and all the pops in order; [None] when a
    call runs out of fuel. *)
Fixpoint run_passes (fuel n : nat) (e : engine) (args : Args)
  : option (list (outcome State) * engine * list pop) :=
  match n with
  | O => Some ([], e, [])
  | S n' =>
      match optimization_pass fuel e args with
      | None => None
      | Some (r, e1, tr1) =>
          match run_passes fuel n' e1 args with
          | None => None
          | Some (rs, e2, tr2) => Some (r :: rs, e2, tr1 ++ tr2)
          end
      end
  end.

(** The backjumps of a sequence of popped depths: the pops whose depth is
    less than or equal to the depth of the pop before them, [prev] being the
    depth before the first one. *)
Fixpoint count_backjumps (prev : option nat) (depths : list nat) : nat :=
  match depths with
  | [] => 0
  | d :: rest =>
      match prev with
      | Some p => if d <=? p then 1 else 0
      | None => 0
      end + count_backjumps (Some d) rest
  end.

(** The depths of the pops that were counted as visited. *)
Definition visited_depths (tr : list pop) : list nat :=
  map fst (filter snd tr).

End Engine.

End BFS.

(** ** cut_optimization.py *)

Module CutOpt.

(** *** Collaborators that are not part of the modelled files *)

(** A gate as the search sees it ([CircuitElement]): its name and the qubits
    it acts on. *)
Record CircuitElement : Type := {
  ce_name : string;
  ce_qubits : list nat
}.

(** A cut constraint list: [None] (no constraint) or a list of cut types, a
    cut type being a name or [None] (no cut). *)
Definition cut_constraints : Type := option (list (option string)).

(** A gate specification [[index, gate, cut_constraints]]. *)
Record gate_spec : Type := {
  gs_index : nat;
  gs_gate : CircuitElement;
  gs_constraints : cut_constraints
}.

(** A cutting action: an object with a name and a [next_state] method. *)
Record Action (State : Type) : Type := {
  get_name : option string;
  next_state : State -> gate_spec -> nat -> list State
}.

(** An [ActionNames] object, seen through its method [get_group]; a group
    that is absent yields [None]. *)
Definition ActionNames (State : Type) : Type :=
  string -> option (list (Action State)).

(** [CutOptimizationFuncArgs], as the driver fills it in before any callback
    runs. *)
Record CutOptimizationFuncArgs (State : Type) : Type := {
  entangling_gates : list gate_spec;
  search_actions : ActionNames State;
  max_gamma : option Q;
  qpu_width : nat
}.

(** The methods of [DisjointSubcircuitsState] the modelled code calls, and
    its constructor [DisjointSubcircuitsState(num_qubits, max_wire_cuts)]. *)
Class StateOps (State : Type) : Type := {
  lower_bound_gamma : State -> Q;
  upper_bound_gamma : State -> Q;
  get_max_width : State -> nat;
  get_search_level : State -> nat;
  new_state : nat -> Z -> State
}.

(** The functions imported from [search_space_generator], [cco_utils] and
    numpy: [get_action_subset], [greedy_best_first_search] and [np.log2]
    (on the values it is applied to; a float is a rational). *)
Class Imports (State : Type) : Type := {
  get_action_subset :
    option (list (Action State)) -> cut_constraints -> option (list (Action State));
  greedy_best_first_search :
    State -> BFS.SearchFunctions State (CutOptimizationFuncArgs State) ->
    CutOptimizationFuncArgs State -> Py.result (option State);
  np_log2 : Q -> Q
}.

(** The circuit interface, through the two methods the driver calls. *)
Record CircuitInterface : Type := {
  get_num_qubits : nat;
  get_multiqubit_gates : list gate_spec
}.

(** Modelled from the spec: the class [OptimizationSettings] of
    [optimization_settings.py], with the fields the engine and the driver
    read ([max_gamma], [max_backjumps], [seed]; a seed may be [None], as the
    priority queue's constructor declares it). *)
Record OptimizationSettings : Type := {
  get_max_gamma : option Q;
  get_max_backjumps : option nat;
  get_seed : option Z
}.

(** [DeviceConstraints] of [quantum_device_constraints.py]. *)
Record DeviceConstraints : Type := {
  qubits_per_QPU : Z;
  num_QPUs : Z
}.

(** [DeviceConstraints.__post_init__] *)
Definition device_constraints (qubits num : Z) : Py.result DeviceConstraints :=
  if (qubits <? 1)%Z || (num <? 1)%Z then Py.Raise Py.ValueError
  else Py.Ok {| qubits_per_QPU := qubits; num_QPUs := num |}.

(** [DeviceConstraints.get_qpu_width] *)
Definition get_qpu_width (d : DeviceConstraints) : nat := Z.to_nat (qubits_per_QPU d).

Section Functions.

Context {State : Type} {ops : StateOps State} {imp : Imports State}.

Let Args : Type := CutOptimizationFuncArgs State.

(** *** The search-space functions *)

(** [cut_optimization_cost_func] *)
Definition cut_optimization_cost_func (state : State) (func_args : Args) : Cost.t :=
  (lower_bound_gamma state, Cost.Fin (get_max_width state)).

(** [cut_optimization_upper_bound_cost_func] *)
Definition cut_optimization_upper_bound_cost_func (goal_state : State)
  (func_args : Args) : Cost.t :=
  (upper_bound_gamma goal_state, Cost.Inf).

(** [cut_optimization_min_cost_bound_func] *)
Definition cut_optimization_min_cost_bound_func (func_args : Args) : option Cost.t :=
  match max_gamma func_args with
  | None => None
  | Some g => Some (g, Cost.Inf)
  end.

(** [cut_optimization_next_state_func] *)
Definition cut_optimization_next_state_func (state : State) (func_args : Args)
  : Py.result (list State) :=
  match nth_error (entangling_gates func_args) (get_search_level state) with
  | None => Py.Raise Py.IndexError
  | Some gate_spec =>
      let gate := gs_gate gate_spec in
      if List.length (ce_qubits gate) =? 2 then
        let action_list := search_actions func_args "TwoQubitGates"%string in
        let gate_actions := gs_constraints gate_spec in
        match get_action_subset action_list gate_actions with
        | None => Py.Raise Py.AssertionError
        | Some action_list =>
            Py.Ok (flat_map
                     (fun action =>
                        next_state action state gate_spec (qpu_width func_args))
                     action_list)
        end
      else Py.Raise Py.ValueError
  end.

(** [cut_optimization_goal_state_func] *)
Definition cut_optimization_goal_state_func (state : State) (func_args : Args) : bool :=
  List.length (entangling_gates func_args) <=? get_search_level state.

(** [cut_optimization_search_funcs] *)
Definition cut_optimization_search_funcs : BFS.SearchFunctions State Args :=
  {| BFS.cost_func := cut_optimization_cost_func;
     BFS.upperbound_cost_func := Some cut_optimization_upper_bound_cost_func;
     BFS.next_state_func := cut_optimization_next_state_func;
     BFS.goal_state_func := cut_optimization_goal_state_func;
     BFS.mincost_bound_func := Some cut_optimization_min_cost_bound_func |}.

(** *** The wire-cut cap *)

(** [max_wire_cuts_circuit] *)
Definition max_wire_cuts_circuit (circuit_interface : CircuitInterface) : Z :=
  let multiqubit_wires :=
    map (fun x => Z.of_nat (List.length (ce_qubits (gs_gate x))))
      (get_multiqubit_gates circuit_interface) in
  fold_right Z.add 0%Z multiqubit_wires.

(** [max_wire_cuts_gamma]: [int(np.ceil(np.log2(max_gamma + 1) - 1))]. *)
Definition max_wire_cuts_gamma (max_gamma : Q) : Z :=
  Qceiling (np_log2 (max_gamma + 1) - 1).

(** *** The driver *)

(** The [func_args] both [greedy_cut_optimization] and the constructor build. *)
Definition make_func_args (circuit_interface : CircuitInterface)
  (optimization_settings : OptimizationSettings)
  (device_constraints : DeviceConstraints)
  (search_actions : ActionNames State) : Args :=
  {| entangling_gates := get_multiqubit_gates circuit_interface;
     search_actions := search_actions;
     max_gamma := get_max_gamma optimization_settings;
     qpu_width := get_qpu_width device_constraints |}.

(** [greedy_cut_optimization] *)
Definition greedy_cut_optimization (circuit_interface : CircuitInterface)
  (optimization_settings : OptimizationSettings)
  (device_constraints : DeviceConstraints)
  (search_space_funcs : BFS.SearchFunctions State Args)
  (search_actions : ActionNames State) : Py.result (option State) :=
  let func_args :=
    make_func_args circuit_interface optimization_settings device_constraints
      search_actions in
  let start_state :=
    new_state (get_num_qubits circuit_interface)
      (max_wire_cuts_circuit circuit_interface) in
  greedy_best_first_search start_state search_space_funcs func_args.

Record CutOptimization : Type := {
  func_args : Args;
  greedy_goal_state : option State;
  search_engine : BFS.BestFirstSearch State Args;
  goal_state_returned : bool
}.

(** The maximum number of wire cuts the constructor allocates for. *)
Definition init_max_wire_cuts (circuit : CircuitInterface)
  (greedy_goal_state : option State) (max_gamma : option Q) : Z :=
  let max_wire_cuts := max_wire_cuts_circuit circuit in
  match greedy_goal_state with
  | Some g =>
      let mwc := max_wire_cuts_gamma (upper_bound_gamma g) in
      Z.min max_wire_cuts mwc
  | None =>
      match max_gamma with
      | Some mg =>
          let mwc := max_wire_cuts_gamma mg in
          Z.min max_wire_cuts mwc
      | None => max_wire_cuts
      end
  end.

(** Modelled from the spec: [select_search_engine] of [cco_utils], which
    builds the best-first engine from the settings, the search functions and
    the [stop_at_first_min] flag. *)
Definition select_search_engine (bit_generator : Z -> nat -> Q)
  (os_entropy : nat -> Q) (settings : OptimizationSettings)
  (search_space_funcs : BFS.SearchFunctions State Args)
  (stop_at_first_min : bool) : BFS.BestFirstSearch State Args :=
  BFS.init search_space_funcs
    (BFS.default_rng bit_generator os_entropy (get_seed settings))
    (get_max_backjumps settings) stop_at_first_min.

(** [CutOptimization.__init__], with the default search-space functions;
    [cut_actions] is the subset of actions the settings allow. *)
Definition init (bit_generator : Z -> nat -> Q) (os_entropy : nat -> Q)
  (circuit_interface : CircuitInterface)
  (optimization_settings : OptimizationSettings)
  (device_constraints : DeviceConstraints)
  (cut_actions : ActionNames State) : Py.result CutOptimization :=
  let fa :=
    make_func_args circuit_interface optimization_settings device_constraints
      cut_actions in
  match greedy_cut_optimization circuit_interface optimization_settings
          device_constraints cut_optimization_search_funcs cut_actions with
  | Py.Raise ex => Py.Raise ex
  | Py.Ok greedy =>
      let max_wire_cuts := init_max_wire_cuts circuit_interface greedy (max_gamma fa) in
      let start_state := new_state (get_num_qubits circuit_interface) max_wire_cuts in
      let sq :=
        select_search_engine bit_generator os_entropy optimization_settings
          cut_optimization_search_funcs false in
      let sq := BFS.initialize sq [start_state] fa in
      let sq :=
        match greedy with
        | Some g => BFS.update_upperbound_goal_state sq g fa
        | None => sq
        end in
      Py.Ok {| func_args := fa; greedy_goal_state := greedy;
               search_engine := sq; goal_state_returned := false |}
  end.

(** What [CutOptimization.optimization_pass] returns: [(state, cost)], where
    either may be [None]. *)
Definition pass_result : Type := (option State * option Cost.t)%type.

(** [CutOptimization.optimization_pass].  When the engine yields no state and
    the greedy goal state is [None] too, the cost function is applied to
    [None] and its first method call raises [AttributeError]. *)
Definition optimization_pass (fuel : nat) (d : CutOptimization)
  : option (Py.result pass_result * CutOptimization) :=
  match BFS.optimization_pass fuel (search_engine d) (func_args d) with
  | None => None
  | Some (BFS.Raised ex, e', _) =>
      Some (Py.Raise ex,
            {| func_args := func_args d; greedy_goal_state := greedy_goal_state d;
               search_engine := e'; goal_state_returned := goal_state_returned d |})
  | Some (BFS.Returned (Some (state, cost)), e', _) =>
      Some (Py.Ok (Some state, Some cost),
            {| func_args := func_args d; greedy_goal_state := greedy_goal_state d;
               search_engine := e'; goal_state_returned := true |})
  | Some (BFS.Returned None, e', _) =>
      if negb (goal_state_returned d) then
        match greedy_goal_state d with
        | Some g =>
            Some (Py.Ok (Some g, Some (cut_optimization_cost_func g (func_args d))),
                  {| func_args := func_args d;
                     greedy_goal_state := greedy_goal_state d;
                     search_engine := e'; goal_state_returned := true |})
        | None =>
            Some (Py.Raise Py.AttributeError,
                  {| func_args := func_args d;
                     greedy_goal_state := greedy_goal_state d;
                     search_engine := e';
                     goal_state_returned := goal_state_returned d |})
        end
      else
        Some (Py.Ok (None, None),
              {| func_args := func_args d; greedy_goal_state := greedy_goal_state d;
                 search_engine := e'; goal_state_returned := true |})
  end.

(** [CutOptimization.minimum_reached] *)
Definition minimum_reached (d : CutOptimization) : bool :=
  BFS.minimum_reached (search_engine d).

(** Successive calls of [optimization_pass]: the results of the first [n]
    calls, as far as the fuel of each call allows. *)
Fixpoint run_passes (fuel n : nat) (d : CutOptimization)
  : list (Py.result pass_result) :=
  match n with
  | O => []
  | S n' =>
      match optimization_pass fuel d with
      | None => []
      | Some (r, d') => r :: run_passes fuel n' d'
      end
  end.

(** The cost tuples among the results of a run. *)
Fixpoint returned_costs (rs : list (Py.result pass_result)) : list Cost.t :=
  match rs with
  | [] => []
  | Py.Ok (_, Some c) :: rs' => c :: returned_costs rs'
  | _ :: rs' => returned_costs rs'
  end.

(** A run of the search: the driver is built from its inputs and
    [optimization_pass] is called [n] times. *)
Definition search (bit_generator : Z -> nat -> Q) (os_entropy : nat -> Q)
  (circuit_interface : CircuitInterface)
  (optimization_settings : OptimizationSettings)
  (device_constraints : DeviceConstraints)
  (cut_actions : ActionNames State) (fuel n : nat)
  : Py.result (list (Py.result pass_result)) :=
  match init bit_generator os_entropy circuit_interface optimization_settings
          device_constraints cut_actions with
  | Py.Raise ex => Py.Raise ex
  | Py.Ok d => Py.Ok (run_passes fuel n d)
  end.

End Functions.

End CutOpt.

(** ** LO_gate_cut_optimizer/cut_optimization.py *)

Module LOCutOpt.

Section Functions.

Context {State : Type} {ops : CutOpt.StateOps State} {imp : CutOpt.Imports State}.

(** [CutOptimizationNextStateFunc].  Here a gate specification holds the list
    [[name, qubit_1, ..., qubit_n]], whose length is one more than the number
    of qubits; [getGroup], [getActionSubset] and [nextState] are the methods
    modelled in [CutOpt].  The [for] loop raises [TypeError] when it is given
    [None] to iterate over. *)
Definition CutOptimizationNextStateFunc (state : State)
  (func_args : CutOpt.CutOptimizationFuncArgs State) : Py.result (list State) :=
  match nth_error (CutOpt.entangling_gates func_args)
          (CutOpt.get_search_level state) with
  | None => Py.Raise Py.IndexError
  | Some gate_spec =>
      let action_list :=
        if S (List.length (CutOpt.ce_qubits (CutOpt.gs_gate gate_spec))) =? 3
        then CutOpt.search_actions func_args "TwoQubitGates"%string
        else CutOpt.search_actions func_args "MultiqubitGates"%string in
      match CutOpt.get_action_subset action_list (CutOpt.gs_constraints gate_spec) with
      | None => Py.Raise Py.TypeError
      | Some action_list =>
          Py.Ok (flat_map
                   (fun action =>
                      CutOpt.next_state action state gate_spec
                        (CutOpt.qpu_width func_args))
                   action_list)
      end
  end.

End Functions.

End LOCutOpt.

(** ** Python floats

    A [float] is a double: a rational with a significand of 53 binary digits,
    and every operation returns the double nearest to the exact result, a tie
    going to the even significand.  The smallest spacing of doubles is
    [2^-1074]; the largest double is not modelled (no number here comes near
    it). *)

Module Float.

(** [2^e] *)
Definition pow2 (e : Z) : Q := Qpower 2 e.

(** The exponent of the leading binary digit of a positive rational [x]:
    [2^(ilog2 x) <= x < 2^(ilog2 x + 1)]. *)
Definition ilog2 (x : Q) : Z :=
  let e := (Z.log2 (Qnum x) - Z.log2 (Z.pos (Qden x)))%Z in
  if Qle_bool (pow2 e) x then e else (e - 1)%Z.

(** The whole number nearest to [x], a tie going to the even one. *)
Definition nearest_even (x : Q) : Z :=
  let f := Qfloor x in
  match Qcompare (x - inject_Z f) (1 # 2) with
  | Lt => f
  | Gt => (f + 1)%Z
  | Eq => if Z.even f then f else (f + 1)%Z
  end.

(** The double nearest to a positive rational: a multiple of the spacing
    [2^e] of the doubles around it. *)
Definition round_pos (x : Q) : Q :=
  let e := Z.max (ilog2 x - 52) (-1074) in
  inject_Z (nearest_even (x / pow2 e)) * pow2 e.

(** The double nearest to a rational. *)
Definition round (x : Q) : Q :=
  match Qcompare x 0 with
  | Eq => 0
  | Gt => round_pos x
  | Lt => - round_pos (- x)
  end.

(** [a + b], [a - b] and [a * b] on floats. *)
Definition add (a b : Q) : Q := round (a + b).
Definition sub (a b : Q) : Q := round (a - b).
Definition mul (a b : Q) : Q := round (a * b).

End Float.

(** ** LO_gate_cut_optimizer/circuit_interface.py *)

Module Circ.

(** Wire names are hashable objects.  [Cut w] is the tuple [("cut", w)]; a
    [Plain] name is any other name (a string stands for it). *)
Inductive name : Type :=
| Plain (a : string)
| Cut (w : name).

Fixpoint name_eqb (x y : name) : bool :=
  match x, y with
  | Plain a, Plain b => String.eqb a b
  | Cut v, Cut w => name_eqb v w
  | _, _ => false
  end.

(** *** Python dictionaries

    A [dict] keeps its keys in insertion order: an association list with one
    pair per key. *)
Section Dict.

Variables K V : Type.
Variable keq : K -> K -> bool.

Fixpoint dict_get (d : list (K * V)) (k : K) : option V :=
  match d with
  | [] => None
  | (k', v) :: r => if keq k k' then Some v else dict_get r k
  end.

(** [k in d] *)
Definition dict_mem (d : list (K * V)) (k : K) : bool :=
  match dict_get d k with
  | Some _ => true
  | None => false
  end.

(** [d[k] = v]: the value of an existing key is replaced in place, a new key
    goes to the end. *)
Fixpoint dict_set (d : list (K * V)) (k : K) (v : V) : list (K * V) :=
  match d with
  | [] => [(k, v)]
  | (k', v') :: r => if keq k k' then (k', v) :: r else (k', v') :: dict_set r k v
  end.

(** [d.keys()] *)
Definition dict_keys (d : list (K * V)) : list K := map fst d.

End Dict.

(** *** NameToIDMap *)

Record NameToIDMap : Type := {
  next_ID : nat;
  item_dict : list (name * nat);
  ID_dict : list (nat * name)
}.

(** The state [__init__] starts from, before the initial names are loaded. *)
Definition empty_map : NameToIDMap :=
  {| next_ID := 0; item_dict := []; ID_dict := [] |}.

(** The loop [while self.next_ID in self.ID_dict: self.next_ID += 1].  The
    loop ends within as many iterations as the dictionary has keys, which is
    the [fuel] it is run with. *)
Fixpoint skip_assigned (ids : list (nat * name)) (fuel n : nat) : nat :=
  match fuel with
  | O => n
  | S fuel' =>
      if dict_mem Nat.eqb ids n then skip_assigned ids fuel' (S n) else n
  end.

(** [getID]: the ID returned, and the map after the call. *)
Definition getID (m : NameToIDMap) (item_name : name) : nat * NameToIDMap :=
  match dict_get name_eqb (item_dict m) item_name with
  | Some i => (i, m)
  | None =>
      let n := skip_assigned (ID_dict m) (List.length (ID_dict m)) (next_ID m) in
      (n, {| next_ID := S n;
             item_dict := dict_set name_eqb (item_dict m) item_name n;
             ID_dict := dict_set Nat.eqb (ID_dict m) n item_name |})
  end.


(** [defineID]; a failed [assert] raises [AssertionError]. *)
Definition defineID (m : NameToIDMap) (item_ID : nat) (item_name : name)
  : Py.result NameToIDMap :=
  if dict_mem Nat.eqb (ID_dict m) item_ID then Py.Raise Py.AssertionError
  else if dict_mem name_eqb (item_dict m) item_name then Py.Raise Py.AssertionError
  else Py.Ok {| next_ID := next_ID m;
                item_dict := dict_set name_eqb (item_dict m) item_name item_ID;
                ID_dict := dict_set Nat.eqb (ID_dict m) item_ID item_name |}.

(** [getName]: [None] when the ID does not exist. *)
Definition getName (m : NameToIDMap) (item_ID : nat) : option name :=
  dict_get Nat.eqb (ID_dict m) item_ID.

(** [getNumItems] *)
Definition getNumItems (m : NameToIDMap) : nat := List.length (item_dict m).

(** [getItems] *)
Definition getItems (m : NameToIDMap) : list name := dict_keys (item_dict m).

(** [getIDs] *)
Definition getIDs (m : NameToIDMap) : list nat := dict_keys (ID_dict m).

(** *** The wire ordering of SimpleGateList

    Of a [SimpleGateList] only the field [qubit_names] matters here, so the
    methods below take and give back that map. *)

(** [getWireNames] *)
Definition getWireNames (qubit_names : NameToIDMap) : list name :=
  getItems qubit_names.

(** [int(x)] on a number: truncation towards zero. *)
Definition py_int (x : Q) : Z :=
  if Qle_bool 0 x then Qfloor x else Qceiling x.

(** [sortOrder]: the sort key, and the map after the call (the [getID] at
    the end registers a name that is not registered yet).  A key is an [int]
    (an ID) or a [float]; both are rationals here, and the arithmetic that
    Python does on floats rounds as in [Float].  Where Python converts an
    [int] operand to a [float] nothing changes: [x_int] is the integer part
    of a double, or else [x] is an [int] itself, the difference is 0 and the
    sum is the double nearest to [x_int]. *)
Fixpoint sortOrder (qubit_names : NameToIDMap) (nm : name) : Q * NameToIDMap :=
  match nm with
  | Cut w =>
      let (x, qubit_names') := sortOrder qubit_names w in
      let x_int := inject_Z (py_int x) in
      let x_frac := Float.sub x x_int in
      (Float.add (Float.add x_int (Float.mul (1 # 2) x_frac)) (1 # 2),
       qubit_names')
  | Plain _ =>
      let (i, qubit_names') := getID qubit_names nm in
      (inject_Z (Z.of_nat i), qubit_names')
  end.

(** The list comprehension of [defaultWireNameMapping]. *)
Fixpoint name_pairs_of (qubit_names : NameToIDMap) (names : list name)
  : list (name * Q) * NameToIDMap :=
  match names with
  | [] => ([], qubit_names)
  | nm :: rest =>
      let (x, m1) := sortOrder qubit_names nm in
      let (ps, m2) := name_pairs_of m1 rest in
      ((nm, x) :: ps, m2)
  end.

(** [list.sort(key=...)] is a stable sort; it compares the keys with [<]. *)
Fixpoint insert_pair (p : name * Q) (l : list (name * Q)) : list (name * Q) :=
  match l with
  | [] => [p]
  | q :: r =>
      if Cost.Qlt_bool (snd q) (snd p) then q :: insert_pair p r else p :: q :: r
  end.

Definition sort_pairs (l : list (name * Q)) : list (name * Q) :=
  fold_right insert_pair [] l.

(** The loop [for k, pair in enumerate(name_pairs): name_map[pair[0]] = k],
    from position [k] on. *)
Fixpoint enumerate_into (name_map : list (name * nat)) (k : nat)
  (pairs : list (name * Q)) : list (name * nat) :=
  match pairs with
  | [] => name_map
  | pr :: rest =>
      enumerate_into (dict_set name_eqb name_map (fst pr) k) (S k) rest
  end.

(** [defaultWireNameMapping] *)
Definition defaultWireNameMapping (qubit_names : NameToIDMap)
  : list (name * nat) * NameToIDMap :=
  let (name_pairs, qubit_names') :=
    name_pairs_of qubit_names (getWireNames qubit_names) in
  (enumerate_into [] 0 (sort_pairs name_pairs), qubit_names').

End Circ.

(** ** Small concrete instances

    The search engine is run below on search spaces given by tables, and the
    driver on a small model of the collaborators it imports. *)

Module Toy.

Local Open Scope nat_scope.

(** *** A search space over numbered states *)

Definition table_funcs (cost : nat -> Cost.t) (ub : option (nat -> Cost.t))
  (succ : nat -> Py.result (list nat)) (goal : nat -> bool)
  : BFS.SearchFunctions nat unit :=
  {| BFS.cost_func := fun s _ => cost s;
     BFS.upperbound_cost_func :=
       match ub with
       | Some f => Some (fun s (_ : unit) => f s)
       | None => None
       end;
     BFS.next_state_func := fun s _ => succ s;
     BFS.goal_state_func := fun s _ => goal s;
     BFS.mincost_bound_func := None |}.

(** Two streams of random numbers: one increasing, one decreasing. *)
Definition stream_up (n : nat) : Q := (Z.of_nat n # 100)%Q.
Definition stream_down (n : nat) : Q := ((99 - Z.of_nat n)%Z # 100)%Q.

Definition generator (stream : nat -> Q) : BFS.Generator :=
  {| BFS.gen_stream := stream; BFS.gen_pos := 0 |}.

(** An engine over a table, initialized with the state [0]. *)
Definition table_engine (sf : BFS.SearchFunctions nat unit)
  (max_bj : option nat) (stop : bool) : BFS.BestFirstSearch nat unit :=
  BFS.initialize (BFS.init sf (generator stream_up) max_bj stop) [0] tt.

(** State [0] has the two goal states [1] and [2] as successors. *)
Definition fork_funcs : BFS.SearchFunctions nat unit :=
  table_funcs
    (fun s => match s with 0 => (0%Q, Cost.Fin 1) | _ => (1%Q, Cost.Fin 1) end)
    None
    (fun s => match s with 0 => Py.Ok [1; 2] | _ => Py.Ok [] end)
    (fun s => 1 <=? s).

(** State [0] has the goal state [1] and the states [2] and [3] as
    successors; [2] and [3] have one successor each, [4] and [5], which have
    none.  The goal state costs 1 and bounds the cost by 2, the cost of the
    states [2] to [5]. *)
Definition plateau_funcs : BFS.SearchFunctions nat unit :=
  table_funcs
    (fun s =>
       match s with
       | 0 => (0%Q, Cost.Fin 1)
       | 1 => (1%Q, Cost.Fin 1)
       | _ => (2%Q, Cost.Fin 1)
       end)
    (Some (fun _ => (2%Q, Cost.Fin 1)))
    (fun s =>
       match s with
       | 0 => Py.Ok [1; 2; 3]
       | 2 => Py.Ok [4]
       | 3 => Py.Ok [5]
       | _ => Py.Ok []
       end)
    (fun s => s =? 1).

(** State [0] has the successors [1], a dead end that costs 1, and [2], a
    goal state that costs 2. *)
Definition detour_funcs : BFS.SearchFunctions nat unit :=
  table_funcs
    (fun s =>
       match s with
       | 0 => (0%Q, Cost.Fin 1)
       | 1 => (1%Q, Cost.Fin 1)
       | _ => (2%Q, Cost.Fin 1)
       end)
    None
    (fun s => match s with 0 => Py.Ok [1; 2] | _ => Py.Ok [] end)
    (fun s => s =? 2).


(** *** Wire names *)

(** The qubits [a] and [b], the wire cut from [a] and the wire cut from
    that wire, registered in this order. *)
Definition wires : Circ.NameToIDMap :=
  snd (Circ.getID
         (snd (Circ.getID
                 (snd (Circ.getID
                         (snd (Circ.getID Circ.empty_map (Circ.Plain "a")))
                         (Circ.Plain "b")))
                 (Circ.Cut (Circ.Plain "a"))))
         (Circ.Cut (Circ.Cut (Circ.Plain "a")))).

(** The same map before the last registration, with the ID 3 then given to
    the name [z] by [defineID]. *)
Definition wires_before_define : Circ.NameToIDMap :=
  snd (Circ.getID
         (snd (Circ.getID
                 (snd (Circ.getID Circ.empty_map (Circ.Plain "a")))
                 (Circ.Plain "b")))
         (Circ.Cut (Circ.Plain "a"))).

Definition wires_defined : Circ.NameToIDMap :=
  match Circ.defineID wires_before_define 3 (Circ.Plain "z") with
  | Py.Ok m => m
  | Py.Raise _ => wires_before_define
  end.

(** *** A small model of the driver's collaborators *)

(** A state records the search level, the two gamma bounds, the largest
    width and the names of the actions taken. *)
Record tstate : Type := {
  t_level : nat;
  t_lb : Q;
  t_ub : Q;
  t_width : nat;
  t_trail : list string
}.

#[global] Instance toy_ops : CutOpt.StateOps tstate := {
  CutOpt.lower_bound_gamma := t_lb;
  CutOpt.upper_bound_gamma := t_ub;
  CutOpt.get_max_width := t_width;
  CutOpt.get_search_level := t_level;
  CutOpt.new_state := fun _ _ =>
    {| t_level := 0; t_lb := 1%Q; t_ub := 1%Q; t_width := 1; t_trail := [] |}
}.

(** Applying the gate uncut widens the subcircuit by one wire, if the device
    has room for it. *)
Definition act_none : CutOpt.Action tstate :=
  {| CutOpt.get_name := None;
     CutOpt.next_state := fun s _ w =>
       if S (t_width s) <=? w
       then [{| t_level := S (t_level s); t_lb := t_lb s; t_ub := t_ub s;
                t_width := S (t_width s);
                t_trail := t_trail s ++ ["None"%string] |}]
       else [] |}.

(** Cutting the gate adds 2 to both gamma bounds. *)
Definition act_gate_cut : CutOpt.Action tstate :=
  {| CutOpt.get_name := Some "GateCut"%string;
     CutOpt.next_state := fun s _ _ =>
       [{| t_level := S (t_level s); t_lb := (t_lb s + 2)%Q; t_ub := (t_ub s + 2)%Q;
           t_width := t_width s;
           t_trail := t_trail s ++ ["GateCut"%string] |}] |}.

Definition toy_actions : CutOpt.ActionNames tstate :=
  fun group =>
    if String.eqb group "TwoQubitGates" then Some [act_none; act_gate_cut]
    else if String.eqb group "MultiqubitGates" then Some [act_gate_cut]
    else None.

Definition cut_type_eqb (a b : option string) : bool :=
  match a, b with
  | Some x, Some y => String.eqb x y
  | None, None => true
  | _, _ => false
  end.

(** Modelled from the spec: [get_action_subset] of [search_space_generator],
    which keeps the actions of the group that the gate's constraint list
    names; no constraint list keeps the whole group, and an empty list stands
    for the list [[None]]. *)
Definition toy_get_action_subset (action_list : option (list (CutOpt.Action tstate)))
  (action_subset : CutOpt.cut_constraints) : option (list (CutOpt.Action tstate)) :=
  match action_list with
  | None => None
  | Some l =>
      match action_subset with
      | None => Some l
      | Some names =>
          let names := match names with [] => [None] | _ => names end in
          Some (filter (fun a => existsb (cut_type_eqb (CutOpt.get_name a)) names) l)
      end
  end.

(** The first state of least cost in a list. *)
Fixpoint min_cost_state (cost : tstate -> Cost.t) (l : list tstate) : option tstate :=
  match l with
  | [] => None
  | s :: r =>
      match min_cost_state cost r with
      | None => Some s
      | Some m => if Cost.ltb (cost m) (cost s) then Some m else Some s
      end
  end.

(** Modelled from the spec: [greedy_best_first_search] of [cco_utils], which
    follows the minimum-cost successor at each level until a goal state, and
    gives [None] when a state has no successor. *)
Fixpoint toy_greedy (fuel : nat) (state : tstate)
  (sf : BFS.SearchFunctions tstate (CutOpt.CutOptimizationFuncArgs tstate))
  (args : CutOpt.CutOptimizationFuncArgs tstate) : Py.result (option tstate) :=
  if BFS.goal_state_func sf state args then Py.Ok (Some state)
  else
    match fuel with
    | O => Py.Ok None
    | S fuel' =>
        match BFS.next_state_func sf state args with
        | Py.Raise ex => Py.Raise ex
        | Py.Ok l =>
            match min_cost_state (fun s => BFS.cost_func sf s args) l with
            | None => Py.Ok None
            | Some best => toy_greedy fuel' best sf args
            end
        end
    end.

(** A base-2 logarithm that is exact on the powers of two and rounds up to
    the next integer elsewhere. *)
Definition toy_log2 (x : Q) : Q := inject_Z (Z.log2_up (Qceiling x)).

#[global] Instance toy_imports : CutOpt.Imports tstate := {
  CutOpt.get_action_subset := toy_get_action_subset;
  CutOpt.greedy_best_first_search := fun s sf args =>
    toy_greedy (List.length (CutOpt.entangling_gates args)) s sf args;
  CutOpt.np_log2 := toy_log2
}.

Definition cx (index a b : nat) (constraints : CutOpt.cut_constraints)
  : CutOpt.gate_spec :=
  {| CutOpt.gs_index := index;
     CutOpt.gs_gate := {| CutOpt.ce_name := "cx"; CutOpt.ce_qubits := [a; b] |};
     CutOpt.gs_constraints := constraints |}.

Definition ccx (index a b c : nat) : CutOpt.gate_spec :=
  {| CutOpt.gs_index := index;
     CutOpt.gs_gate := {| CutOpt.ce_name := "ccx"; CutOpt.ce_qubits := [a; b; c] |};
     CutOpt.gs_constraints := None |}.

(** The chain [cx(0,1); cx(1,2)] on three qubits. *)
Definition chain : CutOpt.CircuitInterface :=
  {| CutOpt.get_num_qubits := 3;
     CutOpt.get_multiqubit_gates := [cx 0 0 1 None; cx 1 1 2 None] |}.

(** One [cx] that must not be cut. *)
Definition uncuttable : CutOpt.CircuitInterface :=
  {| CutOpt.get_num_qubits := 2;
     CutOpt.get_multiqubit_gates := [cx 0 0 1 (Some [None])] |}.

Definition settings (seed : option Z) : CutOpt.OptimizationSettings :=
  {| CutOpt.get_max_gamma := Some 1024%Q;
     CutOpt.get_max_backjumps := Some 100;
     CutOpt.get_seed := seed |}.

Definition device (w : Z) : CutOpt.DeviceConstraints :=
  {| CutOpt.qubits_per_QPU := w; CutOpt.num_QPUs := 2 |}.

(** A bit generator: every seed gives the increasing stream. *)
Definition bit_generator (_ : Z) : nat -> Q := stream_up.

End Toy.

(** ** Predicates of the statements

    The definitions below are not part of the program: they name the
    properties the theorems state. *)

Module Props.

(** The order the comparisons of Python decide, as a proposition. *)
Definition cost_le (a b : Cost.t) : Prop :=
  fst a < fst b \/ (fst a == fst b /\ Cost.width_leb (snd a) (snd b) = true).

Local Open Scope nat_scope.

Section EngineProps.

Variables State Args : Type.

Let engine : Type := BFS.BestFirstSearch State Args.

(** What a heap tuple carries for the search: state, depth and cost. *)
Definition payload (x : BFS.entry State) : State * nat * Cost.t :=
  (BFS.e_state x, Z.to_nat (- BFS.e_neg_depth x), BFS.e_cost x).

(** The test of [put]: the state's cost does not exceed the upper bound. *)
Definition within_upperbound (e : engine) (args : Args) (s : State) : bool :=
  match BFS.upperbound_cost e with
  | None => true
  | Some u => Cost.leb (BFS.cost_func (BFS.funcs e) s args) u
  end.

(** The fields [put] leaves alone. *)
Definition put_frame (e e' : engine) : Prop :=
  BFS.funcs e' = BFS.funcs e /\
  BFS.stop_at_first_min e' = BFS.stop_at_first_min e /\
  BFS.max_backjumps e' = BFS.max_backjumps e /\
  BFS.upperbound_cost e' = BFS.upperbound_cost e /\
  BFS.mincost_bound e' = BFS.mincost_bound e /\
  BFS.min_reached e' = BFS.min_reached e /\
  BFS.num_states_visited e' = BFS.num_states_visited e /\
  BFS.num_backjumps e' = BFS.num_backjumps e /\
  BFS.penultimate_stats e' = BFS.penultimate_stats e.

(** The fields an iteration changes before it tests for a goal state:
    [min_reached], the queue and the two counters of pops. *)
Definition pop_frame (e e' : engine) : Prop :=
  BFS.funcs e' = BFS.funcs e /\
  BFS.stop_at_first_min e' = BFS.stop_at_first_min e /\
  BFS.max_backjumps e' = BFS.max_backjumps e /\
  BFS.upperbound_cost e' = BFS.upperbound_cost e /\
  BFS.mincost_bound e' = BFS.mincost_bound e /\
  BFS.num_next_states e' = BFS.num_next_states e /\
  BFS.num_enqueues e' = BFS.num_enqueues e.

(** The engine an iteration has built when it tests the popped state for a
    goal state. *)
Definition counted (prev_depth : option nat) (depth : nat) (e1 : engine) : engine :=
  let e2 := BFS.set_num_states_visited e1 (S (BFS.num_states_visited e1)) in
  match prev_depth with
  | Some p =>
      if depth <=? p then BFS.set_num_backjumps e2 (S (BFS.num_backjumps e2)) else e2
  | None => e2
  end.

(** The engine an iteration ends with. *)
Definition iteration_engine (it : BFS.iteration State Args) : engine :=
  match it with
  | BFS.Continue _ e' => e'
  | BFS.Exit _ e' => e'
  end.

(** The loop variable [prev_depth] after an iteration. *)
Definition iteration_prev (prev : option nat) (it : BFS.iteration State Args)
  : option nat :=
  match it with
  | BFS.Continue d _ => Some d
  | BFS.Exit _ _ => prev
  end.

(** [c] is not below the last cost returned, if there is one. *)
Definition above (lo : option Cost.t) (c : Cost.t) : Prop :=
  match lo with
  | None => True
  | Some l => cost_le l c
  end.

(** Every tuple on the queue carries the cost of its state. *)
Definition consistent (e : engine) (args : Args) : Prop :=
  Forall (fun p => snd p = BFS.cost_func (BFS.funcs e) (fst (fst p)) args)
    (map payload (BFS.pqueue (BFS.pq e))).

(** No tuple on the queue costs less than [lo]. *)
Definition queue_above (lo : option Cost.t) (e : engine) : Prop :=
  Forall (fun p => above lo (snd p)) (map payload (BFS.pqueue (BFS.pq e))).

(** Every successor costs at least as much as its parent. *)
Definition monotone (sf : BFS.SearchFunctions State Args) (args : Args) : Prop :=
  forall s l s',
    BFS.next_state_func sf s args = Py.Ok l -> In s' l ->
    cost_le (BFS.cost_func sf s args) (BFS.cost_func sf s' args).

(** The outcome of an iteration, for the order of costs. *)
Definition iteration_ordered (lo : option Cost.t) (args : Args) (e : engine)
  (it : BFS.iteration State Args) : Prop :=
  match it with
  | BFS.Continue _ e' =>
      exists c, above lo c /\ consistent e' args /\ queue_above (Some c) e' /\
                BFS.funcs e' = BFS.funcs e
  | BFS.Exit (BFS.Returned (Some (_, c))) e' =>
      above lo c /\ consistent e' args /\ queue_above (Some c) e' /\
      BFS.funcs e' = BFS.funcs e
  | BFS.Exit _ e' =>
      consistent e' args /\ queue_above lo e' /\ BFS.funcs e' = BFS.funcs e
  end.

(** The outcome of a call, for the order of costs: a cost returned is not
    below [lo], and the tuples left on the queue are not below it. *)
Definition pass_ordered (lo : option Cost.t) (args : Args) (e : engine)
  (r : BFS.outcome State) (e' : engine) : Prop :=
  BFS.funcs e' = BFS.funcs e /\ consistent e' args /\
  match r with
  | BFS.Returned (Some (_, c)) => above lo c /\ queue_above (Some c) e'
  | _ => queue_above lo e'
  end.

(** The test of [cost_bounds_exceeded], on given bounds. *)
Definition exceeds_bounds (mb ub : option Cost.t) (c : Cost.t) : bool :=
  match mb with
  | Some m => Cost.gtb c m
  | None => false
  end
  || match ub with
     | Some u => Cost.gtb c u
     | None => false
     end.

(** The min-cost bound a call works with. *)
Definition refreshed_bound (e : engine) (args : Args) : option Cost.t :=
  match BFS.mincost_bound_func (BFS.funcs e) with
  | Some f => f args
  | None => BFS.mincost_bound e
  end.

(** The engine is spent: the loop of a call will not start, or every tuple
    on the queue exceeds a cost bound. *)
Definition spent (e : engine) (args : Args) : Prop :=
  (BFS.stop_at_first_min e = true /\ BFS.min_reached e = true) \/
  (exists m, BFS.max_backjumps e = Some m /\ m <= BFS.num_backjumps e) \/
  Forall (fun x => exceeds_bounds (refreshed_bound e args) (BFS.upperbound_cost e)
                     (BFS.e_cost x) = true)
    (BFS.pqueue (BFS.pq e)).

End EngineProps.

Arguments payload {State} x.

Section DriverProps.

Context {State : Type} {ops : CutOpt.StateOps State} {imp : CutOpt.Imports State}.

Let Driver : Type := @CutOpt.CutOptimization State.

(** The driver can still return goal states of its engine; [lo] is the last
    cost returned, if any. *)
Definition live (d : Driver) (lo : option Cost.t) : Prop :=
  consistent (CutOpt.search_engine d) (CutOpt.func_args d) /\
  queue_above lo (CutOpt.search_engine d) /\
  monotone (BFS.funcs (CutOpt.search_engine d)) (CutOpt.func_args d) /\
  (lo <> None -> CutOpt.goal_state_returned d = true).

(** The driver returns no further state. *)
Definition finished (d : Driver) : Prop :=
  spent (CutOpt.search_engine d) (CutOpt.func_args d) /\
  (CutOpt.goal_state_returned d = true \/ CutOpt.greedy_goal_state d = None).

Definition nondecreasing (cs : list Cost.t) : Prop :=
  StronglySorted (fun a b => Cost.leb a b = true) cs.

(** The successors the actions of a group give for a gate, after the group
    has been filtered by the gate's cut constraints; [None] when there is no
    list of actions to go through. *)
Definition group_successors (state : State)
  (func_args : CutOpt.CutOptimizationFuncArgs State)
  (gate_spec : CutOpt.gate_spec) (group : string) : option (list State) :=
  match CutOpt.get_action_subset (CutOpt.search_actions func_args group)
          (CutOpt.gs_constraints gate_spec) with
  | Some action_list =>
      Some (flat_map
              (fun action =>
                 CutOpt.next_state action state gate_spec
                   (CutOpt.qpu_width func_args))
              action_list)
  | None => None
  end.





End DriverProps.

(** The two dictionaries of a map are inverse to each other. *)
Definition inverse_dicts (m : Circ.NameToIDMap) : Prop :=
  forall x i,
    Circ.dict_get Circ.name_eqb (Circ.item_dict m) x = Some i <->
    Circ.dict_get Nat.eqb (Circ.ID_dict m) i = Some x.

(** The maps a program can build: from the empty one, by [getID] and by
    calls of [defineID] whose assertions hold. *)
Inductive reachable : Circ.NameToIDMap -> Prop :=
| reach_empty : reachable Circ.empty_map
| reach_getID m x : reachable m -> reachable (snd (Circ.getID m x))
| reach_defineID m i x m' :
    reachable m -> Circ.defineID m i x = Py.Ok m' -> reachable m'.




Fixpoint depth (nm : Circ.name) : nat :=
  match nm with
  | Circ.Plain _ => O
  | Circ.Cut w => S (depth w)
  end.


Local Open Scope Q_scope.











End Props.

(** ** Predicates of the statements on the queue and the search *)

Module SearchProps.

Import Props.

Local Open Scope nat_scope.

Section QueueProps.

Variable State : Type.

(** The queues a program can build: an empty one, changed by [put], [get]
    and [clear]. *)
Inductive queue_reachable : BFS.BestFirstPriorityQueue State -> Prop :=
| queue_init g : queue_reachable (BFS.pq_init State g)
| queue_put q s d c : queue_reachable q -> queue_reachable (BFS.pq_put q s d c)
| queue_get q : queue_reachable q -> queue_reachable (snd (BFS.pq_get q))
| queue_clear q : queue_reachable q -> queue_reachable (BFS.pq_clear q).

(** The search depth a heap tuple stands for. *)
Definition depth_of (x : BFS.entry State) : nat := Z.to_nat (- BFS.e_neg_depth x).

(** As far as cost and depth decide, [x] comes before [y] on the heap: it
    costs no more, and if it costs the same it is at least as deep. *)
Definition precedes (x y : BFS.entry State) : Prop :=
  cost_le (BFS.e_cost x) (BFS.e_cost y) /\
  (cost_le (BFS.e_cost y) (BFS.e_cost x) -> depth_of y <= depth_of x).

End QueueProps.

Section EngineProps.

Variables State Args : Type.

Let engine : Type := BFS.BestFirstSearch State Args.

(** [g] is [s] or can be reached from it through the lists of next states. *)
Inductive descends (sf : BFS.SearchFunctions State Args) (args : Args)
  : State -> State -> Prop :=
| descends_here s : descends sf args s s
| descends_next s l s' g :
    BFS.next_state_func sf s args = Py.Ok l -> In s' l ->
    descends sf args s' g -> descends sf args s g.

(** A goal state of the search space spanned by the initial states. *)
Definition goal_of (sf : BFS.SearchFunctions State Args) (args : Args)
  (inits : list State) (g : State) : Prop :=
  BFS.goal_state_func sf g args = true /\
  exists s0, In s0 inits /\ descends sf args s0 g.

(** The bound a goal state gives the engine: its upper-bound cost, or its
    cost when there is no upper-bound function. *)
Definition goal_bound (sf : BFS.SearchFunctions State Args) (s : State)
  (args : Args) : Cost.t :=
  match BFS.upperbound_cost_func sf with
  | Some f => f s args
  | None => BFS.cost_func sf s args
  end.

(** [a] is no looser a bound than [b]. *)
Definition bound_le (a b : option Cost.t) : Prop :=
  match b with
  | None => True
  | Some y => match a with Some x => cost_le x y | None => False end
  end.

(** The goal states among the first [k] outcomes of a run. *)
Definition returned_before (rs : list (BFS.outcome State)) (k : nat) (s : State)
  : Prop :=
  exists j c, j < k /\ nth_error rs j = Some (BFS.Returned (Some (s, c))).

(** The statistics agree with the pops [tr] made since [initialize]. *)
Definition accounted (e : engine) (tr : list BFS.pop) : Prop :=
  BFS.num_states_visited e = List.length (BFS.visited_depths tr) /\
  BFS.qsize (BFS.pq e) + List.length tr = BFS.num_enqueues e /\
  BFS.num_enqueues e <= BFS.num_next_states e /\
  BFS.num_backjumps e <= Nat.pred (BFS.num_states_visited e).

(** The engine at the goal test of an iteration that popped [(state, depth,
    cost)] and left the queue [q]. *)
Definition at_goal_test (e : engine) (q : BFS.BestFirstPriorityQueue State)
  (prev : option nat) (depth : nat) (cost : Cost.t) : engine :=
  counted prev depth (BFS.update_minimum_reached (BFS.set_pq e q) (Some cost)).

(** The engine a call returns a goal state with. *)
Definition at_goal_return (e3 : engine) (state : State) (cost : Cost.t)
  (args : Args) : engine :=
  BFS.update_minimum_reached
    (BFS.update_upperbound_goal_state
       (BFS.set_penultimate_stats e3 (Some (BFS.get_stats e3))) state args)
    (Some cost).

(** With [min_reached] set, no tuple on the queue costs less than the upper
    bound, and the queue is empty when there is no upper bound. *)
Definition settled (e : engine) : Prop :=
  BFS.min_reached e = true ->
  match BFS.upperbound_cost e with
  | Some u => queue_above (Some u) e
  | None => BFS.pqueue (BFS.pq e) = []
  end.

(** The cost [c] exceeds the bound [b]. *)
Definition beyond (b : option Cost.t) (c : Cost.t) : Prop :=
  match b with
  | Some u => ~ cost_le c u
  | None => False
  end.

(** The search has [g] ahead of it: a tuple on the queue holds a state that
    [g] descends from. *)
Definition covered (e : engine) (args : Args) (g : State) : Prop :=
  exists p, In p (map payload (BFS.pqueue (BFS.pq e))) /\
            descends (BFS.funcs e) args (fst (fst p)) g.

(** The search has [g] behind it: [g] descends from a goal state that one of
    the outcomes returned. *)
Definition behind (sf : BFS.SearchFunctions State Args) (args : Args)
  (rs : list (BFS.outcome State)) (g : State) : Prop :=
  exists j s c, nth_error rs j = Some (BFS.Returned (Some (s, c))) /\
                descends sf args s g.

End EngineProps.

End SearchProps.

(** ** best_first_search.py and cut_optimization.py: the remaining methods *)

Module BFS2.

Section Methods.

Variables State Args : Type.

(** [BestFirstSearch.get_stats(penultimate)]: the array of the four
    counters, or the statistics kept at the last goal state; these are
    [None] before [initialize]. *)
Definition get_stats (e : BFS.BestFirstSearch State Args) (penultimate : bool)
  : option BFS.stats :=
  if penultimate then BFS.penultimate_stats e else Some (BFS.get_stats e).

(** [BestFirstSearch.get_upperbound_cost] *)
Definition get_upperbound_cost (e : BFS.BestFirstSearch State Args)
  : option Cost.t :=
  BFS.upperbound_cost e.

End Methods.

End BFS2.

Module CutOpt2.

Section Methods.

Context {State : Type} {ops : CutOpt.StateOps State} {imp : CutOpt.Imports State}.

(** [CutOptimization.get_stats] *)
Definition get_stats (d : @CutOpt.CutOptimization State) (penultimate : bool)
  : option BFS.stats :=
  BFS2.get_stats (CutOpt.search_engine d) penultimate.

(** [CutOptimization.get_upperbound_cost] *)
Definition get_upperbound_cost (d : @CutOpt.CutOptimization State) : option Cost.t :=
  BFS2.get_upperbound_cost (CutOpt.search_engine d).

(** [CutOptimization.update_upperbound_cost] *)
Definition update_upperbound_cost (d : @CutOpt.CutOptimization State)
  (cost_bound : option Cost.t) : @CutOpt.CutOptimization State :=
  {| CutOpt.func_args := CutOpt.func_args d;
     CutOpt.greedy_goal_state := CutOpt.greedy_goal_state d;
     CutOpt.search_engine :=
       BFS.update_upperbound_cost (CutOpt.search_engine d) cost_bound;
     CutOpt.goal_state_returned := CutOpt.goal_state_returned d |}.

End Methods.

End CutOpt2.

(** ** Further concrete instances *)

Module Toy2.

Local Open Scope nat_scope.

(** The driver for the chain of two gates on a device two qubits wide. *)
Definition chain_driver : option (@CutOpt.CutOptimization Toy.tstate) :=
  match CutOpt.init Toy.bit_generator Toy.stream_up Toy.chain
          (Toy.settings (Some 42%Z)) (Toy.device 2) Toy.toy_actions with
  | Py.Ok d => Some d
  | Py.Raise _ => None
  end.

(** The same driver after its first call of [optimization_pass]. *)
Definition chain_driver_later : option (@CutOpt.CutOptimization Toy.tstate) :=
  match chain_driver with
  | Some d =>
      match CutOpt.optimization_pass 20 d with
      | Some (_, d') => Some d'
      | None => None
      end
  | None => None
  end.

(** The goal states of the chain that cut one gate: the trail names the
    actions taken. *)
Definition chain_goal (trail : list string) : Toy.tstate :=
  {| Toy.t_level := 2; Toy.t_lb := 3%Q; Toy.t_ub := 3%Q; Toy.t_width := 2;
     Toy.t_trail := trail |}.

(** The fork engine that stops at the first minimum, after its first call of
    [optimization_pass]. *)
Definition fork_settled : BFS.BestFirstSearch nat unit :=
  match BFS.optimization_pass 10 (Toy.table_engine Toy.fork_funcs None true) tt with
  | Some (_, e1, _) => e1
  | None => Toy.table_engine Toy.fork_funcs None true
  end.



End Toy2.

(* ================================================================== *)
(** * Theorems *)
(* ================================================================== *)

Import Props.

Ltac bj_simpl :=
  cbn [fst snd iteration_engine BFS.visited_depths filter map BFS.count_backjumps].

(** ** The order on cost tuples *)

Section CostOrder.

Lemma width_eqb_eq (a b : Cost.width) : Cost.width_eqb a b = true <-> a = b.
Proof.
  destruct a as [x|], b as [y|]; simpl; split; intro H;
    try discriminate; try reflexivity.
  - apply Nat.eqb_eq in H. now subst.
  - inversion H. apply Nat.eqb_refl.
Qed.

Lemma width_leb_refl (a : Cost.width) : Cost.width_leb a a = true.
Proof. destruct a; simpl; auto using Nat.leb_refl. Qed.

Lemma width_leb_trans (a b c : Cost.width) :
  Cost.width_leb a b = true -> Cost.width_leb b c = true ->
  Cost.width_leb a c = true.
Proof.
  destruct a, b, c; simpl; intros H1 H2; try discriminate; auto.
  apply Nat.leb_le in H1, H2. apply Nat.leb_le. lia.
Qed.

Lemma width_leb_antisym (a b : Cost.width) :
  Cost.width_leb a b = true -> Cost.width_leb b a = true -> a = b.
Proof.
  destruct a, b; simpl; intros H1 H2; try discriminate; auto.
  apply Nat.leb_le in H1, H2. f_equal. lia.
Qed.

Lemma width_ltb_leb (a b : Cost.width) :
  Cost.width_ltb a b = negb (Cost.width_leb b a).
Proof.
  destruct a as [x|], b as [y|]; simpl; auto.
  unfold Nat.ltb. destruct (Nat.leb_spec (S x) y), (Nat.leb_spec y x);
    simpl; auto; lia.
Qed.

Lemma leb_iff (a b : Cost.t) : Cost.leb a b = true <-> cost_le a b.
Proof.
  unfold Cost.leb, cost_le. destruct a as [g1 w1], b as [g2 w2]; simpl.
  destruct (Qeq_bool g1 g2) eqn:E; simpl.
  - apply Qeq_bool_iff in E.
    destruct (Cost.width_eqb w1 w2) eqn:W; simpl.
    + apply width_eqb_eq in W. subst. split; auto.
      intros _. right. split; auto using width_leb_refl.
    + split.
      * intro H. right. auto.
      * intros [H | [_ H]]; auto. rewrite E in H. exfalso. lra.
  - assert (N : ~ g1 == g2).
    { intro H. apply Qeq_bool_iff in H. congruence. }
    rewrite Qle_bool_iff. split.
    + intro H. left. apply Qle_lteq in H. tauto.
    + intros [H | [H _]]; [apply Qlt_le_weak; auto | contradiction].
Qed.

Lemma cost_le_refl (a : Cost.t) : cost_le a a.
Proof. right. split; [reflexivity | apply width_leb_refl]. Qed.

Lemma cost_le_trans (a b c : Cost.t) : cost_le a b -> cost_le b c -> cost_le a c.
Proof.
  unfold cost_le. intros [H1 | [H1 W1]] [H2 | [H2 W2]].
  - left. lra.
  - left. lra.
  - left. lra.
  - right. split; [lra | eauto using width_leb_trans].
Qed.

Lemma cost_le_total (a b : Cost.t) : cost_le a b \/ cost_le b a.
Proof.
  unfold cost_le.
  destruct (Q_dec (fst a) (fst b)) as [[H | H] | H]; auto.
  destruct (Cost.width_leb (snd a) (snd b)) eqn:W.
  - left. right. auto.
  - right. right. split; [symmetry; auto |].
    destruct (snd a), (snd b); simpl in *; try discriminate; auto.
    apply Nat.leb_gt in W. apply Nat.leb_le. lia.
Qed.

Lemma gtb_iff (a b : Cost.t) : Cost.gtb a b = true <-> ~ cost_le a b.
Proof.
  unfold Cost.gtb, cost_le, Cost.Qlt_bool.
  destruct a as [g1 w1], b as [g2 w2]; simpl.
  destruct (Qeq_bool g1 g2) eqn:E; simpl.
  - apply Qeq_bool_iff in E.
    destruct (Cost.width_eqb w1 w2) eqn:W; simpl.
    + apply width_eqb_eq in W. subst. split; [discriminate |].
      intro H. exfalso. apply H. right. split; auto using width_leb_refl.
    + rewrite width_ltb_leb. split.
      * intros H [H1 | [_ H1]]; [lra |]. rewrite H1 in H. discriminate.
      * intro H. destruct (Cost.width_leb w1 w2); simpl; auto.
  - assert (N : ~ g1 == g2).
    { intro H. apply Qeq_bool_iff in H. congruence. }
    split.
    + intros H [H1 | [H1 _]]; [| contradiction].
      apply negb_true_iff in H.
      assert (L : Qle_bool g1 g2 = true) by (apply Qle_bool_iff; lra).
      congruence.
    + intro H. apply negb_true_iff.
      destruct (Qle_bool g1 g2) eqn:L; auto.
      apply Qle_bool_iff in L. exfalso. apply H. left.
      apply Qle_lteq in L. tauto.
Qed.

Lemma gtb_negb_leb (a b : Cost.t) : Cost.gtb a b = negb (Cost.leb a b).
Proof.
  destruct (Cost.leb a b) eqn:L; simpl.
  - apply leb_iff in L. destruct (Cost.gtb a b) eqn:G; auto.
    apply gtb_iff in G. contradiction.
  - apply gtb_iff. intro H. apply leb_iff in H. congruence.
Qed.

Lemma ltb_gtb (a b : Cost.t) : Cost.ltb a b = Cost.gtb b a.
Proof.
  unfold Cost.ltb, Cost.gtb. destruct a as [g1 w1], b as [g2 w2]; simpl.
  assert (E : Qeq_bool g1 g2 = Qeq_bool g2 g1).
  { destruct (Qeq_bool g1 g2) eqn:A, (Qeq_bool g2 g1) eqn:B; auto.
    - apply Qeq_bool_iff in A. symmetry in A. apply Qeq_bool_iff in A. congruence.
    - apply Qeq_bool_iff in B. symmetry in B. apply Qeq_bool_iff in B. congruence. }
  assert (W : Cost.width_eqb w1 w2 = Cost.width_eqb w2 w1).
  { destruct w1, w2; simpl; auto using Nat.eqb_sym. }
  rewrite E, W. reflexivity.
Qed.

Lemma eqb_cost_le (a b : Cost.t) : Cost.eqb a b = true -> cost_le a b /\ cost_le b a.
Proof.
  unfold Cost.eqb. intro H. apply andb_true_iff in H. destruct H as [H1 H2].
  apply Qeq_bool_iff in H1. apply width_eqb_eq in H2.
  unfold cost_le. rewrite H2. split; right; split;
    auto using width_leb_refl. symmetry. auto.
Qed.

End CostOrder.

Local Open Scope nat_scope.

(** ** The priority queue *)

Section QueueFacts.

Variable State : Type.

Lemma entry_ltb_true (m x : BFS.entry State) :
  BFS.entry_ltb m x = true -> cost_le (BFS.e_cost m) (BFS.e_cost x).
Proof.
  unfold BFS.entry_ltb. destruct (Cost.eqb (BFS.e_cost m) (BFS.e_cost x)) eqn:E; simpl.
  - intros _. apply eqb_cost_le in E. tauto.
  - rewrite ltb_gtb, gtb_negb_leb. intro H. apply negb_true_iff in H.
    destruct (cost_le_total (BFS.e_cost m) (BFS.e_cost x)) as [L | L]; auto.
    apply leb_iff in L. congruence.
Qed.

Lemma entry_ltb_false (m x : BFS.entry State) :
  BFS.entry_ltb m x = false -> cost_le (BFS.e_cost x) (BFS.e_cost m).
Proof.
  unfold BFS.entry_ltb. destruct (Cost.eqb (BFS.e_cost m) (BFS.e_cost x)) eqn:E; simpl.
  - intros _. apply eqb_cost_le in E. tauto.
  - rewrite ltb_gtb, gtb_negb_leb. intro H. apply negb_false_iff in H.
    apply leb_iff. auto.
Qed.

Lemma heappop_nil (h : list (BFS.entry State)) : BFS.heappop h = None -> h = [].
Proof.
  destruct h as [| x r]; simpl; auto.
  destruct (BFS.heappop r) as [[m r'] |]; [destruct (BFS.entry_ltb m x) |];
    discriminate.
Qed.

(** The tuple popped is one of the heap, and the heap keeps the others. *)
Lemma heappop_perm (h : list (BFS.entry State)) m rest :
  BFS.heappop h = Some (m, rest) -> Permutation h (m :: rest).
Proof.
  revert m rest. induction h as [| x r IH]; simpl; intros m rest H; [discriminate |].
  destruct (BFS.heappop r) as [[m' r'] |] eqn:E.
  - destruct (BFS.entry_ltb m' x); inversion H; subst; clear H.
    + rewrite perm_swap. constructor. apply IH. reflexivity.
    + reflexivity.
  - inversion H; subst. apply heappop_nil in E. subst. reflexivity.
Qed.

(** No tuple left on the heap costs less than the tuple popped. *)
Lemma heappop_min (h : list (BFS.entry State)) m rest :
  BFS.heappop h = Some (m, rest) ->
  Forall (fun y => cost_le (BFS.e_cost m) (BFS.e_cost y)) rest.
Proof.
  revert m rest. induction h as [| x r IH]; simpl; intros m rest H; [discriminate |].
  destruct (BFS.heappop r) as [[m' r'] |] eqn:E.
  - specialize (IH _ _ eq_refl).
    destruct (BFS.entry_ltb m' x) eqn:L; inversion H; subst; clear H.
    + constructor; auto. apply entry_ltb_true; auto.
    + apply entry_ltb_false in L.
      apply heappop_perm in E. symmetry in E.
      eapply Permutation_Forall; [exact E |].
      constructor; auto.
      eapply Forall_impl; [| exact IH]. simpl. intros y Hy.
      eapply cost_le_trans; eauto.
  - inversion H; subst. constructor.
Qed.

End QueueFacts.

(** ** The search engine *)

Section EngineFacts.

Variables State Args : Type.

Let engine : Type := BFS.BestFirstSearch State Args.

Lemma put_frame_refl (e : engine) : put_frame e e.
Proof. unfold put_frame. tauto. Qed.

Lemma put_frame_trans (a b c : engine) : put_frame a b -> put_frame b c -> put_frame a c.
Proof. unfold put_frame. intuition congruence. Qed.

Lemma put_one_frame args depth (e : engine) s : put_frame e (BFS.put_one args depth e s).
Proof.
  unfold BFS.put_one.
  destruct (match BFS.upperbound_cost e with
            | Some u => Cost.leb (BFS.cost_func (BFS.funcs e) s args) u
            | None => true
            end); unfold put_frame; simpl; tauto.
Qed.

Lemma put_one_queue args depth (e : engine) s :
  map payload (BFS.pqueue (BFS.pq (BFS.put_one args depth e s))) =
    map payload (BFS.pqueue (BFS.pq e)) ++
    (if within_upperbound e args s
     then [(s, depth, BFS.cost_func (BFS.funcs e) s args)] else []) /\
  BFS.num_enqueues (BFS.put_one args depth e s) =
    BFS.num_enqueues e + (if within_upperbound e args s then 1 else 0) /\
  BFS.num_next_states (BFS.put_one args depth e s) = BFS.num_next_states e.
Proof.
  unfold BFS.put_one, within_upperbound.
  destruct (match BFS.upperbound_cost e with
            | Some u => Cost.leb (BFS.cost_func (BFS.funcs e) s args) u
            | None => true
            end); simpl.
  - unfold BFS.heappush. rewrite map_app. simpl. unfold payload at 2. simpl.
    rewrite Z.opp_involutive, Nat2Z.id. repeat split; auto. lia.
  - rewrite app_nil_r. repeat split; auto.
Qed.

Lemma fold_put_one args depth (l : list State) : forall e : engine,
  let e' := fold_left (BFS.put_one args depth) l e in
  put_frame e e' /\
  map payload (BFS.pqueue (BFS.pq e')) =
    map payload (BFS.pqueue (BFS.pq e)) ++
    map (fun s => (s, depth, BFS.cost_func (BFS.funcs e) s args))
      (filter (within_upperbound e args) l) /\
  BFS.num_enqueues e' =
    BFS.num_enqueues e + List.length (filter (within_upperbound e args) l) /\
  BFS.num_next_states e' = BFS.num_next_states e.
Proof.
  induction l as [| s l IH]; intro e; simpl.
  - rewrite app_nil_r. repeat split; auto using put_frame_refl.
  - destruct (IH (BFS.put_one args depth e s)) as (F & Q & N & M).
    pose proof (put_one_frame args depth e s) as F1.
    destruct (put_one_queue args depth e s) as (Q1 & N1 & M1).
    assert (W : forall x, within_upperbound (BFS.put_one args depth e s) args x =
                          within_upperbound e args x).
    { intro x. unfold within_upperbound.
      destruct F1 as (Ff & _ & _ & Fu & _). rewrite Ff, Fu. reflexivity. }
    assert (Fl : filter (within_upperbound (BFS.put_one args depth e s) args) l =
                 filter (within_upperbound e args) l).
    { apply filter_ext. auto. }
    rewrite Fl in Q, N.
    assert (Ff : BFS.funcs (BFS.put_one args depth e s) = BFS.funcs e) by apply F1.
    rewrite Ff in Q.
    split; [eapply put_frame_trans; eauto |].
    rewrite Q, Q1, N, N1, M, M1.
    destruct (within_upperbound e args s); simpl;
      rewrite <- ?app_assoc; simpl; repeat split; auto; try lia.
Qed.

(** The effect of [put]: every state of the list is counted as generated;
    the states whose cost does not exceed the upper bound are pushed, in
    order and at the given depth, and counted as enqueued; no other state is
    pushed. *)
Lemma put_spec (e : engine) (l : list State) depth args :
  let e' := BFS.put e l depth args in
  put_frame e e' /\
  map payload (BFS.pqueue (BFS.pq e')) =
    map payload (BFS.pqueue (BFS.pq e)) ++
    map (fun s => (s, depth, BFS.cost_func (BFS.funcs e) s args))
      (filter (within_upperbound e args) l) /\
  BFS.num_enqueues e' =
    BFS.num_enqueues e + List.length (filter (within_upperbound e args) l) /\
  BFS.num_next_states e' = BFS.num_next_states e + List.length l.
Proof.
  unfold BFS.put.
  set (e1 := BFS.set_num_next_states e (BFS.num_next_states e + List.length l)).
  destruct (fold_put_one args depth l e1) as (F & Q & N & M).
  assert (W : filter (within_upperbound e1 args) l = filter (within_upperbound e args) l).
  { apply filter_ext. reflexivity. }
  rewrite W in Q, N.
  repeat split; try apply F; auto.
Qed.

End EngineFacts.

Section PassFacts.

Variables State Args : Type.

Let engine : Type := BFS.BestFirstSearch State Args.

Lemma pop_frame_refl (e : engine) : pop_frame e e.
Proof. unfold pop_frame. repeat split; reflexivity. Qed.

Lemma pop_frame_trans (a b c : engine) : pop_frame a b -> pop_frame b c -> pop_frame a c.
Proof. unfold pop_frame. intuition congruence. Qed.

Lemma set_pq_frame (e : engine) q : pop_frame e (BFS.set_pq e q).
Proof. unfold pop_frame. simpl. repeat split; reflexivity. Qed.

Lemma update_minimum_reached_frame (e : engine) c :
  pop_frame e (BFS.update_minimum_reached e c) /\
  BFS.pq (BFS.update_minimum_reached e c) = BFS.pq e /\
  BFS.num_backjumps (BFS.update_minimum_reached e c) = BFS.num_backjumps e /\
  BFS.num_states_visited (BFS.update_minimum_reached e c) = BFS.num_states_visited e.
Proof.
  unfold BFS.update_minimum_reached, pop_frame.
  destruct c as [c |]; [destruct (BFS.upperbound_cost e) as [u |] eqn:E;
                        [destruct (Cost.leb u c) |] |]; simpl;
    rewrite ?E; repeat split; reflexivity.
Qed.

Lemma counted_frame prev depth (e1 : engine) :
  pop_frame e1 (counted prev depth e1) /\
  BFS.pq (counted prev depth e1) = BFS.pq e1 /\
  BFS.min_reached (counted prev depth e1) = BFS.min_reached e1 /\
  BFS.num_backjumps (counted prev depth e1) =
    BFS.num_backjumps e1 + BFS.count_backjumps prev [depth].
Proof.
  unfold counted, pop_frame.
  destruct prev as [p |]; simpl; [destruct (depth <=? p) |]; simpl;
    repeat split; auto; lia.
Qed.

(** [loop_body], with the engine at the goal test named. *)
Lemma loop_body_unfold args prev (e : engine) :
  BFS.loop_body args prev e =
  match BFS.pq_get (BFS.pq e) with
  | (None, q) =>
      (BFS.Exit (BFS.Returned None)
         (BFS.update_minimum_reached (BFS.set_pq e q) None), [])
  | (Some (state, depth, cost), q) =>
      let e1 := BFS.update_minimum_reached (BFS.set_pq e q) (Some cost) in
      if BFS.cost_bounds_exceeded e1 (Some cost)
      then (BFS.Exit (BFS.Returned None) e1, [(depth, false)])
      else
        let e3 := counted prev depth e1 in
        if BFS.goal_state_func (BFS.funcs e3) state args then
          (BFS.Exit (BFS.Returned (Some (state, cost)))
             (BFS.update_minimum_reached
                (BFS.update_upperbound_goal_state
                   (BFS.set_penultimate_stats e3 (Some (BFS.get_stats e3)))
                   state args)
                (Some cost)),
           [(depth, true)])
        else
          match BFS.next_state_func (BFS.funcs e3) state args with
          | Py.Raise ex => (BFS.Exit (BFS.Raised ex) e3, [(depth, true)])
          | Py.Ok next_state_list =>
              (BFS.Continue depth (BFS.put e3 next_state_list (depth + 1) args),
               [(depth, true)])
          end
  end.
Proof. reflexivity. Qed.

Lemma popped_frame (e : engine) q c prev depth :
  pop_frame e
    (counted prev depth (BFS.update_minimum_reached (BFS.set_pq e q) (Some c))) /\
  BFS.pq (counted prev depth (BFS.update_minimum_reached (BFS.set_pq e q) (Some c)))
    = q.
Proof.
  set (e3 := counted prev depth (BFS.update_minimum_reached (BFS.set_pq e q) (Some c))).
  destruct (update_minimum_reached_frame (BFS.set_pq e q) (Some c)) as (F1 & Q1 & _).
  destruct (counted_frame prev depth
              (BFS.update_minimum_reached (BFS.set_pq e q) (Some c))) as (F2 & Q2 & _).
  fold e3 in F2, Q2. split.
  - eapply pop_frame_trans; [apply set_pq_frame |].
    eapply pop_frame_trans; eauto.
  - rewrite Q2, Q1. reflexivity.
Qed.

(** C3.  When the popped state passes the cost-bound test and is not a goal
    state, the iteration goes on with an engine on whose queue the
    successors whose cost does not exceed the upper bound have been pushed
    at depth + 1, in order, after the tuples that were left; the others are
    not pushed.  A successor whose cost equals the bound is kept, and all are
    kept when there is no bound.  [num_next_states] grows by the number of
    successors generated, [num_enqueues] by the number of those pushed. *)
Theorem non_goal_pop_enqueues_within_upperbound
  (args : Args) (prev_depth : option nat) (e : engine)
  (state : State) (depth : nat) (cost : Cost.t)
  (q : BFS.BestFirstPriorityQueue State) (next_state_list : list State) :
  BFS.pq_get (BFS.pq e) = (Some (state, depth, cost), q) ->
  BFS.cost_bounds_exceeded
    (BFS.update_minimum_reached (BFS.set_pq e q) (Some cost)) (Some cost) = false ->
  BFS.goal_state_func (BFS.funcs e) state args = false ->
  BFS.next_state_func (BFS.funcs e) state args = Py.Ok next_state_list ->
  exists e' : engine,
    fst (BFS.loop_body args prev_depth e) = BFS.Continue depth e' /\
    map (@payload State) (BFS.pqueue (BFS.pq e')) =
      map (@payload State) (BFS.pqueue q) ++
      map (fun s => (s, depth + 1, BFS.cost_func (BFS.funcs e) s args))
        (filter (within_upperbound e args) next_state_list) /\
    BFS.num_next_states e' = BFS.num_next_states e + List.length next_state_list /\
    BFS.num_enqueues e' =
      BFS.num_enqueues e +
      List.length (filter (within_upperbound e args) next_state_list) /\
    (forall s, BFS.upperbound_cost e = None -> within_upperbound e args s = true) /\
    (forall s, BFS.upperbound_cost e = Some (BFS.cost_func (BFS.funcs e) s args) ->
               within_upperbound e args s = true) /\
    (forall s u, BFS.upperbound_cost e = Some u ->
                 Cost.gtb (BFS.cost_func (BFS.funcs e) s args) u = true ->
                 within_upperbound e args s = false).
Proof.
  intros Hget Hb Hg Hn.
  rewrite loop_body_unfold, Hget. cbv zeta. rewrite Hb.
  destruct (popped_frame e q cost prev_depth depth) as (F & Q).
  set (e3 := counted prev_depth depth
               (BFS.update_minimum_reached (BFS.set_pq e q) (Some cost))) in *.
  destruct F as (Ff & _ & _ & Fu & _ & Fn & Fe).
  rewrite Ff, Hg, Hn. simpl fst.
  exists (BFS.put e3 next_state_list (depth + 1) args).
  destruct (put_spec e3 next_state_list (depth + 1) args) as (_ & PQ & PE & PN).
  assert (W : filter (within_upperbound e3 args) next_state_list =
              filter (within_upperbound e args) next_state_list).
  { apply filter_ext. intro s. unfold within_upperbound. rewrite Ff, Fu. reflexivity. }
  rewrite W, Ff, Q in PQ. rewrite W in PE.
  split; [reflexivity |].
  split; [exact PQ |].
  split; [lia |].
  split; [lia |].
  unfold within_upperbound. repeat split.
  - intros s H. rewrite H. reflexivity.
  - intros s H. rewrite H. apply leb_iff. apply cost_le_refl.
  - intros s u H G. rewrite H. rewrite gtb_negb_leb in G.
    apply negb_true_iff in G. exact G.
Qed.

End PassFacts.

(** ** Backjump accounting *)

Section Backjumps.

Variables State Args : Type.

Let engine : Type := BFS.BestFirstSearch State Args.

Lemma update_upperbound_goal_state_backjumps (e : engine) s args :
  BFS.num_backjumps (BFS.update_upperbound_goal_state e s args) = BFS.num_backjumps e.
Proof.
  unfold BFS.update_upperbound_goal_state.
  destruct (BFS.upperbound_cost e) as [u |]; [| reflexivity].
  match goal with |- context [Cost.ltb ?a ?b] => destruct (Cost.ltb a b) end;
    reflexivity.
Qed.

(** One iteration adds to [num_backjumps] the backjump of its pop, if the
    pop is counted as visited. *)
Lemma loop_body_backjumps args prev (e : engine) :
  let it := fst (BFS.loop_body args prev e) in
  let p := snd (BFS.loop_body args prev e) in
  BFS.num_backjumps (iteration_engine it) =
    BFS.num_backjumps e + BFS.count_backjumps prev (BFS.visited_depths p) /\
  (forall d e', it = BFS.Continue d e' -> p = [(d, true)]).
Proof.
  rewrite loop_body_unfold.
  destruct (BFS.pq_get (BFS.pq e)) as [[[[state depth] cost] |] q] eqn:G.
  - cbv zeta.
    destruct (update_minimum_reached_frame (BFS.set_pq e q) (Some cost))
      as (_ & _ & B1 & _).
    change (BFS.num_backjumps (BFS.set_pq e q)) with (BFS.num_backjumps e) in B1.
    destruct (counted_frame prev depth
                (BFS.update_minimum_reached (BFS.set_pq e q) (Some cost)))
      as (_ & _ & _ & B2).
    rewrite B1 in B2.
    destruct (BFS.cost_bounds_exceeded _ _).
    + bj_simpl. split; [rewrite B1; lia | discriminate].
    + destruct (BFS.goal_state_func _ _ _).
      * bj_simpl. split; [| discriminate].
        destruct (update_minimum_reached_frame
                    (BFS.update_upperbound_goal_state
                       (BFS.set_penultimate_stats
                          (counted prev depth
                             (BFS.update_minimum_reached (BFS.set_pq e q) (Some cost)))
                          (Some (BFS.get_stats
                             (counted prev depth
                                (BFS.update_minimum_reached (BFS.set_pq e q)
                                   (Some cost))))))
                       state args) (Some cost)) as (_ & _ & B3 & _).
        rewrite B3, update_upperbound_goal_state_backjumps. bj_simpl.
        exact B2.
      * destruct (BFS.next_state_func _ _ _) as [l | ex].
        -- bj_simpl. split.
           ++ destruct (put_spec
                          (counted prev depth
                             (BFS.update_minimum_reached (BFS.set_pq e q) (Some cost)))
                          l (depth + 1) args) as (F & _).
              destruct F as (_ & _ & _ & _ & _ & _ & _ & Fb & _).
              rewrite Fb. exact B2.
           ++ intros d e' H. inversion H. reflexivity.
        -- bj_simpl. split; [exact B2 | discriminate].
  - bj_simpl. split; [| discriminate].
    destruct (update_minimum_reached_frame (BFS.set_pq e q) None) as (_ & _ & B1 & _).
    change (BFS.num_backjumps (BFS.set_pq e q)) with (BFS.num_backjumps e) in B1.
    rewrite B1. lia.
Qed.

Lemma loop_exit_backjumps (e : engine) :
  BFS.num_backjumps (BFS.loop_exit e) = BFS.num_backjumps e.
Proof. unfold BFS.loop_exit. destruct (BFS.qsize (BFS.pq e) =? 0); reflexivity. Qed.

Lemma refresh_mincost_bound_backjumps (e : engine) args :
  BFS.num_backjumps (BFS.refresh_mincost_bound e args) = BFS.num_backjumps e.
Proof.
  unfold BFS.refresh_mincost_bound.
  destruct (BFS.mincost_bound_func (BFS.funcs e)); reflexivity.
Qed.

Lemma pass_loop_backjumps fuel args : forall prev (e : engine) r e' tr,
  BFS.pass_loop fuel args prev e = Some (r, e', tr) ->
  BFS.num_backjumps e' =
    BFS.num_backjumps e + BFS.count_backjumps prev (BFS.visited_depths tr).
Proof.
  induction fuel as [| fuel IH]; intros prev e r e' tr H; simpl in H.
  - destruct (BFS.loop_guard e); [discriminate |].
    inversion H; subst. rewrite loop_exit_backjumps. simpl. lia.
  - destruct (BFS.loop_guard e).
    + destruct (loop_body_backjumps args prev e) as (B & C).
      destruct (BFS.loop_body args prev e) as [[d e1 | r1 e1] p]; simpl in B, C.
      * destruct (BFS.pass_loop fuel args (Some d) e1) as [[[r2 e2] tr2] |] eqn:E;
          [| discriminate].
        inversion H; subst. apply IH in E.
        rewrite (C d e1 eq_refl) in *.
        unfold BFS.visited_depths in *. simpl in *.
        destruct prev as [p0 |]; [destruct (d <=? p0) |]; lia.
      * inversion H; subst. exact B.
    + inversion H; subst. rewrite loop_exit_backjumps. simpl. lia.
Qed.

(** C4, as the code has it.  A call of [optimization_pass] adds to
    [num_backjumps] the number of its visited pops (those that pass the
    cost-bound test) whose depth is less than or equal to the depth of the
    pop before them in the same call; the first pop of a call is never
    counted. *)
Theorem backjumps_counted_within_a_pass (fuel : nat) (e : engine) (args : Args)
  (r : BFS.outcome State) (e' : engine) (tr : list BFS.pop) :
  BFS.optimization_pass fuel e args = Some (r, e', tr) ->
  BFS.num_backjumps e' =
    BFS.num_backjumps e + BFS.count_backjumps None (BFS.visited_depths tr).
Proof.
  unfold BFS.optimization_pass. intro H.
  apply pass_loop_backjumps in H.
  rewrite refresh_mincost_bound_backjumps in H. exact H.
Qed.

End Backjumps.

(** C4, as stated, fails: over two calls the pops have the depths 0, 1, 1,
    and the third pop is as deep as the second; yet no backjump is counted,
    because the third pop is the first of its call. *)
Lemma lifetime_backjumps_counterexample :
  exists rs e tr,
    BFS.run_passes 10 2 (Toy.table_engine Toy.fork_funcs None false) tt
      = Some (rs, e, tr) /\
    map fst tr = [0; 1; 1] /\
    BFS.count_backjumps None (map fst tr) = 1 /\
    BFS.num_backjumps e = 0.
Proof.
  destruct (BFS.run_passes 10 2 (Toy.table_engine Toy.fork_funcs None false) tt)
    as [[[rs e] tr] |] eqn:E; [| vm_compute in E; discriminate].
  exists rs, e, tr. split; [reflexivity |].
  vm_compute in E. inversion E; subst. repeat split; reflexivity.
Qed.

(** ** Leaving the loop on the backjump budget *)

Section Budget.

Variables State Args : Type.

Let engine : Type := BFS.BestFirstSearch State Args.



End Budget.


(** ** The order of the costs returned *)

Section CostOrdering.

Variables State Args : Type.

Let engine : Type := BFS.BestFirstSearch State Args.

Lemma above_trans lo c x : above lo c -> cost_le c x -> above lo x.
Proof.
  destruct lo as [l |]; simpl; auto. intros. eapply cost_le_trans; eauto.
Qed.

Lemma queue_above_weaken lo c (e : engine) :
  above lo c -> queue_above (Some c) e -> queue_above lo e.
Proof.
  unfold queue_above. intros A Q. eapply Forall_impl; [| exact Q].
  simpl. intros p H. eapply above_trans; eauto.
Qed.

(** What [get] pops: a tuple of the queue, the least in cost; the others stay. *)
Lemma pq_get_some (q : BFS.BestFirstPriorityQueue State) s d c q' :
  BFS.pq_get q = (Some (s, d, c), q') ->
  Permutation (map (@payload State) (BFS.pqueue q))
    ((s, d, c) :: map (@payload State) (BFS.pqueue q')) /\
  Forall (fun p => cost_le c (snd p)) (map (@payload State) (BFS.pqueue q')).
Proof.
  unfold BFS.pq_get.
  destruct (BFS.heappop (BFS.pqueue q)) as [[best rest] |] eqn:E; [| discriminate].
  intro H. inversion H; subst; clear H. simpl. split.
  - apply heappop_perm in E. apply (Permutation_map (@payload State)) in E.
    exact E.
  - apply heappop_min in E. apply Forall_map.
    eapply Forall_impl; [| exact E]. auto.
Qed.

Lemma pq_get_none (q : BFS.BestFirstPriorityQueue State) q' :
  BFS.pq_get q = (None, q') -> BFS.pqueue q' = [].
Proof.
  unfold BFS.pq_get.
  destruct (BFS.heappop (BFS.pqueue q)) as [[best rest] |] eqn:E; [discriminate |].
  intro H. inversion H; subst. apply heappop_nil. exact E.
Qed.

Lemma put_invariant lo (e : engine) l depth args :
  consistent e args -> queue_above lo e ->
  (forall s, In s l -> above lo (BFS.cost_func (BFS.funcs e) s args)) ->
  consistent (BFS.put e l depth args) args /\
  queue_above lo (BFS.put e l depth args) /\
  BFS.funcs (BFS.put e l depth args) = BFS.funcs e.
Proof.
  intros C Q A.
  destruct (put_spec e l depth args) as (F & PQ & _).
  destruct F as (Ff & _).
  unfold consistent, queue_above. rewrite PQ, Ff.
  repeat split; auto; apply Forall_app; split; auto;
    apply Forall_map; apply Forall_forall; intros s Hs; simpl; auto.
  apply A. apply filter_In in Hs. tauto.
Qed.

Lemma update_upperbound_goal_state_queue (e : engine) s args :
  BFS.pq (BFS.update_upperbound_goal_state e s args) = BFS.pq e /\
  BFS.funcs (BFS.update_upperbound_goal_state e s args) = BFS.funcs e.
Proof.
  unfold BFS.update_upperbound_goal_state.
  destruct (BFS.upperbound_cost e) as [u |]; [| split; reflexivity].
  match goal with |- context [Cost.ltb ?a ?b] => destruct (Cost.ltb a b) end;
    split; reflexivity.
Qed.

Lemma loop_body_ordered lo args prev (e : engine) :
  consistent e args -> queue_above lo e -> monotone (BFS.funcs e) args ->
  iteration_ordered lo args e (fst (BFS.loop_body args prev e)).
Proof.
  intros C Q M. rewrite loop_body_unfold.
  destruct (BFS.pq_get (BFS.pq e)) as [[[[state depth] cost] |] q] eqn:G.
  - destruct (pq_get_some _ G) as (P & Min).
    cbv zeta.
    pose proof (popped_frame e q cost prev depth) as F.
    pose proof (update_minimum_reached_frame (BFS.set_pq e q) (Some cost)) as F1.
    set (e1 := BFS.update_minimum_reached (BFS.set_pq e q) (Some cost)) in *.
    set (e3 := counted prev depth e1) in *.
    destruct F as (F & Q3). destruct F1 as (F1 & Q1 & _).
    assert (Ff : BFS.funcs e3 = BFS.funcs e) by apply F.
    assert (Ff1 : BFS.funcs e1 = BFS.funcs e) by apply F1.
    assert (Cp : snd (state, depth, cost) =
                 BFS.cost_func (BFS.funcs e) (fst (fst (state, depth, cost))) args
                 /\ Forall (fun p => snd p = BFS.cost_func (BFS.funcs e) (fst (fst p)) args)
                      (map (@payload State) (BFS.pqueue q))).
    { unfold consistent in C. eapply Permutation_Forall in C; [| exact P].
      apply Forall_cons_iff in C. exact C. }
    destruct Cp as (Cc & Cq). simpl in Cc.
    assert (Alo : above lo cost).
    { unfold queue_above in Q. eapply Permutation_Forall in Q; [| exact P].
      apply Forall_cons_iff in Q. apply Q. }
    assert (Qlo : Forall (fun p => above lo (snd p)) (map (@payload State) (BFS.pqueue q))).
    { eapply Forall_impl; [| exact Min]. simpl. intros p H.
      eapply above_trans; eauto. }
    assert (C3 : consistent e3 args).
    { unfold consistent. rewrite Q3, Ff. exact Cq. }
    assert (Q3c : queue_above (Some cost) e3).
    { unfold queue_above. rewrite Q3. exact Min. }
    assert (C1 : consistent e1 args).
    { unfold consistent. rewrite Q1, Ff1. exact Cq. }
    assert (Q1lo : queue_above lo e1).
    { unfold queue_above. rewrite Q1. exact Qlo. }
    destruct (BFS.cost_bounds_exceeded e1 (Some cost)).
    + cbn [fst iteration_ordered]. auto.
    + destruct (BFS.goal_state_func (BFS.funcs e3) state args).
      * cbn [fst iteration_ordered].
        destruct (update_minimum_reached_frame
                    (BFS.update_upperbound_goal_state
                       (BFS.set_penultimate_stats e3 (Some (BFS.get_stats e3)))
                       state args) (Some cost)) as (Fa & Qa & _).
        destruct (update_upperbound_goal_state_queue
                    (BFS.set_penultimate_stats e3 (Some (BFS.get_stats e3)))
                    state args) as (Qb & Fb).
        assert (Fg : BFS.funcs
                       (BFS.update_minimum_reached
                          (BFS.update_upperbound_goal_state
                             (BFS.set_penultimate_stats e3 (Some (BFS.get_stats e3)))
                             state args) (Some cost)) = BFS.funcs e).
        { destruct Fa as (Fa & _). rewrite Fa, Fb. exact Ff. }
        split; [exact Alo |].
        unfold consistent, queue_above. rewrite Fg, Qa, Qb.
        change (BFS.pq (BFS.set_penultimate_stats e3 (Some (BFS.get_stats e3))))
          with (BFS.pq e3).
        rewrite Q3. auto.
      * rewrite Ff.
        destruct (BFS.next_state_func (BFS.funcs e) state args) as [l | ex] eqn:N.
        -- cbn [fst iteration_ordered]. exists cost. split; [exact Alo |].
           destruct (@put_invariant (Some cost) e3 l (depth + 1) args C3 Q3c)
             as (Cn & Qn & Fn).
           { intros s Hs. simpl. rewrite Ff, Cc. eapply M; eauto. }
           rewrite Fn, Ff. auto.
        -- cbn [fst iteration_ordered]. split; [exact C3 |]. split; [| exact Ff].
           eapply queue_above_weaken; eauto.
  - cbn [fst iteration_ordered].
    destruct (update_minimum_reached_frame (BFS.set_pq e q) None) as (F1 & Q1 & _).
    apply pq_get_none in G.
    unfold consistent, queue_above. rewrite Q1. simpl. rewrite G. simpl.
    repeat split; auto.
Qed.

Lemma loop_exit_queue (e : engine) :
  BFS.pq (BFS.loop_exit e) = BFS.pq e /\ BFS.funcs (BFS.loop_exit e) = BFS.funcs e.
Proof.
  unfold BFS.loop_exit. destruct (BFS.qsize (BFS.pq e) =? 0); split; reflexivity.
Qed.

Lemma pass_loop_ordered fuel args : forall lo prev (e : engine) r e' tr,
  consistent e args -> queue_above lo e -> monotone (BFS.funcs e) args ->
  BFS.pass_loop fuel args prev e = Some (r, e', tr) ->
  pass_ordered lo args e r e'.
Proof.
  assert (X : forall lo (e : engine),
             consistent e args -> queue_above lo e ->
             pass_ordered lo args e (BFS.Returned None) (BFS.loop_exit e)).
  { intros lo e C Q. destruct (loop_exit_queue e) as (Qx & Fx).
    unfold pass_ordered, consistent, queue_above. rewrite Fx, Qx. auto. }
  induction fuel as [| fuel IH]; intros lo prev e r e' tr C Q M H; simpl in H.
  - destruct (BFS.loop_guard e); [discriminate |].
    inversion H; subst. auto.
  - destruct (BFS.loop_guard e); [| inversion H; subst; auto].
    pose proof (@loop_body_ordered lo args prev e C Q M) as B.
    destruct (BFS.loop_body args prev e) as [[d e1 | r1 e1] p]; simpl in B.
    + destruct B as (c & A & C1 & Q1 & F1).
      destruct (BFS.pass_loop fuel args (Some d) e1) as [[[r2 e2] tr2] |] eqn:E;
        [| discriminate].
      inversion H; subst; clear H.
      apply (IH (Some c)) in E; auto; [| rewrite F1; exact M].
      destruct E as (F2 & C2 & R2).
      unfold pass_ordered. rewrite F2, F1. repeat split; auto.
      destruct r as [[[s c'] |] | ex].
      * destruct R2 as (A2 & Q2). split; auto. eapply above_trans; eauto.
      * eapply queue_above_weaken; eauto.
      * eapply queue_above_weaken; eauto.
    + inversion H; subst; clear H. unfold pass_ordered.
      destruct r as [[[s c'] |] | ex]; tauto.
Qed.

Lemma refresh_mincost_bound_queue (e : engine) args :
  BFS.pq (BFS.refresh_mincost_bound e args) = BFS.pq e /\
  BFS.funcs (BFS.refresh_mincost_bound e args) = BFS.funcs e /\
  BFS.upperbound_cost (BFS.refresh_mincost_bound e args) = BFS.upperbound_cost e.
Proof.
  unfold BFS.refresh_mincost_bound.
  destruct (BFS.mincost_bound_func (BFS.funcs e)); repeat split; reflexivity.
Qed.

(** The costs of the goal states that successive calls of the engine return
    do not decrease, for successors that cost no less than their parents. *)
Lemma optimization_pass_ordered fuel lo (e : engine) args r e' tr :
  consistent e args -> queue_above lo e -> monotone (BFS.funcs e) args ->
  BFS.optimization_pass fuel e args = Some (r, e', tr) ->
  pass_ordered lo args e r e'.
Proof.
  intros C Q M H. unfold BFS.optimization_pass in H.
  destruct (refresh_mincost_bound_queue e args) as (Qr & Fr & _).
  apply (@pass_loop_ordered fuel args lo) in H.
  - unfold pass_ordered in *. rewrite Fr in H. exact H.
  - unfold consistent. rewrite Qr, Fr. exact C.
  - unfold queue_above. rewrite Qr. exact Q.
  - rewrite Fr. exact M.
Qed.

End CostOrdering.

(** ** An engine that yields nothing more *)

Section Exhaustion.

Variables State Args : Type.

Let engine : Type := BFS.BestFirstSearch State Args.

Lemma exceeds_bounds_mono mb ub c x :
  exceeds_bounds mb ub c = true -> cost_le c x -> exceeds_bounds mb ub x = true.
Proof.
  unfold exceeds_bounds. intros H L.
  assert (G : forall b, Cost.gtb c b = true -> Cost.gtb x b = true).
  { intros b Hb. apply gtb_iff in Hb. apply gtb_iff. intro X. apply Hb.
    eapply cost_le_trans; eauto. }
  apply orb_true_iff in H. apply orb_true_iff.
  destruct H as [H | H]; [left; destruct mb | right; destruct ub];
    try discriminate; auto.
Qed.

Lemma loop_exit_spent (e : engine) args :
  BFS.loop_guard e = false -> spent (BFS.loop_exit e) args.
Proof.
  unfold BFS.loop_guard, BFS.loop_exit, BFS.qsize, spent. intro G.
  apply andb_false_iff in G. destruct G as [G | G];
    [apply andb_false_iff in G; destruct G as [G | G] |].
  - apply Nat.ltb_ge in G.
    assert (E : BFS.pqueue (BFS.pq e) = []).
    { destruct (BFS.pqueue (BFS.pq e)); [reflexivity | simpl in G; lia]. }
    right. right. rewrite E. simpl. rewrite ?E. constructor.
  - apply orb_false_iff in G. destruct G as [G1 G2].
    apply negb_false_iff in G1, G2. left.
    destruct (List.length (BFS.pqueue (BFS.pq e)) =? 0); simpl; auto.
  - right. left. destruct (BFS.max_backjumps e) as [m |] eqn:M; [| discriminate].
    apply Nat.ltb_ge in G. exists m.
    destruct (List.length (BFS.pqueue (BFS.pq e)) =? 0); simpl; auto.
Qed.

Lemma in_heappop (h : list (BFS.entry State)) best rest :
  BFS.heappop h = Some (best, rest) -> In best h.
Proof.
  intro H. apply heappop_perm in H. eapply Permutation_in; [symmetry; exact H |].
  left. reflexivity.
Qed.

(** A call that returns [(None, None)] leaves a spent engine. *)
Lemma pass_loop_none_spent fuel args : forall prev (e : engine) e' tr,
  BFS.mincost_bound e = refreshed_bound e args ->
  BFS.pass_loop fuel args prev e = Some (BFS.Returned None, e', tr) ->
  spent e' args.
Proof.
  induction fuel as [| fuel IH]; intros prev e e' tr R H; simpl in H.
  - destruct (BFS.loop_guard e) eqn:G; [discriminate |].
    inversion H; subst. apply loop_exit_spent. exact G.
  - destruct (BFS.loop_guard e) eqn:G;
      [| inversion H; subst; apply loop_exit_spent; exact G].
    rewrite loop_body_unfold in H.
    destruct (BFS.pq_get (BFS.pq e)) as [[[[state depth] cost] |] q] eqn:Get.
    + cbv zeta in H.
      pose proof (popped_frame e q cost prev depth) as F.
      pose proof (update_minimum_reached_frame (BFS.set_pq e q) (Some cost)) as F1.
      set (e1 := BFS.update_minimum_reached (BFS.set_pq e q) (Some cost)) in *.
      set (e3 := counted prev depth e1) in *.
      destruct F as (F & Q3). destruct F1 as (F1 & Q1 & _).
      destruct (BFS.cost_bounds_exceeded e1 (Some cost)) eqn:X.
      * inversion H. right. right.
        assert (B1 : refreshed_bound e1 args = BFS.mincost_bound e1).
        { unfold refreshed_bound.
          destruct F1 as (Ff & _ & _ & _ & Fm & _).
          change (BFS.funcs (BFS.set_pq e q)) with (BFS.funcs e) in Ff.
          change (BFS.mincost_bound (BFS.set_pq e q)) with (BFS.mincost_bound e) in Fm.
          rewrite Ff, Fm. symmetry. exact R. }
        rewrite B1, Q1. simpl.
        unfold BFS.pq_get in Get.
        destruct (BFS.heappop (BFS.pqueue (BFS.pq e))) as [[best rest] |] eqn:E;
          [| discriminate].
        inversion Get as [[G1 G2 G3 G4]]. simpl.
        apply heappop_min in E. eapply Forall_impl; [| exact E].
        simpl. intros x L. eapply exceeds_bounds_mono; [| rewrite <- G3; exact L].
        rewrite <- G3 in X. exact X.
      * destruct (BFS.goal_state_func (BFS.funcs e3) state args); [discriminate |].
        destruct (BFS.next_state_func (BFS.funcs e3) state args) as [l | ex];
          [| discriminate].
        destruct (BFS.pass_loop fuel args (Some depth) (BFS.put e3 l (depth + 1) args))
          as [[[r2 e2] tr2] |] eqn:E; [| discriminate].
        inversion H; subst r2 e2. eapply IH; [| exact E].
        destruct (put_spec e3 l (depth + 1) args) as (Fp & _).
        destruct Fp as (Pf & _ & _ & _ & Pm & _).
        destruct F as (Ff & _ & _ & _ & Fm & _).
        unfold refreshed_bound. rewrite Pf, Pm, Ff, Fm. exact R.
    + inversion H. right. right.
      simpl. apply pq_get_none in Get. rewrite Get. constructor.
Qed.

Lemma refresh_refreshed (e : engine) args :
  BFS.mincost_bound (BFS.refresh_mincost_bound e args) =
    refreshed_bound (BFS.refresh_mincost_bound e args) args /\
  refreshed_bound (BFS.refresh_mincost_bound e args) args = refreshed_bound e args.
Proof.
  unfold BFS.refresh_mincost_bound, refreshed_bound.
  destruct (BFS.mincost_bound_func (BFS.funcs e)) as [f |] eqn:E; simpl;
    rewrite E; split; reflexivity.
Qed.

(** A call that returns [(None, None)] leaves a spent engine. *)
Lemma optimization_pass_none_spent fuel (e : engine) args e' tr :
  BFS.optimization_pass fuel e args = Some (BFS.Returned None, e', tr) ->
  spent e' args.
Proof.
  unfold BFS.optimization_pass. intro H.
  eapply pass_loop_none_spent; [| exact H]. apply refresh_refreshed.
Qed.

(** A spent engine yields [(None, None)] and stays spent. *)
Lemma spent_optimization_pass fuel (e : engine) args r e' tr :
  spent e args ->
  BFS.optimization_pass fuel e args = Some (r, e', tr) ->
  r = BFS.Returned None /\ spent e' args.
Proof.
  intros S H.
  assert (R : r = BFS.Returned None).
  { unfold BFS.optimization_pass in H.
    destruct (refresh_refreshed e args) as (Rm & Rb).
    destruct (refresh_mincost_bound_queue e args) as (Rq & Rf & Ru).
    set (e0 := BFS.refresh_mincost_bound e args) in *.
    assert (S0 : BFS.loop_guard e0 = true ->
                 Forall (fun x => exceeds_bounds (BFS.mincost_bound e0)
                                    (BFS.upperbound_cost e0) (BFS.e_cost x) = true)
                   (BFS.pqueue (BFS.pq e0))).
    { intro G. unfold BFS.loop_guard in G.
      apply andb_true_iff in G. destruct G as [G G3].
      apply andb_true_iff in G. destruct G as [G1 G2].
      assert (Es : BFS.stop_at_first_min e0 = BFS.stop_at_first_min e /\
                   BFS.min_reached e0 = BFS.min_reached e /\
                   BFS.max_backjumps e0 = BFS.max_backjumps e /\
                   BFS.num_backjumps e0 = BFS.num_backjumps e).
      { unfold e0, BFS.refresh_mincost_bound.
        destruct (BFS.mincost_bound_func (BFS.funcs e)); repeat split; reflexivity. }
      destruct Es as (E1 & E2 & E3 & E4). rewrite E1, E2 in G2. rewrite E3, E4 in G3.
      destruct S as [[S1 S2] | [[m [S1 S2]] | S]].
      - rewrite S1, S2 in G2. discriminate.
      - rewrite S1 in G3. apply Nat.ltb_lt in G3. lia.
      - rewrite Rm, Rb, Rq, Ru. exact S. }
    destruct fuel as [| fuel]; simpl in H.
    - destruct (BFS.loop_guard e0); [discriminate | inversion H; reflexivity].
    - destruct (BFS.loop_guard e0); [| inversion H; reflexivity].
      specialize (S0 eq_refl).
      rewrite loop_body_unfold in H.
      unfold BFS.pq_get in H.
      destruct (BFS.heappop (BFS.pqueue (BFS.pq e0))) as [[best rest] |] eqn:E.
      + cbv zeta in H.
        apply in_heappop in E.
        rewrite Forall_forall in S0. specialize (S0 _ E).
        match type of H with
        | context [BFS.cost_bounds_exceeded ?e1 ?c] =>
            assert (X : BFS.cost_bounds_exceeded e1 c = true)
        end.
        { match goal with
          | |- BFS.cost_bounds_exceeded (BFS.update_minimum_reached ?a ?b) _ = _ =>
              destruct (update_minimum_reached_frame a b) as (Fa & _)
          end.
          destruct Fa as (_ & _ & _ & Fu & Fm & _).
          unfold BFS.cost_bounds_exceeded. rewrite Fu, Fm. exact S0. }
        rewrite X in H. inversion H. reflexivity.
      + inversion H. reflexivity. }
  split; [exact R |]. subst r. eapply optimization_pass_none_spent. exact H.
Qed.

End Exhaustion.

(** ** The driver: the order of the costs it returns *)

Section DriverOrdering.

Context {State : Type} {ops : CutOpt.StateOps State} {imp : CutOpt.Imports State}.

Let Driver : Type := @CutOpt.CutOptimization State.

Lemma finished_run fuel n : forall d : Driver,
  finished d -> CutOpt.returned_costs (CutOpt.run_passes fuel n d) = [].
Proof.
  induction n as [| n IH]; intros d [S R]; simpl; [reflexivity |].
  unfold CutOpt.optimization_pass.
  destruct (BFS.optimization_pass fuel (CutOpt.search_engine d) (CutOpt.func_args d))
    as [[[r e'] tr] |] eqn:E; [| reflexivity].
  destruct (spent_optimization_pass _ S E) as (Rn & S').
  subst r.
  destruct (CutOpt.goal_state_returned d) eqn:G; simpl.
  - apply IH. split; simpl; auto.
  - destruct R as [R | R]; [discriminate |]. rewrite R. simpl.
    apply IH. split; simpl; auto.
Qed.

Lemma live_run fuel n : forall (d : Driver) lo,
  live d lo ->
  nondecreasing (CutOpt.returned_costs (CutOpt.run_passes fuel n d)) /\
  Forall (above lo) (CutOpt.returned_costs (CutOpt.run_passes fuel n d)).
Proof.
  unfold nondecreasing.
  induction n as [| n IH]; intros d lo (C & Q & M & L); simpl;
    [split; constructor |].
  unfold CutOpt.optimization_pass.
  destruct (BFS.optimization_pass fuel (CutOpt.search_engine d) (CutOpt.func_args d))
    as [[[r e'] tr] |] eqn:E; [| split; constructor].
  pose proof (optimization_pass_ordered _ C Q M E) as (F' & C' & R').
  destruct r as [[[s c] |] | ex].
  - destruct R' as (A & Q'). simpl.
    destruct (IH {| CutOpt.func_args := CutOpt.func_args d;
                    CutOpt.greedy_goal_state := CutOpt.greedy_goal_state d;
                    CutOpt.search_engine := e';
                    CutOpt.goal_state_returned := true |} (Some c)) as (Srt & Abv).
    { unfold live; simpl. rewrite F'. auto. }
    split.
    + constructor; auto.
      eapply Forall_impl; [| exact Abv]. simpl. intros x. apply leb_iff.
    + constructor; auto.
      eapply Forall_impl; [| exact Abv]. simpl. intros x X.
      eapply above_trans; eauto.
  - apply optimization_pass_none_spent in E.
    destruct (CutOpt.goal_state_returned d) eqn:G; simpl.
    + rewrite finished_run; [split; constructor |]. split; simpl; auto.
    + destruct (CutOpt.greedy_goal_state d) as [g |] eqn:Gr; simpl.
      * rewrite finished_run; [| split; simpl; auto].
        split; repeat constructor.
        destruct lo as [l |]; simpl; auto.
        assert (X : false = true) by (apply L; discriminate).
        discriminate.
      * rewrite finished_run; [split; constructor |]. split; simpl; auto.
  - simpl. apply IH. unfold live; simpl. rewrite F'. auto.
Qed.

Lemma initialize_live (e : BFS.BestFirstSearch State (CutOpt.CutOptimizationFuncArgs State))
  l args :
  let e' := BFS.initialize e l args in
  consistent e' args /\ BFS.funcs e' = BFS.funcs e.
Proof.
  unfold BFS.initialize. cbv zeta.
  match goal with
  | |- context [BFS.put ?e9 l 0 args] =>
      destruct (@put_invariant _ _ None e9 l 0 args) as (C & _ & F)
  end.
  - unfold consistent. simpl. constructor.
  - unfold queue_above. simpl. constructor.
  - simpl. auto.
  - simpl. split; [exact C | exact F].
Qed.

(** C2.  Over successive calls of the driver's [optimization_pass] the cost
    tuples returned are non-decreasing in the lexicographic order, when every
    successor state costs at least as much as its parent. *)
Theorem returned_costs_nondecreasing
  (bit_generator : Z -> nat -> Q) (os_entropy : nat -> Q)
  (circuit : CutOpt.CircuitInterface) (settings : CutOpt.OptimizationSettings)
  (constraints : CutOpt.DeviceConstraints) (actions : CutOpt.ActionNames State)
  (d : Driver) (fuel n : nat) :
  CutOpt.init bit_generator os_entropy circuit settings constraints actions = Py.Ok d ->
  (forall s l s',
      CutOpt.cut_optimization_next_state_func s (CutOpt.func_args d) = Py.Ok l ->
      In s' l ->
      Cost.leb (CutOpt.cut_optimization_cost_func s (CutOpt.func_args d))
        (CutOpt.cut_optimization_cost_func s' (CutOpt.func_args d)) = true) ->
  StronglySorted (fun a b => Cost.leb a b = true)
    (CutOpt.returned_costs (CutOpt.run_passes fuel n d)).
Proof.
  intros I M.
  apply (@live_run fuel n d None).
  unfold CutOpt.init in I.
  destruct (CutOpt.greedy_cut_optimization circuit settings constraints
              CutOpt.cut_optimization_search_funcs actions) as [greedy | ex];
    [| discriminate].
  inversion I; subst d; clear I. simpl in M.
  match goal with
  | |- live {| CutOpt.func_args := ?fa; CutOpt.greedy_goal_state := _;
               CutOpt.search_engine := _; CutOpt.goal_state_returned := _ |} _ =>
      set (args := fa) in *
  end.
  assert (Mo : monotone CutOpt.cut_optimization_search_funcs args).
  { intros s l s' N H. apply leb_iff. eapply M; eauto. }
  assert (K : forall gr e,
             consistent e args ->
             BFS.funcs e = CutOpt.cut_optimization_search_funcs ->
             live {| CutOpt.func_args := args; CutOpt.greedy_goal_state := gr;
                     CutOpt.search_engine := e;
                     CutOpt.goal_state_returned := false |} None).
  { intros gr e Ce Fe. unfold live.
    cbn [CutOpt.search_engine CutOpt.func_args CutOpt.goal_state_returned].
    rewrite Fe. repeat split; auto.
    all: try (unfold queue_above; apply Forall_forall; simpl; auto).
    all: try (intro X; exfalso; apply X; reflexivity). }
  assert (I : forall l,
             let e := BFS.initialize
                        (CutOpt.select_search_engine bit_generator os_entropy settings
                           CutOpt.cut_optimization_search_funcs false) l args in
             consistent e args /\ BFS.funcs e = CutOpt.cut_optimization_search_funcs).
  { intro l. destruct (initialize_live
                         (CutOpt.select_search_engine bit_generator os_entropy settings
                            CutOpt.cut_optimization_search_funcs false) l args)
      as (C & F).
    split; [exact C | rewrite F; reflexivity]. }
  destruct greedy as [g |]; apply K.
  - match goal with
    | |- consistent (BFS.update_upperbound_goal_state ?e g args) args =>
        destruct (update_upperbound_goal_state_queue e g args) as (Qu & Fu);
        unfold consistent; rewrite Qu, Fu
    end.
    apply I.
  - rewrite (proj2 (update_upperbound_goal_state_queue _ g args)). apply I.
  - apply I.
  - apply I.
Qed.

End DriverOrdering.

(** ** The tie-breaking numbers *)

(** The random numbers of the priority queue decide the order in which
    states of equal cost and depth are popped.  With the seed [None], which
    the constructor of the priority queue accepts, the generator is seeded
    from the entropy of the operating system, and two runs over the same
    circuit, constraints and actions that draw different numbers return the
    two goal states of equal cost of the chain of two gates in different
    orders. *)
Lemma tie_break_numbers_order_equal_goals :
  CutOpt.search Toy.bit_generator Toy.stream_up Toy.chain (Toy.settings None)
    (Toy.device 2) Toy.toy_actions 20 1 <>
  CutOpt.search Toy.bit_generator Toy.stream_down Toy.chain (Toy.settings None)
    (Toy.device 2) Toy.toy_actions 20 1.
Proof. vm_compute. intro H. discriminate H. Qed.

(** ** The next-state functions *)

Section NextState.

Context {State : Type} {ops : CutOpt.StateOps State} {imp : CutOpt.Imports State}.

(** C6, as the code has it.  [cut_optimization_next_state_func] raises
    [ValueError] for every current gate that does not act on exactly two
    qubits, and for a gate on two qubits it returns the successors of the
    group TwoQubitGates filtered by the gate's cut constraints (its [assert]
    fails only when there is no list of actions).  The function of the
    LO_gate_cut_optimizer package, [CutOptimizationNextStateFunc], returns the
    same for a gate on two qubits, and for any other gate it does not raise
    on the arity: it goes through the group MultiqubitGates. *)
Theorem next_state_dispatch_on_arity (state : State)
  (func_args : CutOpt.CutOptimizationFuncArgs State) (gate_spec : CutOpt.gate_spec) :
  nth_error (CutOpt.entangling_gates func_args) (CutOpt.get_search_level state)
    = Some gate_spec ->
  let arity := List.length (CutOpt.ce_qubits (CutOpt.gs_gate gate_spec)) in
  (arity <> 2 ->
   CutOpt.cut_optimization_next_state_func state func_args = Py.Raise Py.ValueError) /\
  (arity = 2 ->
   CutOpt.cut_optimization_next_state_func state func_args =
     match group_successors state func_args gate_spec "TwoQubitGates" with
     | Some l => Py.Ok l
     | None => Py.Raise Py.AssertionError
     end) /\
  (arity = 2 ->
   LOCutOpt.CutOptimizationNextStateFunc state func_args =
     match group_successors state func_args gate_spec "TwoQubitGates" with
     | Some l => Py.Ok l
     | None => Py.Raise Py.TypeError
     end) /\
  (arity <> 2 ->
   LOCutOpt.CutOptimizationNextStateFunc state func_args =
     match group_successors state func_args gate_spec "MultiqubitGates" with
     | Some l => Py.Ok l
     | None => Py.Raise Py.TypeError
     end).
Proof.
  intros H arity.
  unfold CutOpt.cut_optimization_next_state_func,
    LOCutOpt.CutOptimizationNextStateFunc, group_successors.
  rewrite H. fold arity.
  repeat split; intro A.
  - destruct (Nat.eqb_spec arity 2); [contradiction | reflexivity].
  - rewrite A. simpl.
    destruct (CutOpt.get_action_subset _ _); reflexivity.
  - rewrite A. simpl.
    destruct (CutOpt.get_action_subset _ _); reflexivity.
  - destruct (Nat.eqb_spec (S arity) 3); [lia |].
    destruct (CutOpt.get_action_subset _ _); reflexivity.
Qed.

End NextState.

(** C6, as stated, fails for [CutOptimizationNextStateFunc]: for a state whose
    current gate acts on three qubits it returns a list of successors. *)
Lemma next_state_three_qubit_gate_counterexample :
  let func_args :=
    {| CutOpt.entangling_gates := [Toy.ccx 0 0 1 2];
       CutOpt.search_actions := Toy.toy_actions;
       CutOpt.max_gamma := None;
       CutOpt.qpu_width := 2 |} in
  let state := CutOpt.new_state 3 0%Z in
  option_map (fun g => List.length (CutOpt.ce_qubits (CutOpt.gs_gate g)))
    (nth_error (CutOpt.entangling_gates func_args) (CutOpt.get_search_level state))
    = Some 3 /\
  exists l, LOCutOpt.CutOptimizationNextStateFunc state func_args = Py.Ok l.
Proof.
  split; [reflexivity |]. eexists. reflexivity.
Qed.

(** ** The wire-cut cap of the driver *)

Section WireCuts.

Context {State : Type} {ops : CutOpt.StateOps State} {imp : CutOpt.Imports State}.

Let Driver : Type := @CutOpt.CutOptimization State.





End WireCuts.



(** ** The greedy result as the first result of the driver *)

Section GreedyFallback.

Context {State : Type} {ops : CutOpt.StateOps State} {imp : CutOpt.Imports State}.

Let Driver : Type := @CutOpt.CutOptimization State.

(** When the engine yields no state on the first call and the greedy
    pre-pass has found a goal state, the driver returns that state with its
    cost, and records that a state has been returned. *)
Lemma first_call_returns_greedy_goal (fuel : nat) (d : Driver) (g : State) e' tr :
  CutOpt.goal_state_returned d = false ->
  CutOpt.greedy_goal_state d = Some g ->
  BFS.optimization_pass fuel (CutOpt.search_engine d) (CutOpt.func_args d)
    = Some (BFS.Returned None, e', tr) ->
  exists d',
    CutOpt.optimization_pass fuel d =
      Some (Py.Ok (Some g,
                   Some (CutOpt.cut_optimization_cost_func g (CutOpt.func_args d))),
            d') /\
    CutOpt.goal_state_returned d' = true /\
    CutOpt.search_engine d' = e'.
Proof.
  intros R G E. unfold CutOpt.optimization_pass. rewrite E, R, G. simpl.
  eexists. repeat split.
Qed.

(** Once a state has been returned, a call in which the engine yields
    nothing returns [(None, None)]. *)
Lemma later_call_returns_none (fuel : nat) (d : Driver) e' tr :
  CutOpt.goal_state_returned d = true ->
  BFS.optimization_pass fuel (CutOpt.search_engine d) (CutOpt.func_args d)
    = Some (BFS.Returned None, e', tr) ->
  exists d',
    CutOpt.optimization_pass fuel d = Some (Py.Ok (None, None), d') /\
    CutOpt.goal_state_returned d' = true.
Proof.
  intros R E. unfold CutOpt.optimization_pass. rewrite E, R. simpl.
  eexists. repeat split.
Qed.

(** When the greedy pre-pass has found no goal state, a call in which the
    engine yields nothing raises [AttributeError], and the driver does not
    record that a state has been returned. *)
Lemma no_greedy_goal_raises (fuel : nat) (d : Driver) e' tr :
  CutOpt.goal_state_returned d = false ->
  CutOpt.greedy_goal_state d = None ->
  BFS.optimization_pass fuel (CutOpt.search_engine d) (CutOpt.func_args d)
    = Some (BFS.Returned None, e', tr) ->
  exists d',
    CutOpt.optimization_pass fuel d = Some (Py.Raise Py.AttributeError, d') /\
    CutOpt.goal_state_returned d' = false.
Proof.
  intros R G E. unfold CutOpt.optimization_pass. rewrite E, R, G. simpl.
  eexists. repeat split.
Qed.

End GreedyFallback.

(** C8 at an input where the greedy pre-pass finds no goal state: one [cx]
    that must not be cut, on a device one qubit wide.  The engine yields
    nothing, and every call of the driver's [optimization_pass] raises
    [AttributeError] instead of returning. *)
Theorem first_call_without_greedy_goal_raises :
  match CutOpt.init Toy.bit_generator Toy.stream_up Toy.uncuttable
          (Toy.settings (Some 0%Z)) (Toy.device 1) Toy.toy_actions with
  | Py.Ok d =>
      CutOpt.greedy_goal_state d = None /\
      (exists e' tr,
          BFS.optimization_pass 20 (CutOpt.search_engine d) (CutOpt.func_args d)
            = Some (BFS.Returned None, e', tr)) /\
      CutOpt.run_passes 20 3 d =
        [Py.Raise Py.AttributeError; Py.Raise Py.AttributeError;
         Py.Raise Py.AttributeError]
  | Py.Raise _ => False
  end.
Proof.
  vm_compute. split; [reflexivity |]. split; [| reflexivity].
  eexists. eexists. reflexivity.
Qed.

(** ** Python dictionaries *)

Section DictFacts.

Variables K V : Type.
Variable keq : K -> K -> bool.
Hypothesis keq_spec : forall a b, keq a b = true <-> a = b.

Lemma keq_refl (a : K) : keq a a = true.
Proof. apply keq_spec. reflexivity. Qed.

Lemma keq_neq (a b : K) : a <> b -> keq a b = false.
Proof.
  intro N. destruct (keq a b) eqn:E; auto. apply keq_spec in E. contradiction.
Qed.

Lemma dict_get_set_same (d : list (K * V)) k v :
  Circ.dict_get keq (Circ.dict_set keq d k v) k = Some v.
Proof.
  induction d as [| [k' v'] r IH]; simpl.
  - rewrite keq_refl. reflexivity.
  - destruct (keq k k') eqn:E; simpl; rewrite E; auto.
Qed.

Lemma dict_get_set_other (d : list (K * V)) k v k' :
  k' <> k ->
  Circ.dict_get keq (Circ.dict_set keq d k v) k' = Circ.dict_get keq d k'.
Proof.
  intro N. induction d as [| [k0 v0] r IH]; simpl.
  - rewrite (keq_neq N). reflexivity.
  - destruct (keq k k0) eqn:E; simpl.
    + apply keq_spec in E. subst k0. rewrite (keq_neq N). reflexivity.
    + destruct (keq k' k0); auto.
Qed.

Lemma dict_mem_get (d : list (K * V)) k :
  Circ.dict_mem keq d k = false <-> Circ.dict_get keq d k = None.
Proof.
  unfold Circ.dict_mem. destruct (Circ.dict_get keq d k); split; congruence.
Qed.




End DictFacts.

Lemma name_eqb_spec (x y : Circ.name) : Circ.name_eqb x y = true <-> x = y.
Proof.
  revert y. induction x as [a | w IH]; intros [b | v]; simpl;
    try (split; intro; discriminate).
  - rewrite String.eqb_eq. split; intro H; [subst | inversion H]; auto.
  - rewrite IH. split; intro H; [subst | inversion H]; auto.
Qed.

(** ** NameToIDMap *)

Section NameMap.

Lemma filter_length_le (A : Type) (f g : A -> bool) (l : list A) :
  (forall x, f x = true -> g x = true) ->
  List.length (filter f l) <= List.length (filter g l).
Proof.
  intro H. induction l as [| a l IH]; cbn [filter]; auto.
  destruct (f a) eqn:F.
  - rewrite (H a F). cbn [List.length]. lia.
  - destruct (g a); cbn [List.length]; lia.
Qed.

(** An assigned ID is one of the assigned IDs from [n] on, and not one of
    those from [n + 1] on. *)
Lemma assigned_counts (ids : list (nat * Circ.name)) (n : nat) :
  Circ.dict_mem Nat.eqb ids n = true ->
  List.length (filter (fun p => S n <=? fst p) ids)
  < List.length (filter (fun p => n <=? fst p) ids).
Proof.
  unfold Circ.dict_mem.
  induction ids as [| [k v] r IH]; cbn [Circ.dict_get filter fst]; [discriminate |].
  assert (Mono : List.length (filter (fun p => S n <=? fst p) r)
                 <= List.length (filter (fun p => n <=? fst p) r)).
  { apply filter_length_le. intros x H.
    apply Nat.leb_le in H. apply Nat.leb_le. lia. }
  destruct (Nat.eqb_spec n k) as [E | E].
  - subst k. intros _.
    destruct (Nat.leb_spec (S n) n); [lia |].
    destruct (Nat.leb_spec n n); [| lia]. cbn [List.length]. lia.
  - intro H. specialize (IH H).
    destruct (Nat.leb_spec (S n) k), (Nat.leb_spec n k); cbn [List.length]; lia.
Qed.

(** The loop that looks for the next free ID ends on an ID that is not
    assigned. *)
Lemma skip_assigned_free (ids : list (nat * Circ.name)) : forall fuel n,
  List.length (filter (fun p => n <=? fst p) ids) <= fuel ->
  Circ.dict_get Nat.eqb ids (Circ.skip_assigned ids fuel n) = None.
Proof.
  induction fuel as [| fuel IH]; intros n L; simpl.
  - destruct (Circ.dict_mem Nat.eqb ids n) eqn:E.
    + apply assigned_counts in E. lia.
    + apply dict_mem_get in E. exact E.
  - destruct (Circ.dict_mem Nat.eqb ids n) eqn:E.
    + apply IH. apply assigned_counts in E. lia.
    + apply dict_mem_get in E. exact E.
Qed.

Lemma skip_assigned_free_length (ids : list (nat * Circ.name)) n :
  Circ.dict_get Nat.eqb ids (Circ.skip_assigned ids (List.length ids) n) = None.
Proof.
  apply skip_assigned_free.
  induction ids as [| p r IH]; simpl; auto.
  destruct (n <=? fst p); simpl; lia.
Qed.

Lemma insert_fresh_inverse (m : Circ.NameToIDMap) x i nid :
  inverse_dicts m ->
  Circ.dict_get Circ.name_eqb (Circ.item_dict m) x = None ->
  Circ.dict_get Nat.eqb (Circ.ID_dict m) i = None ->
  inverse_dicts
    {| Circ.next_ID := nid;
       Circ.item_dict := Circ.dict_set Circ.name_eqb (Circ.item_dict m) x i;
       Circ.ID_dict := Circ.dict_set Nat.eqb (Circ.ID_dict m) i x |}.
Proof.
  intros W Hx Hi y j. simpl.
  destruct (Circ.name_eqb y x) eqn:Ey.
  - apply name_eqb_spec in Ey. subst y.
    rewrite (@dict_get_set_same _ _ _ name_eqb_spec).
    destruct (Nat.eqb_spec j i) as [Ej | Ej].
    + subst j. rewrite (@dict_get_set_same _ _ _ Nat.eqb_eq). tauto.
    + rewrite (@dict_get_set_other _ _ _ Nat.eqb_eq _ _ _ _ Ej). split.
      * intro H. inversion H. congruence.
      * intro H. apply W in H. congruence.
  - assert (Ny : y <> x).
    { intro H. subst. rewrite (proj2 (name_eqb_spec x x) eq_refl) in Ey. discriminate. }
    rewrite (@dict_get_set_other _ _ _ name_eqb_spec _ _ _ _ Ny).
    destruct (Nat.eqb_spec j i) as [Ej | Ej].
    + subst j. rewrite (@dict_get_set_same _ _ _ Nat.eqb_eq). split.
      * intro H. apply W in H. congruence.
      * intro H. inversion H. congruence.
    + rewrite (@dict_get_set_other _ _ _ Nat.eqb_eq _ _ _ _ Ej). apply W.
Qed.

Lemma getID_inverse (m : Circ.NameToIDMap) x :
  inverse_dicts m -> inverse_dicts (snd (Circ.getID m x)).
Proof.
  intro W. unfold Circ.getID.
  destruct (Circ.dict_get Circ.name_eqb (Circ.item_dict m) x) as [i |] eqn:E;
    simpl; auto.
  apply insert_fresh_inverse; auto. apply skip_assigned_free_length.
Qed.

Lemma reachable_inverse (m : Circ.NameToIDMap) : reachable m -> inverse_dicts m.
Proof.
  induction 1 as [| m x R IH | m i x m' R IH D].
  - intros x i. simpl. split; discriminate.
  - apply getID_inverse. exact IH.
  - unfold Circ.defineID in D.
    destruct (Circ.dict_mem Nat.eqb (Circ.ID_dict m) i) eqn:Ei; [discriminate |].
    destruct (Circ.dict_mem Circ.name_eqb (Circ.item_dict m) x) eqn:Ex; [discriminate |].
    inversion D; subst m'.
    apply insert_fresh_inverse; auto; apply dict_mem_get; auto.
Qed.

(** [getID] returns the ID it has registered for the name. *)
Lemma getID_registers (m : Circ.NameToIDMap) x :
  Circ.dict_get Circ.name_eqb (Circ.item_dict (snd (Circ.getID m x))) x
    = Some (fst (Circ.getID m x)).
Proof.
  unfold Circ.getID.
  destruct (Circ.dict_get Circ.name_eqb (Circ.item_dict m) x) as [i |] eqn:E;
    simpl; auto.
  apply (@dict_get_set_same _ _ _ name_eqb_spec).
Qed.

(** C10.  In every map built by [getID] and [defineID], [getID] is
    idempotent: a second call with the same name returns the same ID and
    leaves the map as it is; a different name gets a different ID; and
    [getName] of the ID returns the name. *)
Theorem getID_idempotent_injective_invertible (m : Circ.NameToIDMap) (x : Circ.name) :
  reachable m ->
  let i := fst (Circ.getID m x) in
  let m1 := snd (Circ.getID m x) in
  Circ.getID m1 x = (i, m1) /\
  (forall y, y <> x -> fst (Circ.getID m1 y) <> i) /\
  Circ.getName m1 i = Some x.
Proof.
  intros R i m1.
  assert (W1 : inverse_dicts m1) by (apply getID_inverse, reachable_inverse, R).
  pose proof (getID_registers m x) as G. fold i m1 in G.
  repeat split.
  - unfold Circ.getID. rewrite G. reflexivity.
  - intros y N E.
    pose proof (getID_registers m1 y) as Gy. rewrite E in Gy.
    assert (W2 : inverse_dicts (snd (Circ.getID m1 y))) by (apply getID_inverse, W1).
    assert (Gx : Circ.dict_get Circ.name_eqb
                   (Circ.item_dict (snd (Circ.getID m1 y))) x = Some i).
    { unfold Circ.getID.
      destruct (Circ.dict_get Circ.name_eqb (Circ.item_dict m1) y) eqn:Ey; simpl; auto.
      rewrite (@dict_get_set_other _ _ _ name_eqb_spec); auto. }
    apply W2 in Gy. apply W2 in Gx. congruence.
  - unfold Circ.getName. apply W1. exact G.
Qed.

End NameMap.

(** ** The wire ordering *)

Section WireOrder.

Local Open Scope Q_scope.







End WireOrder.

(** ** The default wire-name mapping *)

Section WireMapping.

Local Open Scope Q_scope.
















(** *** Sorting by key *)







(** *** The comprehension and the enumeration *)




(** *** The names of a map are distinct *)


End WireMapping.

(** ** Cut wires are numbered next to their parents *)

Section WireAdjacency.

Local Open Scope Q_scope.



End WireAdjacency.

(** ** The rounding of floats *)

Section Rounding.

Local Open Scope Q_scope.










End Rounding.

(** ** The wire ordering in floats *)

Section FloatKeys.

Local Open Scope Q_scope.















End FloatKeys.

(** ** The theorems at concrete inputs *)

(** In the small model every successor costs at least as much as its
    parent. *)
Lemma toy_successors_cost_more (fa : CutOpt.CutOptimizationFuncArgs Toy.tstate)
  (s : Toy.tstate) (l : list Toy.tstate) (s' : Toy.tstate) :
  CutOpt.search_actions fa = Toy.toy_actions ->
  CutOpt.cut_optimization_next_state_func s fa = Py.Ok l ->
  In s' l ->
  Cost.leb (CutOpt.cut_optimization_cost_func s fa)
    (CutOpt.cut_optimization_cost_func s' fa) = true.
Proof.
  intros A N H. unfold CutOpt.cut_optimization_next_state_func in N.
  destruct (nth_error (CutOpt.entangling_gates fa) (CutOpt.get_search_level s))
    as [g |]; [| discriminate].
  destruct (List.length (CutOpt.ce_qubits (CutOpt.gs_gate g)) =? 2); [| discriminate].
  rewrite A in N.
  change (Toy.toy_actions "TwoQubitGates"%string)
    with (Some [Toy.act_none; Toy.act_gate_cut]) in N.
  change (@CutOpt.get_action_subset Toy.tstate Toy.toy_imports)
    with Toy.toy_get_action_subset in N.
  unfold Toy.toy_get_action_subset in N.
  assert (X : forall a, In a [Toy.act_none; Toy.act_gate_cut] ->
              forall x, In x (CutOpt.next_state a s g (CutOpt.qpu_width fa)) ->
              cost_le (CutOpt.cut_optimization_cost_func s fa)
                (CutOpt.cut_optimization_cost_func x fa)).
  { intros a [Ha | [Ha | []]] x Hx; subst a;
      cbn [CutOpt.next_state Toy.act_none Toy.act_gate_cut] in Hx.
    - destruct (S (Toy.t_width s) <=? CutOpt.qpu_width fa); [| destruct Hx].
      destruct Hx as [Hx | []]. subst x. right. simpl. split; [reflexivity |].
      apply Nat.leb_le. lia.
    - destruct Hx as [Hx | []]. subst x. left. simpl. lra. }
  apply leb_iff.
  assert (Y : exists acts,
             (forall a, In a acts -> In a [Toy.act_none; Toy.act_gate_cut]) /\
             l = flat_map
                   (fun action =>
                      CutOpt.next_state action s g (CutOpt.qpu_width fa)) acts).
  { destruct (CutOpt.gs_constraints g) as [names |]; cbv beta iota in N;
      match type of N with
      | Py.Ok (flat_map _ ?acts0) = _ => exists acts0
      end; (split; [| congruence]).
    - intros a Ha. apply filter_In in Ha. tauto.
    - auto. }
  destruct Y as (acts & Sub & El). subst l.
  apply in_flat_map in H. destruct H as (a & Ha & Hx).
  eapply X; eauto.
Qed.

(** C2 on the chain of two gates, on a device two qubits wide. *)
Lemma returned_costs_nondecreasing_witness :
  exists d : @CutOpt.CutOptimization Toy.tstate,
    CutOpt.init Toy.bit_generator Toy.stream_up Toy.chain
      (Toy.settings (Some 42%Z)) (Toy.device 2) Toy.toy_actions = Py.Ok d /\
    CutOpt.returned_costs (CutOpt.run_passes 20 4 d) =
      [(3%Q, Cost.Fin 2); (3%Q, Cost.Fin 2)] /\
    StronglySorted (fun a b => Cost.leb a b = true)
      (CutOpt.returned_costs (CutOpt.run_passes 20 4 d)).
Proof.
  eexists. split; [reflexivity |]. split; [vm_compute; reflexivity |].
  apply (@returned_costs_nondecreasing Toy.tstate Toy.toy_ops Toy.toy_imports
           Toy.bit_generator Toy.stream_up Toy.chain (Toy.settings (Some 42%Z))
           (Toy.device 2) Toy.toy_actions _ 20 4).
  - reflexivity.
  - intros s l s'. apply toy_successors_cost_more. reflexivity.
Defined.

(** C3 on the first pop of the plateau engine: the state [0], whose three
    successors are all pushed, as there is no upper bound yet. *)
Lemma non_goal_pop_witness :
  let e := Toy.table_engine Toy.plateau_funcs None false in
  exists e',
    fst (BFS.loop_body tt None e) = BFS.Continue 0 e' /\
    map (@payload nat) (BFS.pqueue (BFS.pq e')) =
      map (@payload nat) (BFS.pqueue (snd (BFS.pq_get (BFS.pq e)))) ++
      map (fun s => (s, 0 + 1, BFS.cost_func (BFS.funcs e) s tt))
        (filter (within_upperbound e tt) [1; 2; 3]) /\
    BFS.num_next_states e' = BFS.num_next_states e + List.length [1; 2; 3] /\
    BFS.num_enqueues e' =
      BFS.num_enqueues e + List.length (filter (within_upperbound e tt) [1; 2; 3]).
Proof.
  intro e.
  destruct (@non_goal_pop_enqueues_within_upperbound nat unit tt None e
              0 0 (0%Q, Cost.Fin 1) (snd (BFS.pq_get (BFS.pq e))) [1; 2; 3])
    as (e' & A & B & C & D & _).
  - vm_compute. reflexivity.
  - vm_compute. reflexivity.
  - vm_compute. reflexivity.
  - vm_compute. reflexivity.
  - exists e'. repeat split; assumption.
Defined.

(** C4 on the detour: the pops have the depths 0, 1, 1, and the last one is
    the backjump of the call. *)
Lemma backjumps_counted_witness :
  let e := Toy.table_engine Toy.detour_funcs None false in
  exists r e' tr,
    BFS.optimization_pass 10 e tt = Some (r, e', tr) /\
    BFS.num_backjumps e' =
      BFS.num_backjumps e + BFS.count_backjumps None (BFS.visited_depths tr) /\
    BFS.visited_depths tr = [0; 1; 1].
Proof.
  intro e.
  destruct (BFS.optimization_pass 10 e tt) as [[[r e'] tr] |] eqn:H.
  - exists r, e', tr. split; [reflexivity |].
    split; [exact (@backjumps_counted_within_a_pass nat unit 10 e tt r e' tr H) |].
    vm_compute in H. inversion H. reflexivity.
  - vm_compute in H. discriminate H.
Defined.


(** C6 on a [cx]: both functions go through the group TwoQubitGates. *)
Lemma next_state_dispatch_witness :
  let func_args :=
    {| CutOpt.entangling_gates := [Toy.cx 0 0 1 None];
       CutOpt.search_actions := Toy.toy_actions;
       CutOpt.max_gamma := None;
       CutOpt.qpu_width := 2 |} in
  let state : Toy.tstate := CutOpt.new_state 2 0%Z in
  CutOpt.cut_optimization_next_state_func state func_args =
    match group_successors state func_args (Toy.cx 0 0 1 None) "TwoQubitGates" with
    | Some l => Py.Ok l
    | None => Py.Raise Py.AssertionError
    end /\
  LOCutOpt.CutOptimizationNextStateFunc state func_args =
    match group_successors state func_args (Toy.cx 0 0 1 None) "TwoQubitGates" with
    | Some l => Py.Ok l
    | None => Py.Raise Py.TypeError
    end.
Proof.
  intros func_args state.
  destruct (@next_state_dispatch_on_arity Toy.tstate Toy.toy_ops Toy.toy_imports
              state func_args (Toy.cx 0 0 1 None) eq_refl) as (_ & A & B & _).
  split; [apply A | apply B]; reflexivity.
Defined.









Lemma wires_defined_reachable : reachable Toy.wires_defined.
Proof.
  apply (@reach_defineID Toy.wires_before_define 3 (Circ.Plain "z")).
  - unfold Toy.wires_before_define. repeat apply reach_getID. apply reach_empty.
  - reflexivity.
Qed.

(** C10 on a map in which the ID 3 was assigned by [defineID]: a new name
    gets the next free ID, 4. *)
Lemma getID_witness :
  fst (Circ.getID Toy.wires_defined (Circ.Plain "c")) = 4 /\
  Circ.getID (snd (Circ.getID Toy.wires_defined (Circ.Plain "c"))) (Circ.Plain "c")
    = (fst (Circ.getID Toy.wires_defined (Circ.Plain "c")),
       snd (Circ.getID Toy.wires_defined (Circ.Plain "c"))) /\
  Circ.getName (snd (Circ.getID Toy.wires_defined (Circ.Plain "c")))
    (fst (Circ.getID Toy.wires_defined (Circ.Plain "c"))) = Some (Circ.Plain "c").
Proof.
  destruct (@getID_idempotent_injective_invertible Toy.wires_defined
              (Circ.Plain "c") wires_defined_reachable) as (A & _ & C).
  split; [reflexivity |]. split; [exact A | exact C].
Defined.

(** ** The definitions on small inputs *)

(** Of two tuples of equal cost the deeper one is popped first. *)
Example heappop_prefers_depth :
  option_map (fun r => BFS.e_state (fst r))
    (BFS.heappop
       [{| BFS.e_cost := (1%Q, Cost.Fin 1); BFS.e_neg_depth := (-1)%Z;
           BFS.e_rand := (1 # 10)%Q; BFS.e_seq := 0; BFS.e_state := 7 |};
        {| BFS.e_cost := (1%Q, Cost.Fin 1); BFS.e_neg_depth := (-2)%Z;
           BFS.e_rand := (9 # 10)%Q; BFS.e_seq := 1; BFS.e_state := 8 |}])
  = Some 8.
Proof. reflexivity. Qed.

(** A cost with the width [np.inf] is above every cost with the same gamma
    and an integer width. *)
Example infinite_width_is_largest :
  Cost.leb (3%Q, Cost.Fin 5) (3%Q, Cost.Inf) = true /\
  Cost.gtb (3%Q, Cost.Fin 5) (3%Q, Cost.Inf) = false /\
  Cost.leb ((6 # 2)%Q, Cost.Inf) (3%Q, Cost.Fin 5) = false.
Proof. repeat split; reflexivity. Qed.

(** With a budget of no backjump the loop does not start: the engine returns
    [(None, None)], the start state stays on the queue and [min_reached]
    stays false. *)
Example no_backjump_budget :
  match BFS.optimization_pass 5 (Toy.table_engine Toy.fork_funcs (Some 0) false) tt with
  | Some (r, e', tr) =>
      r = BFS.Returned None /\ tr = [] /\
      BFS.qsize (BFS.pq e') = 1 /\ BFS.minimum_reached e' = false
  | None => False
  end.
Proof. vm_compute. repeat split; reflexivity. Qed.

(** One [cx] on a device one qubit wide: the only goal cuts the gate, at
    gamma 3 and width 1. *)
Example single_gate_is_cut :
  match CutOpt.init Toy.bit_generator Toy.stream_up
          {| CutOpt.get_num_qubits := 2;
             CutOpt.get_multiqubit_gates := [Toy.cx 0 0 1 None] |}
          (Toy.settings (Some 0%Z)) (Toy.device 1) Toy.toy_actions with
  | Py.Ok d =>
      map (fun r =>
             match r with
             | Py.Ok (Some s, c) => Some (Toy.t_trail s, c)
             | _ => None
             end)
        (CutOpt.run_passes 20 2 d)
      = [Some (["GateCut"%string], Some (3%Q, Cost.Fin 1)); None]
  | Py.Raise _ => False
  end.
Proof. vm_compute. reflexivity. Qed.

(** The chain of two gates: the greedy goal has the upper-bound gamma 3, and
    the cap on wire cuts is [min(4, ceil(log2(3 + 1) - 1)) = 1]. *)
Example wire_cut_cap_of_chain :
  match CutOpt.init Toy.bit_generator Toy.stream_up Toy.chain
          (Toy.settings (Some 0%Z)) (Toy.device 2) Toy.toy_actions with
  | Py.Ok d =>
      option_map Toy.t_ub (CutOpt.greedy_goal_state d) = Some 3%Q /\
      CutOpt.max_wire_cuts_circuit Toy.chain = 4%Z /\
      CutOpt.init_max_wire_cuts Toy.chain (CutOpt.greedy_goal_state d)
        (CutOpt.get_max_gamma (Toy.settings (Some 0%Z))) = 1%Z
  | Py.Raise _ => False
  end.
Proof. vm_compute. repeat split; reflexivity. Qed.

(** With a budget of no backjump the engine of the driver yields nothing:
    the first call returns the greedy goal state with its cost, the later
    ones [(None, None)]. *)
Example greedy_goal_is_first_result :
  match CutOpt.init Toy.bit_generator Toy.stream_up Toy.chain
          {| CutOpt.get_max_gamma := Some 1024%Q;
             CutOpt.get_max_backjumps := Some 0;
             CutOpt.get_seed := Some 0%Z |}
          (Toy.device 2) Toy.toy_actions with
  | Py.Ok d =>
      map (fun r =>
             match r with
             | Py.Ok (Some s, c) => Py.Ok (Some (Toy.t_trail s), c)
             | Py.Ok (None, c) => Py.Ok (None, c)
             | Py.Raise ex => Py.Raise ex
             end)
        (CutOpt.run_passes 20 3 d)
      = [Py.Ok (Some ["None"%string; "GateCut"%string], Some (3%Q, Cost.Fin 2));
         Py.Ok (None, None); Py.Ok (None, None)]
  | Py.Raise _ => False
  end.
Proof. vm_compute. reflexivity. Qed.

(** The wires [a], [b], [("cut", a)] and [("cut", ("cut", a))] have the keys
    0, 1, 1/2 and 3/4, and are numbered 0, 3, 1 and 2. *)
Example default_mapping_of_wires :
  map (fun nm => Qred (fst (Circ.sortOrder Toy.wires nm)))
    (Circ.getWireNames Toy.wires) = [0%Q; 1%Q; (1 # 2)%Q; (3 # 4)%Q] /\
  map (fun nm => Circ.dict_get Circ.name_eqb
                   (fst (Circ.defaultWireNameMapping Toy.wires)) nm)
    (Circ.getWireNames Toy.wires) = [Some 0; Some 3; Some 1; Some 2].
Proof. split; vm_compute; reflexivity. Qed.

(** [getID] skips an ID assigned by [defineID], and [defineID] refuses an ID
    or a name that is in use. *)
Example getID_after_defineID :
  fst (Circ.getID Toy.wires_defined (Circ.Plain "c")) = 4 /\
  Circ.getName Toy.wires_defined 3 = Some (Circ.Plain "z") /\
  Circ.defineID Toy.wires_defined 3 (Circ.Plain "y") = Py.Raise Py.AssertionError /\
  Circ.defineID Toy.wires_defined 9 (Circ.Plain "z") = Py.Raise Py.AssertionError.
Proof. repeat split; reflexivity. Qed.
(* ================================================================== *)
(** * Further properties of the code *)
(* ================================================================== *)

Import SearchProps.

(** ** The priority queue: what [get] returns *)

Section QueueOrder.

Variable State : Type.

Lemma cost_le_antisym_eqb (a b : Cost.t) :
  cost_le a b -> cost_le b a -> Cost.eqb a b = true.
Proof.
  unfold cost_le, Cost.eqb. intros [L | [E W]] [L' | [E' W']]; try lra.
  apply andb_true_iff. split.
  - apply Qeq_bool_iff. exact E.
  - apply width_eqb_eq. apply width_leb_antisym; assumption.
Qed.

Lemma ltb_not_le (a b : Cost.t) : Cost.ltb a b = true <-> ~ cost_le b a.
Proof. rewrite ltb_gtb. apply gtb_iff. Qed.

Lemma ltb_false_le (a b : Cost.t) : Cost.ltb a b = false -> cost_le b a.
Proof.
  rewrite ltb_gtb, gtb_negb_leb. intro H. apply negb_false_iff in H.
  apply leb_iff. exact H.
Qed.

Lemma depth_of_le (x y : BFS.entry State) :
  (BFS.e_neg_depth x <= BFS.e_neg_depth y)%Z -> depth_of y <= depth_of x.
Proof. unfold depth_of. intro H. lia. Qed.

Lemma entry_ltb_true_precedes (m x : BFS.entry State) :
  BFS.entry_ltb m x = true -> precedes m x.
Proof.
  unfold BFS.entry_ltb, precedes.
  destruct (Cost.eqb (BFS.e_cost m) (BFS.e_cost x)) eqn:E; simpl.
  - apply eqb_cost_le in E. destruct E as [E1 E2]. intro H. split; [exact E1 |].
    intros _. apply depth_of_le.
    destruct (Z.eqb (BFS.e_neg_depth m) (BFS.e_neg_depth x)) eqn:D; simpl in H.
    + apply Z.eqb_eq in D. lia.
    + apply Z.ltb_lt in H. lia.
  - intro H. apply ltb_not_le in H. split.
    + destruct (cost_le_total (BFS.e_cost m) (BFS.e_cost x)); tauto.
    + intro L. contradiction.
Qed.

Lemma entry_ltb_false_precedes (m x : BFS.entry State) :
  BFS.entry_ltb m x = false -> precedes x m.
Proof.
  unfold BFS.entry_ltb, precedes.
  destruct (Cost.eqb (BFS.e_cost m) (BFS.e_cost x)) eqn:E; simpl.
  - apply eqb_cost_le in E. destruct E as [E1 E2]. intro H. split; [exact E2 |].
    intros _. apply depth_of_le.
    destruct (Z.eqb (BFS.e_neg_depth m) (BFS.e_neg_depth x)) eqn:D; simpl in H.
    + apply Z.eqb_eq in D. lia.
    + apply Z.ltb_ge in H. lia.
  - intro H. apply ltb_false_le in H. split; [exact H |].
    intro L. rewrite (cost_le_antisym_eqb L H) in E. discriminate.
Qed.

Lemma precedes_trans (x y z : BFS.entry State) :
  precedes x y -> precedes y z -> precedes x z.
Proof.
  unfold precedes. intros [A1 A2] [B1 B2]. split.
  - eapply cost_le_trans; eauto.
  - intro L.
    assert (Lyx : cost_le (BFS.e_cost y) (BFS.e_cost x))
      by (eapply cost_le_trans; eauto).
    assert (Lzy : cost_le (BFS.e_cost z) (BFS.e_cost y))
      by (eapply cost_le_trans; eauto).
    specialize (A2 Lyx). specialize (B2 Lzy). lia.
Qed.

(** The tuple popped precedes every tuple left on the heap. *)
Lemma heappop_precedes (h : list (BFS.entry State)) m rest :
  BFS.heappop h = Some (m, rest) -> Forall (precedes m) rest.
Proof.
  revert m rest. induction h as [| x r IH]; simpl; intros m rest H; [discriminate |].
  destruct (BFS.heappop r) as [[m' r'] |] eqn:E.
  - specialize (IH _ _ eq_refl).
    destruct (BFS.entry_ltb m' x) eqn:L; inversion H; subst; clear H.
    + constructor; auto. apply entry_ltb_true_precedes; auto.
    + apply entry_ltb_false_precedes in L.
      apply heappop_perm in E. symmetry in E.
      eapply Permutation_Forall; [exact E |].
      constructor; auto.
      eapply Forall_impl; [| exact IH]. simpl. intros y Hy.
      eapply precedes_trans; eauto.
  - inversion H; subst. constructor.
Qed.

(** X1.  [get] on an empty queue returns [(None, None, None)] and leaves the
    queue as it is.  On any other queue it removes one tuple and returns its
    state, depth and cost; the random generator and the sequence counter are
    not touched; and the tuple returned costs no more than any tuple left,
    and is at least as deep as every tuple left that costs the same. *)
Theorem get_returns_cheapest_then_deepest (q : BFS.BestFirstPriorityQueue State) :
  match BFS.pq_get q with
  | (None, q') => BFS.qsize q = 0 /\ q' = q
  | (Some (s, d, c), q') =>
      exists best,
        payload best = (s, d, c) /\
        Permutation (BFS.pqueue q) (best :: BFS.pqueue q') /\
        BFS.qsize q = S (BFS.qsize q') /\
        BFS.random_gen q' = BFS.random_gen q /\
        BFS.unique q' = BFS.unique q /\
        Forall (fun y => cost_le c (BFS.e_cost y) /\
                         (cost_le (BFS.e_cost y) c -> depth_of y <= d))
          (BFS.pqueue q')
  end.
Proof.
  unfold BFS.pq_get.
  destruct (BFS.heappop (BFS.pqueue q)) as [[best rest] |] eqn:E.
  - exists best. cbn [BFS.pqueue BFS.random_gen BFS.unique].
    pose proof (heappop_perm _ E) as P.
    split; [reflexivity |]. split; [exact P |]. split.
    + unfold BFS.qsize. cbn [BFS.pqueue].
      rewrite (Permutation_length P). reflexivity.
    + split; [reflexivity |]. split; [reflexivity |].
      exact (heappop_precedes _ E).
  - apply heappop_nil in E. unfold BFS.qsize. rewrite E. split; reflexivity.
Qed.

(** *** The sequence counts *)

Lemma eqb_sym (a b : Cost.t) : Cost.eqb a b = Cost.eqb b a.
Proof.
  destruct (Cost.eqb a b) eqn:E; symmetry.
  - apply eqb_cost_le in E. apply cost_le_antisym_eqb; tauto.
  - destruct (Cost.eqb b a) eqn:E'; [| reflexivity].
    apply eqb_cost_le in E'. rewrite cost_le_antisym_eqb in E; tauto.
Qed.

Lemma Qeq_bool_sym (a b : Q) : Qeq_bool a b = Qeq_bool b a.
Proof.
  destruct (Qeq_bool a b) eqn:E; symmetry.
  - apply Qeq_bool_iff. apply Qeq_bool_iff in E. symmetry. exact E.
  - destruct (Qeq_bool b a) eqn:E'; [| reflexivity].
    apply Qeq_bool_iff in E'. symmetry in E'. apply Qeq_bool_iff in E'. congruence.
Qed.

(** Two tuples with different sequence counts are ordered by [<] one way or
    the other: the comparison does not get to the states. *)
Lemma entry_ltb_total (a b : BFS.entry State) :
  BFS.e_seq a <> BFS.e_seq b ->
  BFS.entry_ltb a b = true \/ BFS.entry_ltb b a = true.
Proof.
  intro N. unfold BFS.entry_ltb.
  rewrite (eqb_sym (BFS.e_cost b) (BFS.e_cost a)).
  destruct (Cost.eqb (BFS.e_cost a) (BFS.e_cost b)) eqn:E; simpl.
  - rewrite (Z.eqb_sym (BFS.e_neg_depth b) (BFS.e_neg_depth a)).
    destruct (Z.eqb (BFS.e_neg_depth a) (BFS.e_neg_depth b)) eqn:D; simpl.
    + rewrite (Qeq_bool_sym (BFS.e_rand b) (BFS.e_rand a)).
      destruct (Qeq_bool (BFS.e_rand a) (BFS.e_rand b)) eqn:R; simpl.
      * rewrite (Nat.eqb_sym (BFS.e_seq b) (BFS.e_seq a)).
        destruct (Nat.eqb_spec (BFS.e_seq a) (BFS.e_seq b)) as [X | X]; simpl;
          [contradiction |].
        destruct (Nat.ltb_spec (BFS.e_seq a) (BFS.e_seq b)); [left; reflexivity |].
        right. apply Nat.ltb_lt. lia.
      * unfold Cost.Qlt_bool.
        destruct (Qle_bool (BFS.e_rand b) (BFS.e_rand a)) eqn:L1; simpl; auto.
        destruct (Qle_bool (BFS.e_rand a) (BFS.e_rand b)) eqn:L2; simpl; auto.
        apply Qle_bool_iff in L1, L2.
        assert (X : BFS.e_rand a == BFS.e_rand b) by lra.
        apply Qeq_bool_iff in X. congruence.
    + destruct (Z.ltb_spec (BFS.e_neg_depth a) (BFS.e_neg_depth b)); [left; reflexivity |].
      right. apply Z.ltb_lt. apply Z.eqb_neq in D. lia.
  - destruct (Cost.ltb (BFS.e_cost a) (BFS.e_cost b)) eqn:L1; auto.
    destruct (Cost.ltb (BFS.e_cost b) (BFS.e_cost a)) eqn:L2; auto.
    apply ltb_false_le in L1, L2.
    rewrite (cost_le_antisym_eqb L2 L1) in E. discriminate.
Qed.

Lemma queue_reachable_counts (q : BFS.BestFirstPriorityQueue State) :
  queue_reachable q ->
  Forall (fun x => BFS.e_seq x < BFS.unique q) (BFS.pqueue q) /\
  NoDup (map (@BFS.e_seq State) (BFS.pqueue q)).
Proof.
  induction 1 as [g | q s d c R [IH1 IH2] | q R [IH1 IH2] | q R [IH1 IH2]].
  - simpl. split; constructor.
  - unfold BFS.pq_put, BFS.gen_random, BFS.heappush.
    cbn [BFS.pqueue BFS.unique]. split.
    + apply Forall_app. split.
      * eapply Forall_impl; [| exact IH1]. simpl. intros. lia.
      * constructor; [simpl; lia | constructor].
    + rewrite map_app. simpl.
      apply NoDup_app; [exact IH2 | repeat constructor; auto |].
      intros n Hn [Hm | []]. subst n.
      apply in_map_iff in Hn. destruct Hn as (x & Hx & Hin).
      rewrite Forall_forall in IH1. specialize (IH1 _ Hin). lia.
  - unfold BFS.pq_get.
    destruct (BFS.heappop (BFS.pqueue q)) as [[best rest] |] eqn:E; simpl;
      [| split; assumption].
    apply heappop_perm in E. split.
    + eapply Permutation_Forall in IH1; [| exact E].
      apply Forall_cons_iff in IH1. apply IH1.
    + apply (Permutation_map (@BFS.e_seq State)) in E.
      eapply Permutation_NoDup in IH2; [| exact E].
      simpl in IH2. apply NoDup_cons_iff in IH2. apply IH2.
  - simpl. split; constructor.
Qed.

(** X2.  In a queue built by [put], [get] and [clear], the tuples at two
    different positions carry different sequence counts, each below the
    counter of the queue; so [<] orders them one way or the other, and the
    tuple comparison is decided before it reaches the search states. *)
Theorem heap_comparisons_never_reach_the_states
  (q : BFS.BestFirstPriorityQueue State) (i j : nat) (a b : BFS.entry State) :
  queue_reachable q ->
  nth_error (BFS.pqueue q) i = Some a ->
  nth_error (BFS.pqueue q) j = Some b ->
  i <> j ->
  BFS.e_seq a <> BFS.e_seq b /\
  BFS.e_seq a < BFS.unique q /\
  (BFS.entry_ltb a b = true \/ BFS.entry_ltb b a = true).
Proof.
  intros R Ha Hb N.
  destruct (queue_reachable_counts R) as [F D].
  assert (S : BFS.e_seq a <> BFS.e_seq b).
  { intro X.
    assert (Ha' : nth_error (map (@BFS.e_seq State) (BFS.pqueue q)) i
                  = Some (BFS.e_seq a)) by (rewrite nth_error_map, Ha; reflexivity).
    assert (Hb' : nth_error (map (@BFS.e_seq State) (BFS.pqueue q)) j
                  = Some (BFS.e_seq a)) by (rewrite nth_error_map, Hb, X; reflexivity).
    apply N. eapply NoDup_nth_error; [exact D | | congruence].
    apply nth_error_Some. congruence. }
  split; [exact S |]. split.
  - rewrite Forall_forall in F. apply F. eapply nth_error_In; eauto.
  - apply entry_ltb_total. exact S.
Qed.

End QueueOrder.

(** X1 and X2 on a queue of three tuples: two of cost 1 at the depths 1 and
    2, and one of cost 2. *)
Lemma heap_comparisons_witness :
  let q := BFS.pq_put
             (BFS.pq_put
                (BFS.pq_put (BFS.pq_init nat (Toy.generator Toy.stream_up))
                   7 1 (1%Q, Cost.Fin 1))
                8 2 (1%Q, Cost.Fin 1))
             9 0 (2%Q, Cost.Fin 1) in
  fst (BFS.pq_get q) = Some (8, 2, (1%Q, Cost.Fin 1)) /\
  forall a b,
    nth_error (BFS.pqueue q) 0 = Some a -> nth_error (BFS.pqueue q) 2 = Some b ->
    BFS.e_seq a <> BFS.e_seq b /\ BFS.e_seq a < BFS.unique q /\
    (BFS.entry_ltb a b = true \/ BFS.entry_ltb b a = true).
Proof.
  intro q. split; [reflexivity |]. intros a b Ha Hb.
  apply (@heap_comparisons_never_reach_the_states nat q 0 2 a b).
  - unfold q. repeat apply queue_put. apply queue_init.
  - exact Ha.
  - exact Hb.
  - discriminate.
Defined.

(** ** The search engine: invariants of the loop *)

Section LoopRule.

Variables State Args : Type.

Let engine : Type := BFS.BestFirstSearch State Args.

(** A rule for the loop of [optimization_pass]: a property [I] of the pops
    made so far, the loop variable and the engine that holds at the loop
    test is kept by the iterations that go on; what holds when the loop is
    left, [R], holds of the call. *)
Lemma pass_loop_rule (args : Args)
  (I : list BFS.pop -> option nat -> engine -> Prop)
  (R : BFS.outcome State -> engine -> list BFS.pop -> Prop) :
  (forall acc prev e, I acc prev e -> BFS.loop_guard e = false ->
     R (BFS.Returned None) (BFS.loop_exit e) acc) ->
  (forall acc prev e, I acc prev e -> BFS.loop_guard e = true ->
     match BFS.loop_body args prev e with
     | (BFS.Continue d e', p) => I (acc ++ p) (Some d) e'
     | (BFS.Exit r e', p) => R r e' (acc ++ p)
     end) ->
  forall fuel acc prev e r e' tr,
    I acc prev e -> BFS.pass_loop fuel args prev e = Some (r, e', tr) ->
    R r e' (acc ++ tr).
Proof.
  intros Hexit Hbody.
  induction fuel as [| fuel IH]; intros acc prev e r e' tr Hi H; simpl in H.
  - destruct (BFS.loop_guard e) eqn:G; [discriminate |].
    inversion H; subst. rewrite app_nil_r. eauto.
  - destruct (BFS.loop_guard e) eqn:G;
      [| inversion H; subst; rewrite app_nil_r; eauto].
    specialize (Hbody acc prev e Hi G).
    destruct (BFS.loop_body args prev e) as [[d e1 | r1 e1] p].
    + destruct (BFS.pass_loop fuel args (Some d) e1) as [[[r2 e2] tr2] |] eqn:E;
        [| discriminate].
      inversion H; subst; clear H.
      rewrite app_assoc. eapply IH; eauto.
    + inversion H; subst; clear H. exact Hbody.
Qed.

(** The same for successive calls: [J] holds between the calls. *)
Lemma run_passes_rule (args : Args)
  (J : list (BFS.outcome State) -> list BFS.pop -> engine -> Prop) (fuel : nat) :
  (forall rs acc e r e' tr,
     J rs acc e -> BFS.optimization_pass fuel e args = Some (r, e', tr) ->
     J (rs ++ [r]) (acc ++ tr) e') ->
  forall n rs0 acc e rs e' tr,
    J rs0 acc e -> BFS.run_passes fuel n e args = Some (rs, e', tr) ->
    J (rs0 ++ rs) (acc ++ tr) e'.
Proof.
  intros Hpass.
  induction n as [| n IH]; intros rs0 acc e rs e' tr Hj H; simpl in H.
  - inversion H; subst. rewrite !app_nil_r. exact Hj.
  - destruct (BFS.optimization_pass fuel e args) as [[[r1 e1] tr1] |] eqn:E1;
      [| discriminate].
    destruct (BFS.run_passes fuel n e1 args) as [[[rs2 e2] tr2] |] eqn:E2;
      [| discriminate].
    inversion H; subst; clear H.
    change (r1 :: rs2) with ([r1] ++ rs2). rewrite !app_assoc.
    eapply IH; eauto.
Qed.

(** *** What the steps of an iteration leave alone *)

Lemma update_upperbound_goal_state_fields (e : engine) s args :
  let e' := BFS.update_upperbound_goal_state e s args in
  BFS.funcs e' = BFS.funcs e /\
  BFS.stop_at_first_min e' = BFS.stop_at_first_min e /\
  BFS.max_backjumps e' = BFS.max_backjumps e /\
  BFS.pq e' = BFS.pq e /\
  BFS.mincost_bound e' = BFS.mincost_bound e /\
  BFS.min_reached e' = BFS.min_reached e /\
  BFS.num_states_visited e' = BFS.num_states_visited e /\
  BFS.num_next_states e' = BFS.num_next_states e /\
  BFS.num_enqueues e' = BFS.num_enqueues e /\
  BFS.num_backjumps e' = BFS.num_backjumps e /\
  BFS.penultimate_stats e' = BFS.penultimate_stats e.
Proof.
  unfold BFS.update_upperbound_goal_state.
  destruct (BFS.upperbound_cost e) as [u |]; [| cbv zeta; repeat split; reflexivity].
  match goal with |- context [Cost.ltb ?a ?b] => destruct (Cost.ltb a b) end;
    cbv zeta; repeat split; reflexivity.
Qed.

Lemma update_minimum_reached_fields (e : engine) c :
  let e' := BFS.update_minimum_reached e c in
  BFS.funcs e' = BFS.funcs e /\
  BFS.stop_at_first_min e' = BFS.stop_at_first_min e /\
  BFS.max_backjumps e' = BFS.max_backjumps e /\
  BFS.pq e' = BFS.pq e /\
  BFS.upperbound_cost e' = BFS.upperbound_cost e /\
  BFS.mincost_bound e' = BFS.mincost_bound e /\
  BFS.num_states_visited e' = BFS.num_states_visited e /\
  BFS.num_next_states e' = BFS.num_next_states e /\
  BFS.num_enqueues e' = BFS.num_enqueues e /\
  BFS.num_backjumps e' = BFS.num_backjumps e /\
  BFS.penultimate_stats e' = BFS.penultimate_stats e.
Proof.
  unfold BFS.update_minimum_reached.
  destruct c as [c |]; [destruct (BFS.upperbound_cost e) as [u |] eqn:E;
                        [destruct (Cost.leb u c) |] |];
    cbv zeta; simpl; rewrite ?E; repeat split; reflexivity.
Qed.

Lemma counted_fields prev depth (e : engine) :
  let e' := counted prev depth e in
  BFS.funcs e' = BFS.funcs e /\
  BFS.stop_at_first_min e' = BFS.stop_at_first_min e /\
  BFS.max_backjumps e' = BFS.max_backjumps e /\
  BFS.pq e' = BFS.pq e /\
  BFS.upperbound_cost e' = BFS.upperbound_cost e /\
  BFS.mincost_bound e' = BFS.mincost_bound e /\
  BFS.min_reached e' = BFS.min_reached e /\
  BFS.num_states_visited e' = S (BFS.num_states_visited e) /\
  BFS.num_next_states e' = BFS.num_next_states e /\
  BFS.num_enqueues e' = BFS.num_enqueues e /\
  BFS.num_backjumps e' = BFS.num_backjumps e + BFS.count_backjumps prev [depth] /\
  BFS.penultimate_stats e' = BFS.penultimate_stats e.
Proof.
  unfold counted.
  destruct prev as [p |]; simpl; [destruct (depth <=? p) |]; simpl;
    repeat split; auto; lia.
Qed.

Lemma loop_exit_fields (e : engine) :
  let e' := BFS.loop_exit e in
  BFS.funcs e' = BFS.funcs e /\
  BFS.stop_at_first_min e' = BFS.stop_at_first_min e /\
  BFS.max_backjumps e' = BFS.max_backjumps e /\
  BFS.pq e' = BFS.pq e /\
  BFS.upperbound_cost e' = BFS.upperbound_cost e /\
  BFS.mincost_bound e' = BFS.mincost_bound e /\
  BFS.num_states_visited e' = BFS.num_states_visited e /\
  BFS.num_next_states e' = BFS.num_next_states e /\
  BFS.num_enqueues e' = BFS.num_enqueues e /\
  BFS.num_backjumps e' = BFS.num_backjumps e /\
  BFS.penultimate_stats e' = BFS.penultimate_stats e.
Proof.
  unfold BFS.loop_exit. destruct (BFS.qsize (BFS.pq e) =? 0);
    cbv zeta; repeat split; reflexivity.
Qed.

Lemma refresh_mincost_bound_fields (e : engine) args :
  let e' := BFS.refresh_mincost_bound e args in
  BFS.funcs e' = BFS.funcs e /\
  BFS.stop_at_first_min e' = BFS.stop_at_first_min e /\
  BFS.max_backjumps e' = BFS.max_backjumps e /\
  BFS.pq e' = BFS.pq e /\
  BFS.upperbound_cost e' = BFS.upperbound_cost e /\
  BFS.mincost_bound e' = refreshed_bound e args /\
  BFS.min_reached e' = BFS.min_reached e /\
  BFS.num_states_visited e' = BFS.num_states_visited e /\
  BFS.num_next_states e' = BFS.num_next_states e /\
  BFS.num_enqueues e' = BFS.num_enqueues e /\
  BFS.num_backjumps e' = BFS.num_backjumps e /\
  BFS.penultimate_stats e' = BFS.penultimate_stats e.
Proof.
  unfold BFS.refresh_mincost_bound, refreshed_bound.
  destruct (BFS.mincost_bound_func (BFS.funcs e));
    cbv zeta; repeat split; reflexivity.
Qed.

Lemma popped_fields (e : engine) q c :
  let e' := BFS.update_minimum_reached (BFS.set_pq e q) c in
  BFS.funcs e' = BFS.funcs e /\
  BFS.stop_at_first_min e' = BFS.stop_at_first_min e /\
  BFS.max_backjumps e' = BFS.max_backjumps e /\
  BFS.pq e' = q /\
  BFS.upperbound_cost e' = BFS.upperbound_cost e /\
  BFS.mincost_bound e' = BFS.mincost_bound e /\
  BFS.num_states_visited e' = BFS.num_states_visited e /\
  BFS.num_next_states e' = BFS.num_next_states e /\
  BFS.num_enqueues e' = BFS.num_enqueues e /\
  BFS.num_backjumps e' = BFS.num_backjumps e /\
  BFS.penultimate_stats e' = BFS.penultimate_stats e.
Proof.
  pose proof (update_minimum_reached_fields (BFS.set_pq e q) c) as U.
  cbv zeta in *.
  destruct U as (U1 & U2 & U3 & U4 & U5 & U6 & U7 & U8 & U9 & U10 & U11).
  rewrite U1, U2, U3, U4, U5, U6, U7, U8, U9, U10, U11.
  repeat split; reflexivity.
Qed.

Lemma at_goal_test_fields (e : engine) q prev depth cost :
  let e' := at_goal_test e q prev depth cost in
  BFS.funcs e' = BFS.funcs e /\
  BFS.stop_at_first_min e' = BFS.stop_at_first_min e /\
  BFS.max_backjumps e' = BFS.max_backjumps e /\
  BFS.pq e' = q /\
  BFS.upperbound_cost e' = BFS.upperbound_cost e /\
  BFS.mincost_bound e' = BFS.mincost_bound e /\
  BFS.num_states_visited e' = S (BFS.num_states_visited e) /\
  BFS.num_next_states e' = BFS.num_next_states e /\
  BFS.num_enqueues e' = BFS.num_enqueues e /\
  BFS.num_backjumps e' = BFS.num_backjumps e + BFS.count_backjumps prev [depth] /\
  BFS.penultimate_stats e' = BFS.penultimate_stats e.
Proof.
  unfold at_goal_test. cbv zeta.
  pose proof (counted_fields prev depth
                (BFS.update_minimum_reached (BFS.set_pq e q) (Some cost))) as C.
  pose proof (update_minimum_reached_fields (BFS.set_pq e q) (Some cost)) as U.
  cbv zeta in C, U.
  destruct C as (C1 & C2 & C3 & C4 & C5 & C6 & C7 & C8 & C9 & C10 & C11 & C12).
  destruct U as (U1 & U2 & U3 & U4 & U5 & U6 & U7 & U8 & U9 & U10 & U11).
  rewrite C1, C2, C3, C4, C5, C6, C8, C9, C10, C11, C12.
  rewrite U1, U2, U3, U4, U5, U6, U7, U8, U9, U10, U11.
  simpl. repeat split; reflexivity.
Qed.

Lemma at_goal_return_fields (e3 : engine) state cost args :
  let e' := at_goal_return e3 state cost args in
  BFS.funcs e' = BFS.funcs e3 /\
  BFS.stop_at_first_min e' = BFS.stop_at_first_min e3 /\
  BFS.max_backjumps e' = BFS.max_backjumps e3 /\
  BFS.pq e' = BFS.pq e3 /\
  BFS.mincost_bound e' = BFS.mincost_bound e3 /\
  BFS.num_states_visited e' = BFS.num_states_visited e3 /\
  BFS.num_next_states e' = BFS.num_next_states e3 /\
  BFS.num_enqueues e' = BFS.num_enqueues e3 /\
  BFS.num_backjumps e' = BFS.num_backjumps e3 /\
  BFS.penultimate_stats e' = Some (BFS.get_stats e3).
Proof.
  unfold at_goal_return. cbv zeta.
  match goal with
  | |- context [BFS.update_minimum_reached ?a ?b] =>
      pose proof (update_minimum_reached_fields a b) as U
  end.
  pose proof (update_upperbound_goal_state_fields
                (BFS.set_penultimate_stats e3 (Some (BFS.get_stats e3)))
                state args) as G.
  cbv zeta in U, G.
  destruct U as (U1 & U2 & U3 & U4 & U5 & U6 & U7 & U8 & U9 & U10 & U11).
  destruct G as (G1 & G2 & G3 & G4 & G5 & G6 & G7 & G8 & G9 & G10 & G11).
  rewrite U1, U2, U3, U4, U6, U7, U8, U9, U10, U11.
  rewrite G1, G2, G3, G4, G5, G7, G8, G9, G10, G11.
  simpl. repeat split; reflexivity.
Qed.

(** The ways an iteration can go. *)
Lemma loop_body_cases (args : Args) (prev : option nat) (e : engine) :
  (exists q,
     BFS.pq_get (BFS.pq e) = (None, q) /\
     BFS.loop_body args prev e =
       (BFS.Exit (BFS.Returned None)
          (BFS.update_minimum_reached (BFS.set_pq e q) None), [])) \/
  (exists state depth cost q,
     BFS.pq_get (BFS.pq e) = (Some (state, depth, cost), q) /\
     let e1 := BFS.update_minimum_reached (BFS.set_pq e q) (Some cost) in
     let e3 := at_goal_test e q prev depth cost in
     (BFS.cost_bounds_exceeded e1 (Some cost) = true /\
      BFS.loop_body args prev e =
        (BFS.Exit (BFS.Returned None) e1, [(depth, false)])) \/
     (BFS.cost_bounds_exceeded e1 (Some cost) = false /\
      BFS.goal_state_func (BFS.funcs e) state args = true /\
      BFS.loop_body args prev e =
        (BFS.Exit (BFS.Returned (Some (state, cost)))
           (at_goal_return e3 state cost args), [(depth, true)])) \/
     (exists ex,
        BFS.cost_bounds_exceeded e1 (Some cost) = false /\
        BFS.goal_state_func (BFS.funcs e) state args = false /\
        BFS.next_state_func (BFS.funcs e) state args = Py.Raise ex /\
        BFS.loop_body args prev e =
          (BFS.Exit (BFS.Raised ex) e3, [(depth, true)])) \/
     (exists l,
        BFS.cost_bounds_exceeded e1 (Some cost) = false /\
        BFS.goal_state_func (BFS.funcs e) state args = false /\
        BFS.next_state_func (BFS.funcs e) state args = Py.Ok l /\
        BFS.loop_body args prev e =
          (BFS.Continue depth (BFS.put e3 l (depth + 1) args), [(depth, true)]))).
Proof.
  rewrite loop_body_unfold.
  destruct (BFS.pq_get (BFS.pq e)) as [[[[state depth] cost] |] q] eqn:G.
  - right. exists state, depth, cost, q. split; [reflexivity |].
    cbv zeta. fold (at_goal_test e q prev depth cost).
    pose proof (at_goal_test_fields e q prev depth cost) as F. cbv zeta in F.
    destruct F as (Ff & _). rewrite Ff.
    destruct (BFS.cost_bounds_exceeded
                (BFS.update_minimum_reached (BFS.set_pq e q) (Some cost))
                (Some cost)) eqn:X; [left; auto |].
    right.
    destruct (BFS.goal_state_func (BFS.funcs e) state args) eqn:Go;
      [left; auto |].
    right.
    destruct (BFS.next_state_func (BFS.funcs e) state args) as [l | ex] eqn:N.
    + right. exists l. auto.
    + left. exists ex. auto.
  - left. exists q. auto.
Qed.

End LoopRule.

(** ** The statistics of the search *)

Section Statistics.

Variables State Args : Type.

Let engine : Type := BFS.BestFirstSearch State Args.

Lemma pq_get_qsize (q : BFS.BestFirstPriorityQueue State) p q' :
  BFS.pq_get q = (Some p, q') -> BFS.qsize q = S (BFS.qsize q').
Proof.
  unfold BFS.pq_get, BFS.qsize.
  destruct (BFS.heappop (BFS.pqueue q)) as [[best rest] |] eqn:E; [| discriminate].
  intro H. inversion H; subst; clear H. simpl.
  apply heappop_perm in E. rewrite (Permutation_length E). reflexivity.
Qed.

Lemma pq_get_empty (q : BFS.BestFirstPriorityQueue State) q' :
  BFS.pq_get q = (None, q') -> q' = q /\ BFS.qsize q = 0.
Proof.
  unfold BFS.pq_get, BFS.qsize.
  destruct (BFS.heappop (BFS.pqueue q)) as [[best rest] |] eqn:E; [discriminate |].
  intro H. inversion H; subst. apply heappop_nil in E. rewrite E. auto.
Qed.

(** What [put] does to the counters and to the size of the queue. *)
Lemma put_counts (e : engine) (l : list State) depth args :
  let e' := BFS.put e l depth args in
  let pushed := List.length (filter (within_upperbound e args) l) in
  BFS.qsize (BFS.pq e') = BFS.qsize (BFS.pq e) + pushed /\
  BFS.num_enqueues e' = BFS.num_enqueues e + pushed /\
  BFS.num_next_states e' = BFS.num_next_states e + List.length l /\
  BFS.num_states_visited e' = BFS.num_states_visited e /\
  BFS.num_backjumps e' = BFS.num_backjumps e /\
  pushed <= List.length l.
Proof.
  cbv zeta. destruct (put_spec e l depth args) as (F & Q & N & M).
  destruct F as (_ & _ & _ & _ & _ & _ & Fv & Fb & _).
  split.
  - unfold BFS.qsize.
    rewrite <- (length_map (@payload State)
                  (BFS.pqueue (BFS.pq (BFS.put e l depth args)))).
    rewrite Q, length_app, !length_map. reflexivity.
  - repeat split; auto. apply List.filter_length_le.
Qed.

Lemma visited_depths_app (a b : list BFS.pop) :
  BFS.visited_depths (a ++ b) = BFS.visited_depths a ++ BFS.visited_depths b.
Proof. unfold BFS.visited_depths. rewrite filter_app, map_app. reflexivity. Qed.

(** The invariant of the loop: the statistics account for the pops, and a
    pop of the running call has been counted as visited. *)
Let counted_pops (acc : list BFS.pop) (prev : option nat) (e : engine) : Prop :=
  accounted e acc /\
  (prev <> None -> BFS.num_backjumps e < BFS.num_states_visited e).

Lemma loop_body_accounted (args : Args) acc prev (e : engine) :
  counted_pops acc prev e ->
  match BFS.loop_body args prev e with
  | (BFS.Continue d e', p) => counted_pops (acc ++ p) (Some d) e'
  | (BFS.Exit r e', p) => accounted e' (acc ++ p)
  end.
Proof.
  intros [(Av & Aq & Ae & Ab) Hp].
  assert (Bj : forall depth,
             BFS.num_backjumps e + BFS.count_backjumps prev [depth]
             <= BFS.num_states_visited e).
  { intro depth. destruct prev as [p |]; simpl.
    - assert (X : BFS.num_backjumps e < BFS.num_states_visited e)
        by (apply Hp; discriminate).
      destruct (depth <=? p); lia.
    - lia. }
  destruct (loop_body_cases args prev e) as [(q & G & L) | (s & d & c & q & G & L)].
  - rewrite L. apply pq_get_empty in G. destruct G as [Gq G0]. subst q.
    pose proof (popped_fields e (BFS.pq e) None) as U.
    cbv zeta in U.
    destruct U as (_ & _ & _ & Uq & _ & _ & Uv & Un & Ue & Ub & _).
    unfold accounted. rewrite Uq, Uv, Un, Ue, Ub, app_nil_r. simpl.
    repeat split; assumption.
  - cbv zeta in L. apply pq_get_qsize in G.
    pose proof (popped_fields e q (Some c)) as U.
    pose proof (at_goal_test_fields e q prev d c) as T.
    cbv zeta in U, T.
    destruct U as (_ & _ & _ & Uq & _ & _ & Uv & Un & Ue & Ub & _).
    destruct T as (_ & _ & _ & Tq & _ & _ & Tv & Tn & Te & Tb & _).
    destruct L as [(X & L) | [(X & Go & L) | [(ex & X & Go & N & L) | (l & X & Go & N & L)]]];
      rewrite L; clear L.
    + unfold accounted. rewrite Uq, Uv, Un, Ue, Ub.
      rewrite visited_depths_app, !length_app. simpl.
      repeat split; try assumption; lia.
    + pose proof (at_goal_return_fields (at_goal_test e q prev d c) s c args) as R.
      cbv zeta in R.
      destruct R as (_ & _ & _ & Rq & _ & Rv & Rn & Re & Rb & _).
      unfold accounted. rewrite Rq, Rv, Rn, Re, Rb, Tq, Tv, Tn, Te, Tb.
      rewrite visited_depths_app, !length_app. simpl.
      specialize (Bj d). simpl in Bj. repeat split; lia.
    + unfold accounted. rewrite Tq, Tv, Tn, Te, Tb.
      rewrite visited_depths_app, !length_app. simpl.
      specialize (Bj d). simpl in Bj. repeat split; lia.
    + pose proof (put_counts (at_goal_test e q prev d c) l (d + 1) args) as P.
      cbv zeta in P. destruct P as (Pq & Pe & Pn & Pv & Pb & Pl).
      unfold counted_pops, accounted. rewrite Pq, Pe, Pn, Pv, Pb, Tq, Tv, Tn, Te, Tb.
      rewrite visited_depths_app, !length_app. simpl.
      specialize (Bj d). simpl in Bj. repeat split; lia.
Qed.

Lemma optimization_pass_accounted fuel (e : engine) args acc r e' tr :
  accounted e acc ->
  BFS.optimization_pass fuel e args = Some (r, e', tr) ->
  accounted e' (acc ++ tr).
Proof.
  intros A H. unfold BFS.optimization_pass in H.
  apply (@pass_loop_rule State Args args counted_pops
           (fun _ e' tr' => accounted e' tr')) with (acc := acc) in H; auto.
  - intros acc0 prev e0 [(Av & Aq & Ae & Ab) _] _.
    pose proof (loop_exit_fields e0) as X. cbv zeta in X.
    destruct X as (_ & _ & _ & Xq & _ & _ & Xv & Xn & Xe & Xb & _).
    unfold accounted. rewrite Xq, Xv, Xn, Xe, Xb. repeat split; assumption.
  - intros acc0 prev e0 Hi _. apply loop_body_accounted. exact Hi.
  - pose proof (refresh_mincost_bound_fields e args) as X. cbv zeta in X.
    destruct X as (_ & _ & _ & Xq & _ & _ & _ & Xv & Xn & Xe & Xb & _).
    destruct A as (Av & Aq & Ae & Ab).
    split; [| intro N; contradiction].
    unfold accounted. rewrite Xq, Xv, Xn, Xe, Xb. repeat split; assumption.
Qed.

Lemma initialize_accounted (e0 : engine) inits args :
  accounted (BFS.initialize e0 inits args) [].
Proof.
  unfold BFS.initialize.
  match goal with
  | |- accounted (BFS.put ?e9 _ _ _) _ =>
      pose proof (put_counts e9 inits 0 args) as P;
      assert (W : filter (within_upperbound e9 args) inits = inits)
  end.
  { apply forallb_filter_id. apply forallb_forall. intros s _. reflexivity. }
  cbv zeta in P. rewrite W in P. destruct P as (Pq & Pe & Pn & Pv & Pb & _).
  unfold accounted. rewrite Pq, Pe, Pn, Pv, Pb. simpl.
  repeat split; lia.
Qed.

(** X3.  After [initialize] and any number of calls of [optimization_pass],
    the statistics account for every state: [num_states_visited] is the
    number of pops that passed the cost-bound test, every state counted in
    [num_enqueues] is still on the queue or has been popped, at most the
    states counted in [num_next_states] were enqueued, and [num_backjumps]
    is below [num_states_visited] unless both are zero. *)
Theorem statistics_account_for_every_state (fuel n : nat) (e0 : engine)
  (inits : list State) (args : Args) rs e' tr :
  BFS.run_passes fuel n (BFS.initialize e0 inits args) args = Some (rs, e', tr) ->
  BFS.num_states_visited e' = List.length (BFS.visited_depths tr) /\
  BFS.qsize (BFS.pq e') + List.length tr = BFS.num_enqueues e' /\
  BFS.num_enqueues e' <= BFS.num_next_states e' /\
  BFS.num_backjumps e' <= Nat.pred (BFS.num_states_visited e').
Proof.
  intro H.
  apply (@run_passes_rule State Args args (fun _ acc e => accounted e acc) fuel)
    with (rs0 := []) (acc := []) in H.
  - exact H.
  - intros rs1 acc e r e1 tr1 A P. eapply optimization_pass_accounted; eauto.
  - apply initialize_accounted.
Qed.

End Statistics.

(** X3 on the plateau engine, called three times: six states were generated
    and enqueued, three visited, and three are left on the queue. *)
Lemma statistics_witness :
  exists rs e' tr,
    BFS.run_passes 10 3
      (BFS.initialize
         (BFS.init Toy.plateau_funcs (Toy.generator Toy.stream_up) None false)
         [0] tt) tt
      = Some (rs, e', tr) /\
    BFS.get_stats e' = (List.length (BFS.visited_depths tr),
                        BFS.num_next_states e',
                        BFS.qsize (BFS.pq e') + List.length tr,
                        BFS.num_backjumps e') /\
    BFS.num_backjumps e' <= Nat.pred (BFS.num_states_visited e').
Proof.
  destruct (BFS.run_passes 10 3
              (BFS.initialize
                 (BFS.init Toy.plateau_funcs (Toy.generator Toy.stream_up) None false)
                 [0] tt) tt)
    as [[[rs e'] tr] |] eqn:E; [| vm_compute in E; discriminate].
  exists rs, e', tr. split; [reflexivity |].
  destruct (@statistics_account_for_every_state nat unit 10 3
              (BFS.init Toy.plateau_funcs (Toy.generator Toy.stream_up) None false)
              [0] tt rs e' tr E) as (A & B & _ & D).
  split; [unfold BFS.get_stats; rewrite A, B; reflexivity | exact D].
Defined.

(** ** The cost bounds of the search *)

Section Bounds.

Variables State Args : Type.

Let engine : Type := BFS.BestFirstSearch State Args.

Lemma bound_le_refl (a : option Cost.t) : bound_le a a.
Proof. destruct a; simpl; auto using cost_le_refl. Qed.

Lemma bound_le_trans (a b c : option Cost.t) :
  bound_le a b -> bound_le b c -> bound_le a c.
Proof.
  destruct c as [z |]; simpl; auto.
  destruct b as [y |]; simpl; [| tauto].
  destruct a as [x |]; simpl; [| tauto].
  intros. eapply cost_le_trans; eauto.
Qed.

Lemma ltb_true_le (a b : Cost.t) : Cost.ltb a b = true -> cost_le a b.
Proof.
  intro H. apply ltb_not_le in H.
  destruct (cost_le_total a b); tauto.
Qed.

Lemma update_upperbound_cost_le (e : engine) (b : option Cost.t) :
  bound_le (BFS.upperbound_cost (BFS.update_upperbound_cost e b))
    (BFS.upperbound_cost e) /\
  bound_le (BFS.upperbound_cost (BFS.update_upperbound_cost e b)) b.
Proof.
  unfold BFS.update_upperbound_cost.
  destruct b as [b |]; [| split; [apply bound_le_refl | exact I]].
  destruct (BFS.upperbound_cost e) as [u |] eqn:E.
  - destruct (Cost.ltb b u) eqn:L; simpl; rewrite ?E; simpl.
    + split; [apply ltb_true_le; exact L | apply cost_le_refl].
    + split; [apply cost_le_refl | apply ltb_false_le; exact L].
  - simpl. split; [exact I | apply cost_le_refl].
Qed.

(** The bound a goal state gives: its upper-bound cost, or its cost when
    there is no upper-bound function. *)
Lemma update_upperbound_goal_state_le (e : engine) s args :
  bound_le (BFS.upperbound_cost (BFS.update_upperbound_goal_state e s args))
    (BFS.upperbound_cost e) /\
  bound_le (BFS.upperbound_cost (BFS.update_upperbound_goal_state e s args))
    (Some (goal_bound (BFS.funcs e) s args)).
Proof.
  unfold BFS.update_upperbound_goal_state, goal_bound.
  set (bound := match BFS.upperbound_cost_func (BFS.funcs e) with
                | Some f => f s args
                | None => BFS.cost_func (BFS.funcs e) s args
                end).
  destruct (BFS.upperbound_cost e) as [u |] eqn:E.
  - destruct (Cost.ltb bound u) eqn:L; simpl; rewrite ?E; simpl.
    + split; [apply ltb_true_le; exact L | apply cost_le_refl].
    + split; [apply cost_le_refl | apply ltb_false_le; exact L].
  - simpl. split; [exact I | apply cost_le_refl].
Qed.

Lemma not_exceeded (e : engine) (c : Cost.t) :
  BFS.cost_bounds_exceeded e (Some c) = false ->
  bound_le (Some c) (BFS.mincost_bound e) /\
  bound_le (Some c) (BFS.upperbound_cost e).
Proof.
  unfold BFS.cost_bounds_exceeded. intro H.
  apply orb_false_iff in H. destruct H as [H1 H2].
  split.
  - destruct (BFS.mincost_bound e) as [m |]; simpl; auto.
    rewrite gtb_negb_leb in H1. apply negb_false_iff in H1. apply leb_iff. exact H1.
  - destruct (BFS.upperbound_cost e) as [u |]; simpl; auto.
    rewrite gtb_negb_leb in H2. apply negb_false_iff in H2. apply leb_iff. exact H2.
Qed.

(** What a call keeps and what it returns, for the bounds [ub] and [mb] in
    force during the call. *)
Let pass_bounded (sf : BFS.SearchFunctions State Args) (args : Args)
  (ub mb : option Cost.t) (r : BFS.outcome State) (e' : engine) : Prop :=
  BFS.funcs e' = sf /\
  BFS.mincost_bound e' = mb /\
  bound_le (BFS.upperbound_cost e') ub /\
  match r with
  | BFS.Returned (Some (s, c)) =>
      BFS.goal_state_func sf s args = true /\
      bound_le (Some c) ub /\ bound_le (Some c) mb /\
      bound_le (BFS.upperbound_cost e') (Some (goal_bound sf s args))
  | _ => True
  end.

Lemma pass_loop_bounded fuel args prev (e : engine) r e' tr :
  BFS.pass_loop fuel args prev e = Some (r, e', tr) ->
  pass_bounded (BFS.funcs e) args (BFS.upperbound_cost e) (BFS.mincost_bound e)
    r e'.
Proof.
  intro H.
  apply (@pass_loop_rule State Args args
           (fun _ _ e1 => BFS.funcs e1 = BFS.funcs e /\
                          BFS.mincost_bound e1 = BFS.mincost_bound e /\
                          BFS.upperbound_cost e1 = BFS.upperbound_cost e)
           (fun r1 e1 _ =>
              pass_bounded (BFS.funcs e) args (BFS.upperbound_cost e)
                (BFS.mincost_bound e) r1 e1))
    with (acc := []) in H; auto.
  - intros acc p0 e0 (If & Im & Iu) _.
    pose proof (loop_exit_fields e0) as X. cbv zeta in X.
    destruct X as (Xf & _ & _ & _ & Xu & Xm & _).
    unfold pass_bounded. rewrite Xf, Xu, Xm, If, Im, Iu.
    repeat split; auto using bound_le_refl.
  - intros acc p0 e0 (If & Im & Iu) _.
    destruct (loop_body_cases args p0 e0) as [(q & G & L) | (s & d & c & q & G & L)].
    + rewrite L.
      pose proof (popped_fields e0 q None) as U. cbv zeta in U.
      destruct U as (Uf & _ & _ & _ & Uu & Um & _).
      unfold pass_bounded. rewrite Uf, Uu, Um, If, Im, Iu.
      repeat split; auto using bound_le_refl.
    + cbv zeta in L.
      pose proof (popped_fields e0 q (Some c)) as U.
      pose proof (at_goal_test_fields e0 q p0 d c) as T.
      cbv zeta in U, T.
      destruct U as (Uf & _ & _ & _ & Uu & Um & _).
      destruct T as (Tf & _ & _ & _ & Tu & Tm & _).
      destruct L as [(X & L) | [(X & Go & L) | [(ex & X & Go & N & L) | (l & X & Go & N & L)]]];
        rewrite L; clear L.
      * unfold pass_bounded. rewrite Uf, Uu, Um, If, Im, Iu.
        repeat split; auto using bound_le_refl.
      * apply not_exceeded in X. rewrite Uu, Um, Iu, Im in X. destruct X as [Xm Xu].
        pose proof (at_goal_return_fields (at_goal_test e0 q p0 d c) s c args) as R.
        cbv zeta in R. destruct R as (Rf & _ & _ & _ & Rm & _).
        assert (Ru : BFS.upperbound_cost (at_goal_return (at_goal_test e0 q p0 d c) s c args)
                     = BFS.upperbound_cost
                         (BFS.update_upperbound_goal_state
                            (BFS.set_penultimate_stats (at_goal_test e0 q p0 d c)
                               (Some (BFS.get_stats (at_goal_test e0 q p0 d c))))
                            s args)).
        { unfold at_goal_return.
          match goal with
          | |- context [BFS.update_minimum_reached ?a ?b] =>
              pose proof (update_minimum_reached_fields a b) as M
          end.
          cbv zeta in M. destruct M as (_ & _ & _ & _ & Mu & _). exact Mu. }
        pose proof (update_upperbound_goal_state_le
                      (BFS.set_penultimate_stats (at_goal_test e0 q p0 d c)
                         (Some (BFS.get_stats (at_goal_test e0 q p0 d c))))
                      s args) as [B1 B2].
        change (BFS.upperbound_cost
                  (BFS.set_penultimate_stats (at_goal_test e0 q p0 d c)
                     (Some (BFS.get_stats (at_goal_test e0 q p0 d c)))))
          with (BFS.upperbound_cost (at_goal_test e0 q p0 d c)) in B1.
        change (BFS.funcs
                  (BFS.set_penultimate_stats (at_goal_test e0 q p0 d c)
                     (Some (BFS.get_stats (at_goal_test e0 q p0 d c)))))
          with (BFS.funcs (at_goal_test e0 q p0 d c)) in B2.
        rewrite Tu, Iu in B1. rewrite Tf, If in B2.
        unfold pass_bounded. rewrite Rf, Rm, Ru, Tf, Tm, If, Im.
        rewrite If in Go. repeat split; auto.
      * unfold pass_bounded. rewrite Tf, Tu, Tm, If, Im, Iu.
        repeat split; auto using bound_le_refl.
      * destruct (put_spec (at_goal_test e0 q p0 d c) l (d + 1) args) as (F & _).
        destruct F as (Pf & _ & _ & Pu & Pm & _).
        rewrite Pf, Pu, Pm, Tf, Tu, Tm. auto.
Qed.

Lemma optimization_pass_bounded fuel (e : engine) args r e' tr :
  BFS.optimization_pass fuel e args = Some (r, e', tr) ->
  pass_bounded (BFS.funcs e) args (BFS.upperbound_cost e) (refreshed_bound e args)
    r e' /\
  refreshed_bound e' args = refreshed_bound e args.
Proof.
  unfold BFS.optimization_pass. intro H.
  apply pass_loop_bounded in H.
  pose proof (refresh_mincost_bound_fields e args) as X. cbv zeta in X.
  destruct X as (Xf & _ & _ & _ & Xu & Xm & _).
  rewrite Xf, Xu, Xm in H. split; [exact H |].
  destruct H as (Hf & Hm & _).
  unfold refreshed_bound at 1. rewrite Hf, Hm.
  unfold refreshed_bound.
  destruct (BFS.mincost_bound_func (BFS.funcs e)); reflexivity.
Qed.

(** X4.  The upper bound of the engine only tightens.  [update_upperbound_cost]
    leaves a bound that is no looser than the old one and than the bound
    given ([None] changes nothing), [update_upperbound_goal_state] one that
    is no looser than the old one and than the bound the goal state gives,
    and after any number of calls of [optimization_pass] the bound is no
    looser than before them; a bound that is set is never cleared. *)
Theorem upper_bound_only_tightens (e : engine) (args : Args) :
  (forall b,
     bound_le (BFS.upperbound_cost (BFS.update_upperbound_cost e b))
       (BFS.upperbound_cost e) /\
     bound_le (BFS.upperbound_cost (BFS.update_upperbound_cost e b)) b) /\
  (forall s,
     bound_le (BFS.upperbound_cost (BFS.update_upperbound_goal_state e s args))
       (BFS.upperbound_cost e) /\
     bound_le (BFS.upperbound_cost (BFS.update_upperbound_goal_state e s args))
       (Some (goal_bound (BFS.funcs e) s args))) /\
  (forall fuel n rs e' tr,
     BFS.run_passes fuel n e args = Some (rs, e', tr) ->
     bound_le (BFS.upperbound_cost e') (BFS.upperbound_cost e)).
Proof.
  split; [intro b; apply update_upperbound_cost_le |].
  split; [intro s; apply update_upperbound_goal_state_le |].
  intros fuel n rs e' tr H.
  apply (@run_passes_rule State Args args
           (fun _ _ e1 => bound_le (BFS.upperbound_cost e1) (BFS.upperbound_cost e))
           fuel) with (rs0 := []) (acc := []) in H.
  - exact H.
  - intros rs1 acc e1 r e2 tr1 B P.
    apply optimization_pass_bounded in P. destruct P as ((_ & _ & Pu & _) & _).
    eapply bound_le_trans; eauto.
  - apply bound_le_refl.
Qed.

(** X5.  Every pair [(state, cost)] that successive calls of
    [optimization_pass] return holds a goal state, and its cost exceeds
    neither the upper bound the engine had before the calls nor the min-cost
    bound the calls work with. *)
Theorem returned_goals_respect_the_bounds (fuel n : nat) (e : engine) (args : Args)
  rs e' tr s c :
  BFS.run_passes fuel n e args = Some (rs, e', tr) ->
  In (BFS.Returned (Some (s, c))) rs ->
  BFS.goal_state_func (BFS.funcs e) s args = true /\
  bound_le (Some c) (BFS.upperbound_cost e) /\
  bound_le (Some c) (refreshed_bound e args).
Proof.
  intros H Hin.
  apply (@run_passes_rule State Args args
           (fun rs1 _ e1 =>
              BFS.funcs e1 = BFS.funcs e /\
              bound_le (BFS.upperbound_cost e1) (BFS.upperbound_cost e) /\
              refreshed_bound e1 args = refreshed_bound e args /\
              forall s c, In (BFS.Returned (Some (s, c))) rs1 ->
                BFS.goal_state_func (BFS.funcs e) s args = true /\
                bound_le (Some c) (BFS.upperbound_cost e) /\
                bound_le (Some c) (refreshed_bound e args))
           fuel) with (rs0 := []) (acc := []) in H.
  - destruct H as (_ & _ & _ & H). apply H. exact Hin.
  - intros rs1 acc e1 r e2 tr1 (Jf & Ju & Jm & Jr) P.
    apply optimization_pass_bounded in P.
    destruct P as ((Pf & _ & Pu & Pr) & Pm).
    rewrite Jf in Pf. rewrite Jm in Pm.
    split; [exact Pf |].
    split; [eapply bound_le_trans; eauto |].
    split; [exact Pm |].
    intros s1 c1 Hi. apply in_app_or in Hi. destruct Hi as [Hi | [Hi | []]]; [auto |].
    subst r. destruct Pr as (Pg & Pcu & Pcm & _).
    rewrite Jf in Pg. rewrite Jm in Pcm.
    split; [exact Pg |]. split; [| exact Pcm].
    apply bound_le_trans with (BFS.upperbound_cost e1); assumption.
  - split; [reflexivity |]. split; [apply bound_le_refl |].
    split; [reflexivity |]. intros s1 c1 [].
Qed.

End Bounds.

(** X5 on the fork engine with the upper bound (1, 1): the two goal states
    returned cost (1, 1). *)
Lemma returned_goals_witness :
  exists rs e' tr,
    BFS.run_passes 10 3
      (BFS.update_upperbound_cost (Toy.table_engine Toy.fork_funcs None false)
         (Some (1%Q, Cost.Fin 1))) tt = Some (rs, e', tr) /\
    In (BFS.Returned (Some (2, (1%Q, Cost.Fin 1)))) rs /\
    bound_le (Some (1%Q, Cost.Fin 1))
      (BFS.upperbound_cost
         (BFS.update_upperbound_cost (Toy.table_engine Toy.fork_funcs None false)
            (Some (1%Q, Cost.Fin 1)))).
Proof.
  destruct (BFS.run_passes 10 3
              (BFS.update_upperbound_cost (Toy.table_engine Toy.fork_funcs None false)
                 (Some (1%Q, Cost.Fin 1))) tt) as [[[rs e'] tr] |] eqn:E;
    [| vm_compute in E; discriminate].
  assert (Hin : In (BFS.Returned (Some (2, (1%Q, Cost.Fin 1)))) rs).
  { pose proof E as E2. vm_compute in E2. inversion E2. right. left. reflexivity. }
  exists rs, e', tr. split; [reflexivity |]. split; [exact Hin |].
  exact (proj1 (proj2 (@returned_goals_respect_the_bounds nat unit 10 3
                         (BFS.update_upperbound_cost
                            (Toy.table_engine Toy.fork_funcs None false)
                            (Some (1%Q, Cost.Fin 1)))
                         tt rs e' tr 2 (1%Q, Cost.Fin 1) E Hin))).
Defined.

(** ** The statistics kept at the last goal state *)

Section Penultimate.

Variables State Args : Type.

Let engine : Type := BFS.BestFirstSearch State Args.

Lemma put_penultimate (e : engine) l depth args :
  BFS.penultimate_stats (BFS.put e l depth args) = BFS.penultimate_stats e.
Proof.
  destruct (put_spec e l depth args) as (F & _).
  destruct F as (_ & _ & _ & _ & _ & _ & _ & _ & Fp). exact Fp.
Qed.

(** X6.  The statistics that [get_stats(penultimate=True)] returns are those
    of the moment the last goal state was returned: [initialize] sets them to
    zero, a call of [optimization_pass] that returns a goal state sets them
    to the statistics it ends with, and any other call leaves them as they
    are. *)
Theorem penultimate_stats_are_those_of_the_last_goal (e : engine) (args : Args) :
  (forall inits,
     BFS2.get_stats (BFS.initialize e inits args) true = Some (0, 0, 0, 0)) /\
  (forall fuel r e' tr,
     BFS.optimization_pass fuel e args = Some (r, e', tr) ->
     match r with
     | BFS.Returned (Some _) => BFS2.get_stats e' true = BFS2.get_stats e' false
     | _ => BFS2.get_stats e' true = BFS2.get_stats e true
     end).
Proof.
  unfold BFS2.get_stats. split.
  - intro inits. unfold BFS.initialize. rewrite put_penultimate. reflexivity.
  - intros fuel r e' tr H. unfold BFS.optimization_pass in H.
    apply (@pass_loop_rule State Args args
             (fun _ _ e1 => BFS.penultimate_stats e1 = BFS.penultimate_stats e)
             (fun r1 e1 _ =>
                match r1 with
                | BFS.Returned (Some _) =>
                    BFS.penultimate_stats e1 = Some (BFS.get_stats e1)
                | _ => BFS.penultimate_stats e1 = BFS.penultimate_stats e
                end))
      with (acc := []) in H; auto.
    + intros acc p0 e0 Ip _.
      pose proof (loop_exit_fields e0) as X. cbv zeta in X.
      destruct X as (_ & _ & _ & _ & _ & _ & _ & _ & _ & _ & Xp).
      rewrite Xp. exact Ip.
    + intros acc p0 e0 Ip _.
      destruct (loop_body_cases args p0 e0) as [(q & G & L) | (s & d & c & q & G & L)].
      * rewrite L.
        pose proof (popped_fields e0 q None) as U. cbv zeta in U.
        destruct U as (_ & _ & _ & _ & _ & _ & _ & _ & _ & _ & Up).
        rewrite Up. exact Ip.
      * cbv zeta in L.
        pose proof (popped_fields e0 q (Some c)) as U.
        pose proof (at_goal_test_fields e0 q p0 d c) as T.
        cbv zeta in U, T.
        destruct U as (_ & _ & _ & _ & _ & _ & _ & _ & _ & _ & Up).
        destruct T as (_ & _ & _ & _ & _ & _ & _ & _ & _ & _ & Tp).
        destruct L as [(X & L) | [(X & Go & L) | [(ex & X & Go & N & L) | (l & X & Go & N & L)]]];
          rewrite L; clear L.
        -- rewrite Up. exact Ip.
        -- pose proof (at_goal_return_fields (at_goal_test e0 q p0 d c) s c args) as R.
           cbv zeta in R.
           destruct R as (_ & _ & _ & _ & _ & Rv & Rn & Re & Rb & Rp).
           rewrite Rp. unfold BFS.get_stats. rewrite Rv, Rn, Re, Rb. reflexivity.
        -- rewrite Tp. exact Ip.
        -- rewrite put_penultimate, Tp. exact Ip.
    + pose proof (refresh_mincost_bound_fields e args) as X. cbv zeta in X.
      destruct X as (_ & _ & _ & _ & _ & _ & _ & _ & _ & _ & _ & Xp).
      exact Xp.
Qed.

End Penultimate.

(** ** The driver: the costs it returns and the bounds *)

Section DriverBounds.

Context {State : Type} {ops : CutOpt.StateOps State} {imp : CutOpt.Imports State}.

Let Driver : Type := @CutOpt.CutOptimization State.

Lemma cost_le_inf (c : Cost.t) (g : Q) : cost_le c (g, Cost.Inf) <-> (fst c <= g)%Q.
Proof.
  unfold cost_le. simpl. split.
  - intros [L | [E _]]; lra.
  - intro L. destruct (Qlt_le_dec (fst c) g) as [X | X]; [left; exact X |].
    right. split; [lra |]. destruct (snd c); reflexivity.
Qed.



(** Once a state has been returned, the driver passes on the states its
    engine returns. *)
Lemma driver_later_bounded fuel n : forall (d : Driver) s c,
  CutOpt.goal_state_returned d = true ->
  In (Py.Ok (Some s, Some c)) (CutOpt.run_passes fuel n d) ->
  BFS.goal_state_func (BFS.funcs (CutOpt.search_engine d)) s (CutOpt.func_args d)
    = true /\
  bound_le (Some c) (BFS.upperbound_cost (CutOpt.search_engine d)) /\
  bound_le (Some c) (refreshed_bound (CutOpt.search_engine d) (CutOpt.func_args d)).
Proof.
  induction n as [| n IH]; intros d s c R Hin; simpl in Hin; [contradiction |].
  unfold CutOpt.optimization_pass in Hin. rewrite R in Hin.
  destruct (BFS.optimization_pass fuel (CutOpt.search_engine d) (CutOpt.func_args d))
    as [[[r e'] tr] |] eqn:E; [| contradiction].
  apply optimization_pass_bounded in E. destruct E as ((Ef & _ & Eu & Er) & Em).
  assert (T : forall d' : Driver,
             CutOpt.goal_state_returned d' = true ->
             CutOpt.search_engine d' = e' ->
             CutOpt.func_args d' = CutOpt.func_args d ->
             In (Py.Ok (Some s, Some c)) (CutOpt.run_passes fuel n d') ->
             BFS.goal_state_func (BFS.funcs (CutOpt.search_engine d)) s
               (CutOpt.func_args d) = true /\
             bound_le (Some c) (BFS.upperbound_cost (CutOpt.search_engine d)) /\
             bound_le (Some c)
               (refreshed_bound (CutOpt.search_engine d) (CutOpt.func_args d))).
  { intros d' R' Se Fa Hin'.
    destruct (IH d' s c R' Hin') as (A & B & C).
    rewrite Se in A, B, C. rewrite Fa in A, C. rewrite Ef in A. rewrite Em in C.
    split; [exact A |]. split; [| exact C].
    apply bound_le_trans with (BFS.upperbound_cost e'); assumption. }
  destruct r as [[[s1 c1] |] | ex]; simpl in Hin.
  - destruct Hin as [Hin | Hin].
    + inversion Hin; subst s1 c1. destruct Er as (Eg & Ec & Ecm & _). auto.
    + eapply T; [| | | exact Hin]; reflexivity.
  - destruct Hin as [Hin | Hin]; [discriminate |].
    eapply T; [| | | exact Hin]; reflexivity.
  - destruct Hin as [Hin | Hin]; [discriminate |].
    eapply T; [| | | exact Hin]; auto.
Qed.

(** X8.  Once the driver has returned a state, every state it returns
    later, also after a call of its [update_upperbound_cost], is a goal state
    of the search (all the gates have been decided), and its cost exceeds
    neither the bound given to [update_upperbound_cost], nor the upper bound
    the driver had, nor [max_gamma]. *)
Theorem driver_later_states_are_goals_within_bounds (d : Driver)
  (cost_bound : option Cost.t) (fuel n : nat) (s : State) (c : Cost.t) :
  CutOpt.goal_state_returned d = true ->
  BFS.funcs (CutOpt.search_engine d) = CutOpt.cut_optimization_search_funcs ->
  In (Py.Ok (Some s, Some c))
    (CutOpt.run_passes fuel n (CutOpt2.update_upperbound_cost d cost_bound)) ->
  List.length (CutOpt.entangling_gates (CutOpt.func_args d))
    <= CutOpt.get_search_level s /\
  bound_le (Some c) cost_bound /\
  bound_le (Some c) (CutOpt2.get_upperbound_cost d) /\
  (forall mg, CutOpt.max_gamma (CutOpt.func_args d) = Some mg -> (fst c <= mg)%Q).
Proof.
  intros R F Hin.
  apply driver_later_bounded in Hin; [| exact R].
  cbn [CutOpt2.update_upperbound_cost CutOpt.search_engine CutOpt.func_args] in Hin.
  destruct Hin as (A & B & C).
  destruct (update_upperbound_cost_le (CutOpt.search_engine d) cost_bound) as [U1 U2].
  assert (Fu : BFS.funcs (BFS.update_upperbound_cost (CutOpt.search_engine d) cost_bound)
               = CutOpt.cut_optimization_search_funcs).
  { rewrite <- F. unfold BFS.update_upperbound_cost.
    destruct cost_bound as [b |]; [| reflexivity].
    destruct (BFS.upperbound_cost (CutOpt.search_engine d)) as [u |];
      [destruct (Cost.ltb b u) |]; reflexivity. }
  rewrite Fu in A. unfold refreshed_bound in C. rewrite Fu in C.
  cbn [CutOpt.cut_optimization_search_funcs BFS.goal_state_func
       BFS.mincost_bound_func] in A, C.
  split; [apply Nat.leb_le; exact A |].
  split; [exact (bound_le_trans _ _ _ B U2) |].
  split; [exact (bound_le_trans _ _ _ B U1) |].
  intros mg Mg. unfold CutOpt.cut_optimization_min_cost_bound_func in C.
  rewrite Mg in C. simpl in C. apply cost_le_inf. exact C.
Qed.

End DriverBounds.


(** X8 on the same driver after its first call, given the bound (3, 2): the
    next state returned has decided both gates and costs (3, 2). *)
Lemma driver_later_states_witness :
  exists d,
    Toy2.chain_driver_later = Some d /\
    2 <= CutOpt.get_search_level (Toy2.chain_goal ["GateCut"%string; "None"%string]) /\
    bound_le (Some (3%Q, Cost.Fin 2)) (Some (3%Q, Cost.Fin 2)) /\
    (3 <= 1024)%Q.
Proof.
  destruct Toy2.chain_driver_later as [d |] eqn:E; [| vm_compute in E; discriminate].
  exists d. split; [reflexivity |].
  assert (D : exists d0, Some d0 = Some d /\
                CutOpt.goal_state_returned d0 = true /\
                BFS.funcs (CutOpt.search_engine d0)
                = CutOpt.cut_optimization_search_funcs /\
                CutOpt.entangling_gates (CutOpt.func_args d0)
                = CutOpt.get_multiqubit_gates Toy.chain /\
                CutOpt.max_gamma (CutOpt.func_args d0) = Some 1024%Q /\
                In (Py.Ok (Some (Toy2.chain_goal ["GateCut"%string; "None"%string]),
                           Some (3%Q, Cost.Fin 2)))
                  (CutOpt.run_passes 20 2
                     (CutOpt2.update_upperbound_cost d0 (Some (3%Q, Cost.Fin 2))))).
  { pose proof E as E2. vm_compute in E2.
    match type of E2 with Some ?d0 = _ => exists d0 end.
    split; [exact E2 |]. split; [reflexivity |]. split; [reflexivity |].
    split; [reflexivity |]. split; [reflexivity |].
    vm_compute. left. reflexivity. }
  destruct D as (d0 & Dd & R & F & Ga & Mg & Hin). injection Dd as Dd. subst d0.
  destruct (@driver_later_states_are_goals_within_bounds Toy.tstate Toy.toy_ops
              Toy.toy_imports d (Some (3%Q, Cost.Fin 2)) 20 2
              (Toy2.chain_goal ["GateCut"%string; "None"%string]) (3%Q, Cost.Fin 2)
              R F Hin) as (A & B & _ & C).
  rewrite Ga in A. split; [exact A |]. split; [exact B |].
  exact (C 1024%Q Mg).
Defined.

(** ** What the best-first search guarantees *)

Section Optimality.

Variables State Args : Type.

Let engine : Type := BFS.BestFirstSearch State Args.

Variable sf : BFS.SearchFunctions State Args.
Variable args : Args.
Hypothesis Mono : monotone sf args.

Lemma descends_cost (a g : State) :
  descends sf args a g ->
  cost_le (BFS.cost_func sf a args) (BFS.cost_func sf g args).
Proof.
  induction 1 as [s | s l s' g N Hin D IH]; [apply cost_le_refl |].
  eapply cost_le_trans; [eapply Mono; eassumption | exact IH].
Qed.

Lemma descends_inv (a g : State) :
  descends sf args a g ->
  a = g \/
  exists l s', BFS.next_state_func sf a args = Py.Ok l /\ In s' l /\
               descends sf args s' g.
Proof. destruct 1; [left; reflexivity | right; eauto]. Qed.

Lemma beyond_mono (b : option Cost.t) (c c' : Cost.t) :
  beyond b c -> cost_le c c' -> beyond b c'.
Proof.
  destruct b as [u |]; simpl; [| tauto].
  intros H L K. apply H. eapply cost_le_trans; eauto.
Qed.

Lemma beyond_tighten (b b' : option Cost.t) (c : Cost.t) :
  bound_le b' b -> beyond b c -> beyond b' c.
Proof.
  destruct b as [u |]; simpl; [| tauto].
  destruct b' as [u' |]; simpl; [| tauto].
  intros L H K. apply H. eapply cost_le_trans; eauto.
Qed.

Lemma beyond_at_least (b : option Cost.t) (c : Cost.t) :
  beyond b c -> exists u, b = Some u /\ cost_le u c.
Proof.
  destruct b as [u |]; simpl; [| tauto].
  intro H. exists u. split; [reflexivity |].
  destruct (cost_le_total u c); tauto.
Qed.

Lemma exceeded_beyond (e : engine) (c : Cost.t) :
  BFS.cost_bounds_exceeded e (Some c) = true ->
  beyond (BFS.mincost_bound e) c \/ beyond (BFS.upperbound_cost e) c.
Proof.
  unfold BFS.cost_bounds_exceeded. intro H. apply orb_true_iff in H.
  destruct H as [H | H].
  - left. destruct (BFS.mincost_bound e); [| discriminate]. apply gtb_iff. exact H.
  - right. destruct (BFS.upperbound_cost e); [| discriminate]. apply gtb_iff. exact H.
Qed.

Lemma update_minimum_reached_flag (e : engine) (c : Cost.t) :
  BFS.min_reached (BFS.update_minimum_reached e (Some c)) = true ->
  BFS.min_reached e = true \/
  exists u, BFS.upperbound_cost e = Some u /\ cost_le u c.
Proof.
  unfold BFS.update_minimum_reached.
  destruct (BFS.upperbound_cost e) as [u |]; [| auto].
  destruct (Cost.leb u c) eqn:L; [| auto].
  intros _. right. exists u. split; [reflexivity | apply leb_iff; exact L].
Qed.

Lemma behind_app (rs : list (BFS.outcome State)) r g :
  behind sf args rs g -> behind sf args (rs ++ [r]) g.
Proof.
  intros (j & s & c & N & D). exists j, s, c. split; [| exact D].
  rewrite nth_error_app1; [exact N |]. apply nth_error_Some. congruence.
Qed.

Lemma behind_last (rs : list (BFS.outcome State)) s c g :
  descends sf args s g ->
  behind sf args (rs ++ [BFS.Returned (Some (s, c))]) g.
Proof.
  intro D. exists (List.length rs), s, c. split; [| exact D].
  rewrite nth_error_app2, Nat.sub_diag; [reflexivity | lia].
Qed.

(** The goal state the invariant follows, and the min-cost bound of the
    calls. *)
Variable g : State.
Variable mb : option Cost.t.
Hypothesis Goal : BFS.goal_state_func sf g args = true.

Let cg : Cost.t := BFS.cost_func sf g args.

(** Where [g] is: ahead of the search, cut off by a bound, or behind. *)
Let placed (rs : list (BFS.outcome State)) (e : engine) : Prop :=
  covered e args g \/ beyond (BFS.upperbound_cost e) cg \/ beyond mb cg \/
  behind sf args rs g.

Let searching (rs : list (BFS.outcome State)) (e : engine) : Prop :=
  BFS.funcs e = sf /\ consistent e args /\ BFS.mincost_bound e = mb /\
  settled e /\ placed rs e.

(** What a cost returned is not above. *)
Let least (rs : list (BFS.outcome State)) (e : engine) (c : Cost.t) : Prop :=
  cost_le c cg \/ beyond (BFS.upperbound_cost e) cg \/ beyond mb cg \/
  behind sf args rs g.

Lemma placed_app rs r (e : engine) : placed rs e -> placed (rs ++ [r]) e.
Proof.
  intros [H | [H | [H | H]]]; unfold placed; auto using behind_app.
Qed.

Lemma consistent_queue (e e' : engine) :
  BFS.funcs e' = BFS.funcs e ->
  (forall p, In p (map (@payload State) (BFS.pqueue (BFS.pq e'))) ->
             In p (map (@payload State) (BFS.pqueue (BFS.pq e)))) ->
  consistent e args -> consistent e' args.
Proof.
  unfold consistent. intros F S C. rewrite F.
  apply Forall_forall. intros p Hp. apply S in Hp.
  rewrite Forall_forall in C. apply C. exact Hp.
Qed.

Lemma loop_body_searching rs prev (e : engine) :
  searching rs e ->
  match BFS.loop_body args prev e with
  | (BFS.Continue _ e', _) => searching rs e'
  | (BFS.Exit r e', _) =>
      searching (rs ++ [r]) e' /\
      match r with
      | BFS.Returned (Some (_, c)) => least (rs ++ [r]) e' c
      | _ => True
      end
  end.
Proof.
  intros (Hf & Hc & Hm & Hs & Hp).
  destruct (loop_body_cases args prev e) as [(q & G & L) | (s & d & c & q & G & L)].
  - (* nothing to pop *)
    rewrite L. apply pq_get_empty in G. destruct G as [Gq G0]. subst q.
    pose proof (popped_fields e (BFS.pq e) None) as U. cbv zeta in U.
    destruct U as (Uf & _ & _ & Uq & Uu & Um & _).
    assert (E0 : BFS.pqueue (BFS.pq e) = []).
    { unfold BFS.qsize in G0. destruct (BFS.pqueue (BFS.pq e)); [reflexivity | discriminate]. }
    split; [| exact I].
    split; [congruence |].
    split; [apply (@consistent_queue e); [exact Uf | rewrite Uq; auto | exact Hc] |].
    split; [congruence |].
    split.
    + intros _. unfold queue_above. rewrite Uq, E0.
      destruct (BFS.upperbound_cost _); [constructor | reflexivity].
    + apply placed_app. destruct Hp as [(p & Hin & _) | Hp].
      * rewrite E0 in Hin. destruct Hin.
      * right. rewrite Uu. exact Hp.
  - cbv zeta in L.
    destruct (pq_get_some _ G) as [Perm Min].
    assert (Old : forall p, In p (map (@payload State) (BFS.pqueue q)) ->
                            In p (map (@payload State) (BFS.pqueue (BFS.pq e)))).
    { intros p Hq. eapply Permutation_in; [symmetry; exact Perm | right; exact Hq]. }
    assert (Popped : In (s, d, c) (map (@payload State) (BFS.pqueue (BFS.pq e)))).
    { eapply Permutation_in; [symmetry; exact Perm | left; reflexivity]. }
    assert (Cs : c = BFS.cost_func sf s args).
    { unfold consistent in Hc. rewrite Forall_forall in Hc.
      specialize (Hc _ Popped). simpl in Hc. rewrite Hf in Hc. exact Hc. }
    pose proof (popped_fields e q (Some c)) as U.
    pose proof (at_goal_test_fields e q prev d c) as T.
    cbv zeta in U, T.
    destruct U as (Uf & _ & _ & Uq & Uu & Um & _).
    destruct T as (Tf & _ & _ & Tq & Tu & Tm & _).
    (* with [min_reached] set, the cost popped is not below the upper bound *)
    assert (K : BFS.min_reached
                  (BFS.update_minimum_reached (BFS.set_pq e q) (Some c)) = true ->
                exists u, BFS.upperbound_cost e = Some u /\ cost_le u c).
    { intro M. apply update_minimum_reached_flag in M.
      destruct M as [M | M]; [| exact M].
      change (BFS.min_reached e = true) in M. specialize (Hs M).
      destruct (BFS.upperbound_cost e) as [u |] eqn:Eu.
      - exists u. split; [reflexivity |].
        unfold queue_above in Hs. rewrite Forall_forall in Hs.
        apply (Hs _ Popped).
      - rewrite Hs in Popped. destruct Popped. }
    assert (Kt : BFS.min_reached (at_goal_test e q prev d c)
                 = BFS.min_reached
                     (BFS.update_minimum_reached (BFS.set_pq e q) (Some c))).
    { unfold at_goal_test.
      match goal with
      | |- context [counted ?a ?b ?x] => pose proof (counted_fields a b x) as X
      end.
      cbv zeta in X. destruct X as (_ & _ & _ & _ & _ & _ & Xr & _). exact Xr. }
    (* where [g] is once the state is popped: below it, or as before *)
    assert (Pl : descends sf args s g \/
                 (exists p, In p (map (@payload State) (BFS.pqueue q)) /\
                            descends sf args (fst (fst p)) g) \/
                 beyond (BFS.upperbound_cost e) cg \/ beyond mb cg \/
                 behind sf args rs g).
    { destruct Hp as [(p & Hin & D) | Hp]; [| tauto].
      rewrite Hf in D.
      apply (Permutation_in _ Perm) in Hin. destruct Hin as [Hin | Hin].
      - subst p. left. exact D.
      - right. left. exists p. auto. }
    assert (Rest : forall p, In p (map (@payload State) (BFS.pqueue q)) ->
                             descends sf args (fst (fst p)) g -> cost_le c cg).
    { intros p Hin D. rewrite Forall_forall in Min.
      apply (cost_le_trans (Min _ Hin)).
      unfold consistent in Hc. rewrite Forall_forall in Hc.
      rewrite (Hc _ (Old _ Hin)), Hf. apply descends_cost. exact D. }
    destruct L as [(X & L) | [(X & Go & L) | [(ex & X & Go & N & L) | (l & X & Go & N & L)]]];
      rewrite L; clear L.
    + (* a cost bound is exceeded *)
      split; [| exact I].
      split; [congruence |].
      split; [apply (@consistent_queue e); [exact Uf | rewrite Uq; exact Old | exact Hc] |].
      split; [congruence |].
      split.
      * intro M. destruct (K M) as (u & Eu & Lu). rewrite Uu, Eu.
        unfold queue_above. rewrite Uq. apply Forall_forall. intros p Hin.
        rewrite Forall_forall in Min. simpl.
        eapply cost_le_trans; [exact Lu | exact (Min _ Hin)].
      * apply placed_app. unfold placed. rewrite Uu.
        destruct Pl as [D | [(p & Hin & D) | Pl]]; [| | tauto].
        -- apply exceeded_beyond in X. rewrite Uu, Um, Hm in X.
           apply descends_cost in D. rewrite <- Cs in D.
           destruct X as [X | X]; [right; right; left | right; left];
             eapply beyond_mono; eauto.
        -- left. exists p. rewrite Uq, Uf, Hf. auto.
    + (* a goal state is returned *)
      pose proof (at_goal_return_fields (at_goal_test e q prev d c) s c args) as R.
      cbv zeta in R. destruct R as (Rf & _ & _ & Rq & Rm & _).
      pose proof (update_upperbound_goal_state_le
                    (BFS.set_penultimate_stats (at_goal_test e q prev d c)
                       (Some (BFS.get_stats (at_goal_test e q prev d c))))
                    s args) as [B1 _].
      change (BFS.upperbound_cost
                (BFS.set_penultimate_stats (at_goal_test e q prev d c)
                   (Some (BFS.get_stats (at_goal_test e q prev d c)))))
        with (BFS.upperbound_cost (at_goal_test e q prev d c)) in B1.
      rewrite Tu in B1.
      assert (Ru : BFS.upperbound_cost (at_goal_return (at_goal_test e q prev d c) s c args)
                   = BFS.upperbound_cost
                       (BFS.update_upperbound_goal_state
                          (BFS.set_penultimate_stats (at_goal_test e q prev d c)
                             (Some (BFS.get_stats (at_goal_test e q prev d c))))
                          s args)).
      { unfold at_goal_return.
        match goal with
        | |- context [BFS.update_minimum_reached ?a ?b] =>
            pose proof (update_minimum_reached_fields a b) as M
        end.
        cbv zeta in M. destruct M as (_ & _ & _ & _ & Mu & _). exact Mu. }
      rewrite <- Ru in B1.
      assert (Pl' : least (rs ++ [BFS.Returned (Some (s, c))])
                      (at_goal_return (at_goal_test e q prev d c) s c args) c).
      { unfold least.
        destruct Pl as [D | [(p & Hin & D) | [Pl | [Pl | Pl]]]].
        - right. right. right. apply behind_last. exact D.
        - left. eapply Rest; eauto.
        - right. left. eapply beyond_tighten; eauto.
        - tauto.
        - right. right. right. apply behind_app. exact Pl. }
      split; [| exact Pl'].
      split; [congruence |].
      split; [apply (@consistent_queue e);
              [congruence | rewrite Rq, Tq; exact Old | exact Hc] |].
      split; [congruence |].
      split.
      * intro M. unfold at_goal_return in M.
        apply update_minimum_reached_flag in M.
        assert (Bu : exists u, BFS.upperbound_cost
                                 (at_goal_return (at_goal_test e q prev d c) s c args)
                               = Some u /\ cost_le u c).
        { destruct M as [M | (u & Eu & Lu)].
          - pose proof (update_upperbound_goal_state_fields
                          (BFS.set_penultimate_stats (at_goal_test e q prev d c)
                             (Some (BFS.get_stats (at_goal_test e q prev d c))))
                          s args) as Y.
            cbv zeta in Y. destruct Y as (_ & _ & _ & _ & _ & Yr & _).
            rewrite Yr in M.
            change (BFS.min_reached (at_goal_test e q prev d c) = true) in M.
            rewrite Kt in M. destruct (K M) as (u & Eu & Lu).
            rewrite Eu in B1.
            destruct (BFS.upperbound_cost
                        (at_goal_return (at_goal_test e q prev d c) s c args))
              as [u' |]; simpl in B1; [| contradiction].
            exists u'. split; [reflexivity |]. eapply cost_le_trans; eauto.
          - exists u. rewrite Ru. auto. }
        destruct Bu as (u & Eu & Lu). rewrite Eu.
        unfold queue_above. rewrite Rq, Tq. apply Forall_forall. intros p Hin.
        rewrite Forall_forall in Min. simpl.
        eapply cost_le_trans; [exact Lu | exact (Min _ Hin)].
      * unfold placed.
        destruct Pl as [D | [(p & Hin & D) | [Pl | [Pl | Pl]]]].
        -- right. right. right. apply behind_last. exact D.
        -- left. exists p. rewrite Rq, Tq, Rf, Tf, Hf. auto.
        -- right. left. eapply beyond_tighten; eauto.
        -- tauto.
        -- right. right. right. apply behind_app. exact Pl.
    + (* the next states cannot be generated *)
      split; [| exact I].
      split; [congruence |].
      split; [apply (@consistent_queue e); [exact Tf | rewrite Tq; exact Old | exact Hc] |].
      split; [congruence |].
      split.
      * intro M. rewrite Kt in M. destruct (K M) as (u & Eu & Lu). rewrite Tu, Eu.
        unfold queue_above. rewrite Tq. apply Forall_forall. intros p Hin.
        rewrite Forall_forall in Min. simpl.
        eapply cost_le_trans; [exact Lu | exact (Min _ Hin)].
      * apply placed_app. unfold placed. rewrite Tu.
        destruct Pl as [D | [(p & Hin & D) | Pl]]; [| | tauto].
        -- rewrite Hf in Go, N.
           destruct (descends_inv D) as [E | (l1 & s' & N1 & _)]; congruence.
        -- left. exists p. rewrite Tq, Tf, Hf. auto.
    + (* the next states are put on the queue *)
      destruct (put_spec (at_goal_test e q prev d c) l (d + 1) args) as (F & Q & _).
      destruct F as (Pf & _ & _ & Pu & Pm & Pr & _).
      assert (C3 : consistent (at_goal_test e q prev d c) args).
      { apply (@consistent_queue e); [exact Tf | rewrite Tq; exact Old | exact Hc]. }
      rewrite Hf in Go, N.
      split; [congruence |].
      split.
      { apply (@put_invariant State Args None); auto.
        - unfold queue_above. apply Forall_forall. intros; exact I.
        - intros; exact I. }
      split; [congruence |].
      split.
      * intro M. rewrite Pr, Kt in M. destruct (K M) as (u & Eu & Lu).
        rewrite Pu, Tu, Eu.
        apply (@put_invariant State Args (Some u)); auto.
        -- unfold queue_above. rewrite Tq. apply Forall_forall. intros p Hin.
           rewrite Forall_forall in Min. simpl.
           eapply cost_le_trans; [exact Lu | exact (Min _ Hin)].
        -- intros s' Hin. simpl. rewrite Tf, Hf.
           apply (cost_le_trans Lu). rewrite Cs. eapply Mono; eassumption.
      * unfold placed. rewrite Pu, Tu.
        destruct Pl as [D | [(p & Hin & D) | Pl]]; [| | tauto].
        -- destruct (descends_inv D) as [E | (l1 & s' & N1 & Hin & D1)];
             [congruence |].
           rewrite N in N1. inversion N1; subst l1.
           destruct (within_upperbound (at_goal_test e q prev d c) args s') eqn:W.
           ++ left. exists (s', d + 1, BFS.cost_func sf s' args).
              split; [| rewrite Pf, Tf, Hf; exact D1].
              rewrite Q. apply in_or_app. right.
              rewrite Tf, Hf.
              apply (in_map (fun s0 => (s0, d + 1, BFS.cost_func sf s0 args))).
              apply filter_In. auto.
           ++ right. left. unfold within_upperbound in W. rewrite Tu, Tf, Hf in W.
              destruct (BFS.upperbound_cost e) as [u |]; [| discriminate].
              apply (@beyond_mono (Some u) (BFS.cost_func sf s' args));
                [| apply descends_cost; exact D1].
              simpl. intro Le. apply leb_iff in Le. congruence.
        -- left. exists p. split; [| rewrite Pf, Tf, Hf; exact D].
           rewrite Q. apply in_or_app. left. rewrite Tq. exact Hin.
Qed.

Lemma pass_loop_searching fuel rs prev (e : engine) r e' tr :
  searching rs e ->
  BFS.pass_loop fuel args prev e = Some (r, e', tr) ->
  searching (rs ++ [r]) e' /\
  match r with
  | BFS.Returned (Some (_, c)) => least (rs ++ [r]) e' c
  | _ => True
  end.
Proof.
  intros S H.
  apply (@pass_loop_rule State Args args
           (fun _ _ e1 => searching rs e1)
           (fun r1 e1 _ =>
              searching (rs ++ [r1]) e1 /\
              match r1 with
              | BFS.Returned (Some (_, c)) => least (rs ++ [r1]) e1 c
              | _ => True
              end))
    with (acc := []) in H; auto.
  - intros _ _ e0 (Hf & Hc & Hm & Hs & Hp) _.
    pose proof (loop_exit_fields e0) as X. cbv zeta in X.
    destruct X as (Xf & _ & _ & Xq & Xu & Xm & _).
    split; [| exact I].
    split; [congruence |].
    split; [apply (@consistent_queue e0); [exact Xf | rewrite Xq; auto | exact Hc] |].
    split; [congruence |].
    split.
    + unfold settled. rewrite Xu. unfold queue_above. rewrite Xq.
      unfold BFS.loop_exit. destruct (BFS.qsize (BFS.pq e0) =? 0) eqn:Z.
      * intros _. apply Nat.eqb_eq in Z. unfold BFS.qsize in Z.
        destruct (BFS.pqueue (BFS.pq e0)); [| discriminate].
        destruct (BFS.upperbound_cost e0); [constructor | reflexivity].
      * exact Hs.
    + apply placed_app. unfold placed. rewrite Xu.
      destruct Hp as [(p & Hin & D) | Hp]; [| tauto].
      left. exists p. rewrite Xq, Xf. auto.
  - intros _ p0 e0 Hi _.
    pose proof (@loop_body_searching rs p0 e0 Hi) as B.
    destruct (BFS.loop_body args p0 e0) as [[d1 e1 | r1 e1] p1]; exact B.
Qed.

Lemma optimization_pass_searching fuel rs (e : engine) r e' tr :
  BFS.funcs e = sf -> consistent e args -> refreshed_bound e args = mb ->
  settled e -> placed rs e ->
  BFS.optimization_pass fuel e args = Some (r, e', tr) ->
  (BFS.funcs e' = sf /\ consistent e' args /\ refreshed_bound e' args = mb /\
   settled e' /\ placed (rs ++ [r]) e') /\
  match r with
  | BFS.Returned (Some (_, c)) => least (rs ++ [r]) e' c
  | _ => True
  end.
Proof.
  intros Hf Hc Hm Hs Hp H. unfold BFS.optimization_pass in H.
  pose proof (refresh_mincost_bound_fields e args) as X. cbv zeta in X.
  destruct X as (Xf & _ & _ & Xq & Xu & Xm & Xr & _).
  apply (@pass_loop_searching fuel rs) in H.
  - destruct H as [(Sf & Sc & Sm & Ss & Sp) Hl].
    split; [| exact Hl].
    repeat split; try assumption.
    unfold refreshed_bound. rewrite Sf, Sm.
    unfold refreshed_bound in Hm. rewrite Hf in Hm.
    destruct (BFS.mincost_bound_func sf); [exact Hm | reflexivity].
  - split; [congruence |].
    split; [apply (@consistent_queue e); [exact Xf | rewrite Xq; auto | exact Hc] |].
    split; [congruence |].
    split.
    + unfold settled. rewrite Xr, Xu. unfold queue_above. rewrite Xq. exact Hs.
    + unfold placed. rewrite Xu.
      destruct Hp as [(p & Hin & D) | Hp]; [| tauto].
      left. exists p. rewrite Xq, Xf. auto.
Qed.

(** The invariant of a run: [g] is placed, and every cost returned was the
    least one then. *)
Lemma run_passes_searching fuel n (e : engine) rs e' tr :
  BFS.funcs e = sf -> consistent e args -> refreshed_bound e args = mb ->
  settled e -> placed [] e ->
  BFS.run_passes fuel n e args = Some (rs, e', tr) ->
  consistent e' args /\ settled e' /\ placed rs e' /\
  forall k s c,
    nth_error rs k = Some (BFS.Returned (Some (s, c))) ->
    cost_le c cg \/ beyond (BFS.upperbound_cost e') cg \/ beyond mb cg \/
    exists j s' c', j <= k /\
                    nth_error rs j = Some (BFS.Returned (Some (s', c'))) /\
                    descends sf args s' g.
Proof.
  intros Hf Hc Hm Hs Hp H.
  apply (@run_passes_rule State Args args
           (fun rs1 _ e1 =>
              (BFS.funcs e1 = sf /\ consistent e1 args /\
               refreshed_bound e1 args = mb /\ settled e1 /\ placed rs1 e1) /\
              forall k s c,
                nth_error rs1 k = Some (BFS.Returned (Some (s, c))) ->
                cost_le c cg \/ beyond (BFS.upperbound_cost e1) cg \/
                beyond mb cg \/
                exists j s' c', j <= k /\
                                nth_error rs1 j = Some (BFS.Returned (Some (s', c'))) /\
                                descends sf args s' g)
           fuel) with (rs0 := []) (acc := []) in H.
  - simpl in H. tauto.
  - intros rs1 acc e1 r e2 tr1 [(Jf & Jc & Jm & Js & Jp) Jl] P.
    pose proof P as Bu. apply optimization_pass_bounded in Bu.
    destruct Bu as [(_ & _ & Bu & _) _].
    apply (@optimization_pass_searching fuel rs1) in P; auto.
    destruct P as [S Hl]. split; [exact S |].
    intros k s c N.
    destruct (Nat.lt_ge_cases k (List.length rs1)) as [Lt | Ge].
    + rewrite nth_error_app1 in N by exact Lt.
      destruct (Jl k s c N) as [X | [X | [X | (j & s' & c' & Lj & Nj & D)]]];
        [tauto | right; left; eapply beyond_tighten; eauto | tauto |].
      right. right. right. exists j, s', c'.
      split; [exact Lj |]. split; [| exact D].
      rewrite nth_error_app1; [exact Nj |]. lia.
    + assert (Ek : k = List.length rs1).
      { assert (k < List.length (rs1 ++ [r])) by (apply nth_error_Some; congruence).
        rewrite length_app in *. simpl in *. lia. }
      subst k. rewrite nth_error_app2, Nat.sub_diag in N by lia.
      simpl in N. inversion N; subst r.
      destruct Hl as [X | [X | [X | (j & s' & c' & Nj & D)]]]; [tauto | tauto | tauto |].
      right. right. right. exists j, s', c'. split; [| auto].
      assert (j < List.length (rs1 ++ [BFS.Returned (Some (s, c))]))
        by (apply nth_error_Some; congruence).
      rewrite length_app in *. simpl in *. lia.
  - split; [tauto |]. intros k s c N. destruct k; discriminate.
Qed.

End Optimality.

Section OptimalityOfRuns.

Variables State Args : Type.

Let engine : Type := BFS.BestFirstSearch State Args.

Lemma initialize_searching (e0 : engine) (inits : list State) (args : Args) g :
  let e := BFS.initialize e0 inits args in
  goal_of (BFS.funcs e0) args inits g ->
  BFS.funcs e = BFS.funcs e0 /\ consistent e args /\ settled e /\ covered e args g.
Proof.
  cbv zeta. intros (_ & s0 & Hin & D).
  unfold BFS.initialize.
  match goal with
  | |- context [BFS.put ?e9 _ _ _] =>
      destruct (put_spec e9 inits 0 args) as (F & Q & _);
      pose proof (@put_invariant State Args None e9 inits 0 args) as P;
      assert (W : filter (within_upperbound e9 args) inits = inits)
  end.
  { apply forallb_filter_id. apply forallb_forall. intros s _. reflexivity. }
  destruct F as (Ff & _ & _ & _ & _ & Fr & _).
  split; [exact Ff |].
  split.
  { apply P.
    - unfold consistent. simpl. constructor.
    - unfold queue_above. simpl. constructor.
    - intros; exact I. }
  split.
  { intro M. rewrite Fr in M. discriminate. }
  exists (s0, 0, BFS.cost_func (BFS.funcs e0) s0 args).
  split; [| rewrite Ff; exact D].
  rewrite Q, W. apply in_or_app. right.
  apply (in_map (fun s => (s, 0, BFS.cost_func (BFS.funcs e0) s args))). exact Hin.
Qed.

(** X9.  Best-first search skips no cheaper goal state.  When every next
    state costs at least as much as its parent, a goal state that a call of
    [optimization_pass] returns costs no more than any goal state [g] of the
    search space spanned by the initial states, unless the cost of [g]
    exceeds the upper bound or the min-cost bound, or [g] is, or lies below,
    a goal state returned by this call or an earlier one. *)
Theorem no_cheaper_goal_is_skipped (fuel n : nat) (e0 : engine)
  (inits : list State) (args : Args) rs e' tr k s c g :
  monotone (BFS.funcs e0) args ->
  BFS.run_passes fuel n (BFS.initialize e0 inits args) args = Some (rs, e', tr) ->
  nth_error rs k = Some (BFS.Returned (Some (s, c))) ->
  goal_of (BFS.funcs e0) args inits g ->
  cost_le c (BFS.cost_func (BFS.funcs e0) g args) \/
  beyond (BFS.upperbound_cost e') (BFS.cost_func (BFS.funcs e0) g args) \/
  beyond (refreshed_bound (BFS.initialize e0 inits args) args)
    (BFS.cost_func (BFS.funcs e0) g args) \/
  exists j s' c', j <= k /\
                  nth_error rs j = Some (BFS.Returned (Some (s', c'))) /\
                  descends (BFS.funcs e0) args s' g.
Proof.
  intros Mono H N G.
  destruct (initialize_searching e0 G) as (If & Ic & Is & Iv).
  destruct G as [Goal _].
  apply (@run_passes_searching State Args (BFS.funcs e0) args Mono g
           (refreshed_bound (BFS.initialize e0 inits args) args) Goal) in H;
    auto; try (left; exact Iv).
  destruct H as (_ & _ & _ & H). exact (H k s c N).
Qed.

(** X10.  What [minimum_reached] means.  When every next state costs at
    least as much as its parent and [minimum_reached] is true after some
    calls of [optimization_pass], every goal state of the search space that
    is not, and does not lie below, a goal state already returned costs at
    least the upper bound of the engine, or more than the min-cost bound. *)
Theorem minimum_reached_leaves_no_cheaper_goal (fuel n : nat) (e0 : engine)
  (inits : list State) (args : Args) rs e' tr g :
  monotone (BFS.funcs e0) args ->
  BFS.run_passes fuel n (BFS.initialize e0 inits args) args = Some (rs, e', tr) ->
  BFS.minimum_reached e' = true ->
  goal_of (BFS.funcs e0) args inits g ->
  behind (BFS.funcs e0) args rs g \/
  beyond (refreshed_bound (BFS.initialize e0 inits args) args)
    (BFS.cost_func (BFS.funcs e0) g args) \/
  exists u, BFS.upperbound_cost e' = Some u /\
            cost_le u (BFS.cost_func (BFS.funcs e0) g args).
Proof.
  intros Mono H M G.
  destruct (initialize_searching e0 G) as (If & Ic & Is & Iv).
  destruct G as [Goal _].
  pose proof H as F.
  apply (@run_passes_rule State Args args
           (fun _ _ e1 => BFS.funcs e1 = BFS.funcs e0) fuel)
    with (rs0 := []) (acc := []) in F;
    [| intros rs1 acc e1 r e2 tr1 J P;
       apply optimization_pass_bounded in P; destruct P as [(Pf & _) _]; congruence
     | exact If].
  apply (@run_passes_searching State Args (BFS.funcs e0) args Mono g
           (refreshed_bound (BFS.initialize e0 inits args) args) Goal) in H;
    auto; try (left; exact Iv).
  destruct H as (Hc & Hs & [(p & Hin & D) | [Hp | [Hp | Hp]]] & _).
  - right. right. specialize (Hs M).
    destruct (BFS.upperbound_cost e') as [u |].
    + exists u. split; [reflexivity |].
      unfold queue_above in Hs. rewrite Forall_forall in Hs.
      apply (cost_le_trans (Hs _ Hin)).
      unfold consistent in Hc. rewrite Forall_forall in Hc.
      rewrite (Hc _ Hin), F. rewrite F in D.
      apply (descends_cost Mono D).
    + rewrite Hs in Hin. destruct Hin.
  - right. right. apply beyond_at_least. exact Hp.
  - right. left. exact Hp.
  - left. exact Hp.
Qed.

End OptimalityOfRuns.

Lemma fork_monotone : monotone Toy.fork_funcs tt.
Proof.
  intros s l s' N Hin. simpl in N.
  destruct s as [| s]; inversion N; subst l; [| destruct Hin].
  destruct Hin as [E | [E | []]]; subst s'; apply leb_iff; reflexivity.
Qed.

Lemma fork_goal : goal_of Toy.fork_funcs tt [0] 2.
Proof.
  split; [reflexivity |].
  exists 0. split; [left; reflexivity |].
  apply (@descends_next nat unit Toy.fork_funcs tt 0 [1; 2] 2 2);
    [reflexivity | right; left; reflexivity | apply descends_here].
Qed.

(** X9 on the fork engine: the first call returns the goal state [1] at the
    cost (1, 1), which is not above the cost of the goal state [2]. *)
Lemma no_cheaper_goal_witness :
  exists rs e' tr,
    BFS.run_passes 10 2
      (BFS.initialize
         (BFS.init Toy.fork_funcs (Toy.generator Toy.stream_up) None false)
         [0] tt) tt
      = Some (rs, e', tr) /\
    nth_error rs 0 = Some (BFS.Returned (Some (1, (1%Q, Cost.Fin 1)))) /\
    (cost_le (1%Q, Cost.Fin 1) (BFS.cost_func Toy.fork_funcs 2 tt) \/
     beyond (BFS.upperbound_cost e') (BFS.cost_func Toy.fork_funcs 2 tt) \/
     beyond None (BFS.cost_func Toy.fork_funcs 2 tt) \/
     exists j s' c', j <= 0 /\
                     nth_error rs j = Some (BFS.Returned (Some (s', c'))) /\
                     descends Toy.fork_funcs tt s' 2).
Proof.
  destruct (BFS.run_passes 10 2
              (BFS.initialize
                 (BFS.init Toy.fork_funcs (Toy.generator Toy.stream_up) None false)
                 [0] tt) tt)
    as [[[rs e'] tr] |] eqn:E; [| vm_compute in E; discriminate].
  assert (N : nth_error rs 0 = Some (BFS.Returned (Some (1, (1%Q, Cost.Fin 1))))).
  { pose proof E as E2. vm_compute in E2. inversion E2. reflexivity. }
  exists rs, e', tr. split; [reflexivity |]. split; [exact N |].
  exact (@no_cheaper_goal_is_skipped nat unit 10 2
           (BFS.init Toy.fork_funcs (Toy.generator Toy.stream_up) None false)
           [0] tt rs e' tr 0 1 (1%Q, Cost.Fin 1) 2 fork_monotone E N fork_goal).
Defined.

(** X10 on the fork engine: after the first call [minimum_reached] is true,
    and the goal state [2], not yet returned, costs the upper bound (1, 1). *)
Lemma minimum_reached_witness :
  exists rs e' tr,
    BFS.run_passes 10 1
      (BFS.initialize
         (BFS.init Toy.fork_funcs (Toy.generator Toy.stream_up) None false)
         [0] tt) tt
      = Some (rs, e', tr) /\
    BFS.minimum_reached e' = true /\
    (behind Toy.fork_funcs tt rs 2 \/
     beyond None (BFS.cost_func Toy.fork_funcs 2 tt) \/
     exists u, BFS.upperbound_cost e' = Some u /\
               cost_le u (BFS.cost_func Toy.fork_funcs 2 tt)).
Proof.
  destruct (BFS.run_passes 10 1
              (BFS.initialize
                 (BFS.init Toy.fork_funcs (Toy.generator Toy.stream_up) None false)
                 [0] tt) tt)
    as [[[rs e'] tr] |] eqn:E; [| vm_compute in E; discriminate].
  assert (M : BFS.minimum_reached e' = true).
  { pose proof E as E2. vm_compute in E2. inversion E2. reflexivity. }
  exists rs, e', tr. split; [reflexivity |]. split; [exact M |].
  exact (@minimum_reached_leaves_no_cheaper_goal nat unit 10 1
           (BFS.init Toy.fork_funcs (Toy.generator Toy.stream_up) None false)
           [0] tt rs e' tr 2 fork_monotone E M fork_goal).
Defined.

(** ** The flag [min_reached] and the budget of backjumps *)

Section Flags.

Variables State Args : Type.

Let engine : Type := BFS.BestFirstSearch State Args.

Lemma update_minimum_reached_keeps (e : engine) c :
  BFS.min_reached e = true ->
  BFS.min_reached (BFS.update_minimum_reached e c) = true.
Proof.
  intro M. unfold BFS.update_minimum_reached.
  destruct c as [c |]; [| reflexivity].
  destruct (BFS.upperbound_cost e) as [u |]; [| exact M].
  destruct (Cost.leb u c); [reflexivity | exact M].
Qed.

Lemma at_goal_test_min_reached (e : engine) q prev d c :
  BFS.min_reached (at_goal_test e q prev d c)
  = BFS.min_reached (BFS.update_minimum_reached (BFS.set_pq e q) (Some c)).
Proof.
  unfold at_goal_test.
  match goal with
  | |- context [counted ?a ?b ?x] => pose proof (counted_fields a b x) as X
  end.
  cbv zeta in X. destruct X as (_ & _ & _ & _ & _ & _ & Xr & _). exact Xr.
Qed.

Lemma loop_body_keeps_min_reached args prev (e : engine) :
  BFS.min_reached e = true ->
  BFS.min_reached (iteration_engine (fst (BFS.loop_body args prev e))) = true.
Proof.
  intro M.
  assert (M1 : forall q c,
             BFS.min_reached (BFS.update_minimum_reached (BFS.set_pq e q) c) = true).
  { intros q c. apply update_minimum_reached_keeps. exact M. }
  destruct (loop_body_cases args prev e) as [(q & G & L) | (s & d & c & q & G & L)].
  - rewrite L. cbn [fst iteration_engine]. apply M1.
  - cbv zeta in L.
    destruct L as [(X & L) | [(X & Go & L) | [(ex & X & Go & N & L) | (l & X & Go & N & L)]]];
      rewrite L; clear L; cbn [fst iteration_engine].
    + apply M1.
    + unfold at_goal_return. apply update_minimum_reached_keeps.
      pose proof (update_upperbound_goal_state_fields
                    (BFS.set_penultimate_stats (at_goal_test e q prev d c)
                       (Some (BFS.get_stats (at_goal_test e q prev d c))))
                    s args) as Y.
      cbv zeta in Y. destruct Y as (_ & _ & _ & _ & _ & Yr & _).
      rewrite Yr.
      change (BFS.min_reached (at_goal_test e q prev d c) = true).
      rewrite at_goal_test_min_reached. apply M1.
    + rewrite at_goal_test_min_reached. apply M1.
    + destruct (put_spec (at_goal_test e q prev d c) l (d + 1) args) as (F & _).
      destruct F as (_ & _ & _ & _ & _ & Pr & _).
      rewrite Pr, at_goal_test_min_reached. apply M1.
Qed.

Lemma loop_exit_keeps_min_reached (e : engine) :
  BFS.min_reached e = true -> BFS.min_reached (BFS.loop_exit e) = true.
Proof.
  intro M. unfold BFS.loop_exit.
  destruct (BFS.qsize (BFS.pq e) =? 0); [reflexivity | exact M].
Qed.

(** X11.  Once [minimum_reached] is true it stays true through every later
    call of [optimization_pass]; and when the engine stops at the first
    minimum, every later call returns [(None, None)] at once: it pops
    nothing and leaves the queue, the statistics and the upper bound as they
    are. *)
Theorem calls_after_minimum_reached (e : engine) (args : Args) :
  BFS.minimum_reached e = true ->
  (forall fuel r e' tr,
     BFS.optimization_pass fuel e args = Some (r, e', tr) ->
     BFS.minimum_reached e' = true) /\
  (BFS.stop_at_first_min e = true ->
   forall fuel,
   exists e',
     BFS.optimization_pass fuel e args = Some (BFS.Returned None, e', []) /\
     BFS.pq e' = BFS.pq e /\
     BFS.get_stats e' = BFS.get_stats e /\
     BFS.upperbound_cost e' = BFS.upperbound_cost e).
Proof.
  unfold BFS.minimum_reached. intro M.
  pose proof (refresh_mincost_bound_fields e args) as X. cbv zeta in X.
  destruct X as (Xf & Xs & _ & Xq & Xu & _ & Xr & Xv & Xn & Xe & Xb & _).
  split.
  - intros fuel r e' tr H. unfold BFS.optimization_pass in H.
    apply (@pass_loop_rule State Args args
             (fun _ _ e1 => BFS.min_reached e1 = true)
             (fun _ e1 _ => BFS.min_reached e1 = true))
      with (acc := []) in H; auto.
    + intros _ _ e0 M0 _. apply loop_exit_keeps_min_reached. exact M0.
    + intros _ p0 e0 M0 _.
      pose proof (loop_body_keeps_min_reached args p0 e0 M0) as B.
      destruct (BFS.loop_body args p0 e0) as [[d1 e1 | r1 e1] p1]; exact B.
    + congruence.
  - intros St fuel.
    exists (BFS.loop_exit (BFS.refresh_mincost_bound e args)).
    pose proof (loop_exit_fields (BFS.refresh_mincost_bound e args)) as Y.
    cbv zeta in Y. destruct Y as (_ & _ & _ & Yq & Yu & _ & Yv & Yn & Ye & Yb & _).
    split.
    + unfold BFS.optimization_pass.
      assert (G : BFS.loop_guard (BFS.refresh_mincost_bound e args) = false).
      { unfold BFS.loop_guard. rewrite Xs, Xr, St, M. simpl.
        rewrite andb_false_r. reflexivity. }
      destruct fuel; simpl; rewrite G; reflexivity.
    + split; [congruence |]. split; [| congruence].
      unfold BFS.get_stats. congruence.
Qed.

(** The budget is not exceeded, and the fields it depends on. *)
Let budgeted (m : nat) (e : engine) : Prop :=
  BFS.max_backjumps e = Some m /\ BFS.num_backjumps e <= m.

Lemma count_backjumps_one prev depth : BFS.count_backjumps prev [depth] <= 1.
Proof.
  destruct prev as [p |]; simpl; [destruct (depth <=? p) |]; lia.
Qed.

Lemma loop_body_budgeted m args prev (e : engine) :
  BFS.max_backjumps e = Some m -> BFS.num_backjumps e < m ->
  budgeted m (iteration_engine (fst (BFS.loop_body args prev e))).
Proof.
  intros Mb Lt.
  destruct (loop_body_cases args prev e) as [(q & G & L) | (s & d & c & q & G & L)].
  - rewrite L. cbn [fst iteration_engine].
    pose proof (popped_fields e q None) as U. cbv zeta in U.
    destruct U as (_ & _ & Um & _ & _ & _ & _ & _ & _ & Ub & _).
    split; [congruence | lia].
  - cbv zeta in L.
    pose proof (popped_fields e q (Some c)) as U.
    pose proof (at_goal_test_fields e q prev d c) as T.
    cbv zeta in U, T.
    destruct U as (_ & _ & Um & _ & _ & _ & _ & _ & _ & Ub & _).
    destruct T as (_ & _ & Tm & _ & _ & _ & _ & _ & _ & Tb & _).
    pose proof (count_backjumps_one prev d) as One.
    destruct L as [(X & L) | [(X & Go & L) | [(ex & X & Go & N & L) | (l & X & Go & N & L)]]];
      rewrite L; clear L; cbn [fst iteration_engine].
    + split; [congruence | lia].
    + pose proof (at_goal_return_fields (at_goal_test e q prev d c) s c args) as R.
      cbv zeta in R. destruct R as (_ & _ & Rm & _ & _ & _ & _ & _ & Rb & _).
      split; [congruence | lia].
    + split; [congruence | lia].
    + destruct (put_spec (at_goal_test e q prev d c) l (d + 1) args) as (F & _).
      destruct F as (_ & _ & Pm & _ & _ & _ & _ & Pb & _).
      split; [congruence | lia].
Qed.

Lemma optimization_pass_budgeted m fuel (e : engine) args r e' tr :
  budgeted m e ->
  BFS.optimization_pass fuel e args = Some (r, e', tr) ->
  budgeted m e'.
Proof.
  intros [Mb Le] H. unfold BFS.optimization_pass in H.
  apply (@pass_loop_rule State Args args
           (fun _ _ e1 => budgeted m e1) (fun _ e1 _ => budgeted m e1))
    with (acc := []) in H; auto.
  - intros _ _ e0 [M0 L0] _.
    pose proof (loop_exit_fields e0) as X. cbv zeta in X.
    destruct X as (_ & _ & Xm & _ & _ & _ & _ & _ & _ & Xb & _).
    split; [congruence | lia].
  - intros _ p0 e0 [M0 L0] G.
    assert (Lt : BFS.num_backjumps e0 < m).
    { unfold BFS.loop_guard in G. rewrite M0 in G.
      apply andb_true_iff in G. destruct G as [_ G]. apply Nat.ltb_lt. exact G. }
    pose proof (loop_body_budgeted args p0 e0 M0 Lt) as B.
    destruct (BFS.loop_body args p0 e0) as [[d1 e1 | r1 e1] p1]; exact B.
  - pose proof (refresh_mincost_bound_fields e args) as X. cbv zeta in X.
    destruct X as (_ & _ & Xm & _ & _ & _ & _ & _ & _ & _ & Xb & _).
    split; [congruence | lia].
Qed.

(** X12.  The search never makes more backjumps than [max_backjumps]
    allows: after [initialize] and any number of calls of
    [optimization_pass] the count of backjumps is at most the budget. *)
Theorem backjumps_within_budget (fuel n : nat) (e0 : engine)
  (inits : list State) (args : Args) (m : nat) rs e' tr :
  BFS.max_backjumps e0 = Some m ->
  BFS.run_passes fuel n (BFS.initialize e0 inits args) args = Some (rs, e', tr) ->
  BFS.num_backjumps e' <= m.
Proof.
  intros Mb H.
  apply (@run_passes_rule State Args args (fun _ _ e1 => budgeted m e1) fuel)
    with (rs0 := []) (acc := []) in H.
  - destruct H as [_ H]. exact H.
  - intros rs1 acc e1 r e2 tr1 B P. eapply optimization_pass_budgeted; eauto.
  - unfold BFS.initialize.
    match goal with
    | |- budgeted m (BFS.put ?e9 ?l ?k ?a) =>
        destruct (put_spec e9 l k a) as (F & _)
    end.
    destruct F as (_ & _ & Pm & _ & _ & _ & _ & Pb & _).
    split; [rewrite Pm; exact Mb | rewrite Pb; simpl; lia].
Qed.

End Flags.

(** X11 on the fork engine that stops at the first minimum, after its first
    call: the next call returns [(None, None)] and changes nothing. *)
Lemma calls_after_minimum_witness :
  BFS.minimum_reached Toy2.fork_settled = true /\
  (forall fuel r e' tr,
     BFS.optimization_pass fuel Toy2.fork_settled tt = Some (r, e', tr) ->
     BFS.minimum_reached e' = true) /\
  (BFS.stop_at_first_min Toy2.fork_settled = true ->
   forall fuel,
   exists e',
     BFS.optimization_pass fuel Toy2.fork_settled tt
       = Some (BFS.Returned None, e', []) /\
     BFS.pq e' = BFS.pq Toy2.fork_settled /\
     BFS.get_stats e' = BFS.get_stats Toy2.fork_settled /\
     BFS.upperbound_cost e' = BFS.upperbound_cost Toy2.fork_settled).
Proof.
  assert (M : BFS.minimum_reached Toy2.fork_settled = true) by (vm_compute; reflexivity).
  split; [exact M |].
  exact (@calls_after_minimum_reached nat unit Toy2.fork_settled tt M).
Defined.

(** X12 on the plateau engine with a budget of one backjump, called four
    times: one backjump is counted. *)
Lemma backjumps_within_budget_witness :
  exists rs e' tr,
    BFS.run_passes 10 4
      (BFS.initialize
         (BFS.init Toy.plateau_funcs (Toy.generator Toy.stream_up) (Some 1) false)
         [0] tt) tt
      = Some (rs, e', tr) /\
    BFS.num_backjumps e' <= 1.
Proof.
  destruct (BFS.run_passes 10 4
              (BFS.initialize
                 (BFS.init Toy.plateau_funcs (Toy.generator Toy.stream_up) (Some 1) false)
                 [0] tt) tt)
    as [[[rs e'] tr] |] eqn:E; [| vm_compute in E; discriminate].
  exists rs, e', tr. split; [reflexivity |].
  exact (@backjumps_within_budget nat unit 10 4
           (BFS.init Toy.plateau_funcs (Toy.generator Toy.stream_up) (Some 1) false)
           [0] tt 1 rs e' tr eq_refl E).
Defined.
